(** * The wrapper/garbage-collector bridge of gcc-python-plugin

    A shallow embedding of [gcc-python-wrapper.c] (live-wrapper list, GGC
    root walker, metatype, forced collection) and of the identity services
    of the tree wrappers (hash, rich comparison, repr, construction).

    Pointers are integers ([Z]), [NULL] is [0].  Objects live in finite maps
    from addresses to records of their fields.  A failed [assert], and a
    load or store through a pointer to no object, end the run. *)

From stdpp Require Import gmap strings list fin_maps.
From Stdlib Require Import ZArith DecimalString DecimalN DecimalPos.

Local Open Scope Z_scope.

(* stdpp's solvers clear hypotheses that are not always there *)
#[local] Set Warnings "-clear-no-such-hyp".

(** ** Outcomes of a run

    A run over a state [S] ends with a value and the final state, at a failed
    [assert] (with the state reached: nothing is written after it), in a
    fault, or at the bound given to a loop. *)

Inductive outcome (S A : Type) : Type :=
  | Done (a : A) (s : S)
  | AssertFail (cond : string) (s : S)   (* assert(cond) failed: abort() *)
  | Fault                                (* access through NULL or a dangling pointer *)
  | OutOfFuel.                           (* the bound given to a loop was reached *)
Arguments Done {S A} a s.
Arguments AssertFail {S A} cond s.
Arguments Fault {S A}.
Arguments OutOfFuel {S A}.

Definition NULL : Z := 0.

(** ** A state-and-failure monad for the C statements *)

Definition M (S A : Type) : Type := S → outcome S A.

#[global] Instance M_ret {S} : MRet (M S) := λ A a s, Done a s.
#[global] Instance M_bind {S} : MBind (M S) := λ A B k m s,
  match m s with
  | Done a s' => k a s'
  | AssertFail c s' => AssertFail c s'
  | Fault => Fault
  | OutOfFuel => OutOfFuel
  end.

(** [assert(cond)] *)
Definition c_assert {S} (b : bool) (cond : string) : M S unit :=
  λ s, if b then Done tt s else AssertFail cond s.

(** A read that faults when there is nothing to read. *)
Definition c_read {S A} (f : S → option A) : M S A :=
  λ s, match f s with Some v => Done v s | None => Fault end.

(** ** Wrapper objects: [struct PyGccWrapper]

    [PyObject_HEAD] followed by the two links of the live list. *)

Record PyGccWrapper : Type := mkWrapper {
  ob_refcnt : Z;
  ob_type : Z;      (* address of the PyGccWrapperTypeObject *)
  wr_prev : Z;
  wr_next : Z
}.

Definition set_wr_prev (v : Z) (o : PyGccWrapper) : PyGccWrapper :=
  mkWrapper (ob_refcnt o) (ob_type o) v (wr_next o).
Definition set_wr_next (v : Z) (o : PyGccWrapper) : PyGccWrapper :=
  mkWrapper (ob_refcnt o) (ob_type o) (wr_prev o) v.

(** The memory holding wrapper objects. *)
Abbreviation wheap := (gmap Z PyGccWrapper).

(** Field reads, as partial functions of the address. *)
Definition prev_at (h : wheap) (p : Z) : option Z := wr_prev <$> h !! p.
Definition next_at (h : wheap) (p : Z) : option Z := wr_next <$> h !! p.
Definition refcnt_at (h : wheap) (p : Z) : option Z := ob_refcnt <$> h !! p.
Definition type_at (h : wheap) (p : Z) : option Z := ob_type <$> h !! p.

(** [p->wr_prev], [p->wr_next], [Py_REFCNT(p)] *)
Definition load_prev (p : Z) : M wheap Z := c_read (λ h, prev_at h p).
Definition load_next (p : Z) : M wheap Z := c_read (λ h, next_at h p).
Definition load_refcnt (p : Z) : M wheap Z := c_read (λ h, refcnt_at h p).

(** [p->wr_prev = v], [p->wr_next = v] *)
Definition store_prev (p v : Z) : M wheap unit :=
  λ h, match h !! p with
       | Some _ => Done tt (alter (set_wr_prev v) p h)
       | None => Fault
       end.
Definition store_next (p v : Z) : M wheap unit :=
  λ h, match h !! p with
       | Some _ => Done tt (alter (set_wr_next v) p h)
       | None => Fault
       end.

(** ** The live list: sentinel, track, untrack, dealloc *)

(** [&sentinel]: the address of the statically allocated list head.  The
    proofs use of it only that it is not [NULL]. *)
Definition sentinel : Z := 4096.

(** [static struct PyGccWrapper sentinel = { PyObject_HEAD_INIT(NULL)
    &sentinel, &sentinel };] *)
Definition sentinel_init : PyGccWrapper := mkWrapper 1 NULL sentinel sentinel.

(** Memory at start-up: the sentinel alone. *)
Definition initial_heap : wheap := {[ sentinel := sentinel_init ]}.

(** [gcc_python_wrapper_track]; the debug [printf] is off
    ([debug_gcc_python_wrapper == 0]) outside the self-test. *)
Definition gcc_python_wrapper_track (obj : Z) : M wheap unit :=
  c_assert (bool_decide (obj ≠ NULL)) "obj" ;;
  sn ← load_next sentinel;
  c_assert (bool_decide (sn ≠ NULL)) "sentinel.wr_next" ;;
  sp ← load_prev sentinel;
  c_assert (bool_decide (sp ≠ NULL)) "sentinel.wr_prev" ;;
  (* Add to end of list, immediately before sentinel: *)
  sp ← load_prev sentinel;
  spn ← load_next sp;
  c_assert (bool_decide (spn = sentinel)) "sentinel.wr_prev->wr_next == &sentinel" ;;
  sp ← load_prev sentinel;
  store_next sp obj ;;
  sp ← load_prev sentinel;
  store_prev obj sp ;;
  store_next obj sentinel ;;
  store_prev sentinel obj ;;
  op ← load_prev obj;
  c_assert (bool_decide (op ≠ NULL)) "obj->wr_prev" ;;
  on ← load_next obj;
  c_assert (bool_decide (on ≠ NULL)) "obj->wr_next".

(** [gcc_python_wrapper_untrack], debug [printf] off as above *)
Definition gcc_python_wrapper_untrack (obj : Z) : M wheap unit :=
  c_assert (bool_decide (obj ≠ NULL)) "obj" ;;
  rc ← load_refcnt obj;
  c_assert (bool_decide (rc = 0)) "Py_REFCNT(obj) == 0" ;;
  sn ← load_next sentinel;
  c_assert (bool_decide (sn ≠ NULL)) "sentinel.wr_next" ;;
  sp ← load_prev sentinel;
  c_assert (bool_decide (sp ≠ NULL)) "sentinel.wr_prev" ;;
  op ← load_prev obj;
  c_assert (bool_decide (op ≠ NULL)) "obj->wr_prev" ;;
  on ← load_next obj;
  c_assert (bool_decide (on ≠ NULL)) "obj->wr_next" ;;
  (* Remove from linked list: *)
  op ← load_prev obj;
  on ← load_next obj;
  store_next op on ;;
  on ← load_next obj;
  op ← load_prev obj;
  store_prev on op ;;
  store_prev obj NULL ;;
  store_next obj NULL.

(** [Py_TYPE(obj)->tp_free(obj)]: the host runtime releases the memory. *)
Definition tp_free (obj : Z) : M wheap unit :=
  λ h, match h !! obj with
       | Some _ => Done tt (delete obj h)
       | None => Fault
       end.

(** [gcc_python_wrapper_dealloc] *)
Definition gcc_python_wrapper_dealloc (obj : Z) : M wheap unit :=
  c_assert (bool_decide (obj ≠ NULL)) "obj" ;;
  rc ← load_refcnt obj;
  c_assert (bool_decide (rc = 0)) "Py_REFCNT(obj) == 0" ;;
  gcc_python_wrapper_untrack obj ;;
  tp_free obj.

(** The list read off the memory: [l] are the wrappers met from the
    sentinel along [wr_next], in order; along [wr_prev] the same wrappers are
    met in reverse.  Each node is linked to the one after it and the last
    back to the sentinel. *)
Definition linked (h : wheap) (a b : Z) : Prop :=
  next_at h a = Some b ∧ prev_at h b = Some a.

Definition tracker_repr (h : wheap) (l : list Z) : Prop :=
  NoDup (sentinel :: l) ∧ (NULL ∉ l) ∧
  Forall2 (linked h) (sentinel :: l) (l ++ [sentinel]).


(** The memory [gcc_python_wrapper_track] leaves when the node before the
    sentinel is [a]: its four stores, in program order. *)
Definition track_heap (obj a : Z) (h : wheap) : wheap :=
  alter (set_wr_prev obj) sentinel
    (alter (set_wr_next sentinel) obj
       (alter (set_wr_prev a) obj
          (alter (set_wr_next obj) a h))).

(** The memory [gcc_python_wrapper_untrack] leaves when [obj] sits between
    [a] and [b]: its four stores, in program order. *)
Definition untrack_heap (obj a b : Z) (h : wheap) : wheap :=
  alter (set_wr_next NULL) obj
    (alter (set_wr_prev NULL) obj
       (alter (set_wr_prev a) b
          (alter (set_wr_next b) a h))).

(** ** Type objects: [PyGccWrapperTypeObject]

    A [PyHeapTypeObject] followed by the [wrtp_mark] hook.  Only the fields
    the bridge reads are kept.  [wrtp_mark] is a function pointer, [NULL]
    when no marking function is installed. *)

Record PyGccWrapperTypeObject : Type := mkType {
  tp_name : string;
  tp_ob_type : Z;     (* Py_TYPE of the type object: its metatype *)
  tp_basicsize : Z;
  tp_base : Z;
  wrtp_mark : Z
}.

Definition set_wrtp_mark (v : Z) (ty : PyGccWrapperTypeObject) :
    PyGccWrapperTypeObject :=
  mkType (tp_name ty) (tp_ob_type ty) (tp_basicsize ty) (tp_base ty) v.

(** The memory holding type objects. *)
Abbreviation theap := (gmap Z PyGccWrapperTypeObject).

Definition mark_at (tys : theap) (ty : Z) : option Z := wrtp_mark <$> tys !! ty.
Definition base_at (tys : theap) (ty : Z) : option Z := tp_base <$> tys !! ty.
Definition metatype_at (tys : theap) (ty : Z) : option Z :=
  tp_ob_type <$> tys !! ty.
Definition basicsize_at (tys : theap) (ty : Z) : option Z :=
  tp_basicsize <$> tys !! ty.

(** [((PyGccWrapperTypeObject* )ty)->wrtp_mark = v] *)
Definition store_wrtp_mark (ty v : Z) : M theap unit :=
  λ tys, match tys !! ty with
         | Some _ => Done tt (alter (set_wrtp_mark v) ty tys)
         | None => Fault
         end.

(** ** The metatype's [tp_new] *)

Section Metatype.
(** The argument tuple and keyword dictionary handed to [tp_new]. *)
Context {PyArgs : Type}.
(** [sizeof(PyGccWrapperTypeObject)] *)
Variable sizeof_PyGccWrapperTypeObject : Z.
(** [PyType_Type.tp_new], the host runtime's type constructor: it returns
    the address of the new type object, or [NULL]. *)
Variable PyType_Type_tp_new : Z → PyArgs → PyArgs → M theap Z.

(** [gcc_python_wrapper_meta_tp_new] *)
Definition gcc_python_wrapper_meta_tp_new (type : Z) (args kwds : PyArgs) :
    M theap Z :=
  (* Use PyType_Type's tp_new *)
  new_type ← PyType_Type_tp_new type args kwds;
  if decide (new_type = NULL) then mret NULL
  else
    metatype ← c_read (λ tys, metatype_at tys new_type);
    size ← c_read (λ tys, basicsize_at tys metatype);
    c_assert (bool_decide (sizeof_PyGccWrapperTypeObject ≤ size))
      "Py_TYPE(new_type)->tp_basicsize >= sizeof(PyGccWrapperTypeObject)" ;;
    (* Inherit wrtp_mark: *)
    base ← c_read (λ tys, base_at tys new_type);
    mark ← c_read (λ tys, mark_at tys base);
    store_wrtp_mark new_type mark ;;
    mret new_type.
End Metatype.

(** ** The root walker: [my_walker]

    The state of the walk is the log of the marking functions called so far,
    each with its argument.  The wrapper and type memories are only read: a
    marking function marks GCC's objects and leaves the wrappers alone. *)

Abbreviation mark_log := (list (Z * Z)).

(** [wrtp_mark(iter)] *)
Definition call_marker (f arg : Z) : M mark_log unit :=
  λ log, Done tt (log ++ [(f, arg)]).

(** The body of the [for] loop and its continuation, from [iter] on. *)
Fixpoint walk (fuel : nat) (tys : theap) (h : wheap) (iter : Z) :
    M mark_log unit :=
  match fuel with
  | O => λ _, OutOfFuel
  | S fuel' =>
      if decide (iter = sentinel) then mret tt
      else
        ty ← c_read (λ _, type_at h iter);
        mark ← c_read (λ _, mark_at tys ty);
        c_assert (bool_decide (mark ≠ NULL)) "wrtp_mark" ;;
        call_marker mark iter ;;
        next ← c_read (λ _, next_at h iter);
        walk fuel' tys h next
  end.

(** [my_walker]: [for (iter = sentinel.wr_next; iter != &sentinel;
    iter = iter->wr_next)] *)
Definition my_walker (fuel : nat) (tys : theap) (h : wheap) : M mark_log unit :=
  first ← c_read (λ _, next_at h sentinel);
  walk fuel tys h first.

(** The marking function a walk uses for the wrapper at [p]. *)
Definition marker_of (tys : theap) (h : wheap) (p : Z) : option Z :=
  ty ← type_at h p; mark_at tys ty.

(** ** Forcing a collection: [force_gcc_gc] *)

Section Collector.
(** What the collector owns besides the flag. *)
Context {GGC : Type}.

Record gcc_state : Type := mkGcc {
  ggc_force_collect : bool;
  ggc_heap : GGC
}.

Definition set_ggc_force_collect (b : bool) (g : gcc_state) : gcc_state :=
  mkGcc b (ggc_heap g).

(** [ggc_collect], GCC's collector. *)
Variable ggc_collect : gcc_state → gcc_state.

(** [force_gcc_gc] *)
Definition force_gcc_gc (g : gcc_state) : gcc_state :=
  let stored := ggc_force_collect g in
  let g := set_ggc_force_collect true g in
  let g := ggc_collect g in
  set_ggc_force_collect stored g.

(** [gcc_python__force_garbage_collection]: the result is [Py_None], whose
    reference count [none_refcnt] goes up by one. *)
Definition gcc_python__force_garbage_collection (Py_None : Z)
    (st : gcc_state * Z) : Z * (gcc_state * Z) :=
  let '(g, none_refcnt) := st in
  (Py_None, (force_gcc_gc g, none_refcnt + 1)).
End Collector.
Arguments gcc_state : clear implicits.
Arguments mkGcc {GGC} _ _.

(** ** Construction and destruction of wrappers *)

Section Lifecycle.
(** [PyObject_New(PyGccWrapper, typeobj)], the host allocator: it returns the
    address of a new object, or [NULL]. *)
Variable PyObject_New : Z → M wheap Z.

(** [_PyGccWrapper_New] *)
Definition _PyGccWrapper_New (typeobj : Z) : M wheap Z :=
  c_assert (bool_decide (typeobj ≠ NULL)) "typeobj" ;;
  obj ← PyObject_New typeobj;
  if decide (obj = NULL) then mret NULL
  else
    (* Add to list of live PyGccWrapper objects: *)
    gcc_python_wrapper_track obj ;;
    mret obj.
End Lifecycle.

(** An allocation that succeeds at address [obj]: reference count one, the
    type set, the two links holding whatever the memory held ([gp], [gn]). *)
Definition alloc_at (obj gp gn : Z) (typeobj : Z) : M wheap Z :=
  λ h, Done obj (<[obj := mkWrapper 1 typeobj gp gn]> h).

(** The last [Py_DECREF(obj)]: the count reaches zero and the type's
    [tp_dealloc], [gcc_python_wrapper_dealloc], runs. *)
Definition set_ob_refcnt (v : Z) (o : PyGccWrapper) : PyGccWrapper :=
  mkWrapper v (ob_type o) (wr_prev o) (wr_next o).

Definition store_refcnt (p v : Z) : M wheap unit :=
  λ h, match h !! p with
       | Some _ => Done tt (alter (set_ob_refcnt v) p h)
       | None => Fault
       end.

Definition drop_last_reference (obj : Z) : M wheap unit :=
  store_refcnt obj 0 ;;
  gcc_python_wrapper_dealloc obj.

(** The life of the bridge as the host runtime drives it. *)
Inductive wrapper_event : Type :=
  | EvNew (obj typeobj gp gn : Z)   (* _PyGccWrapper_New, allocated at obj *)
  | EvDrop (obj : Z).               (* the last reference to obj is dropped *)

Definition run_event (ev : wrapper_event) : M wheap unit :=
  match ev with
  | EvNew obj typeobj gp gn =>
      _PyGccWrapper_New (alloc_at obj gp gn) typeobj ;; mret tt
  | EvDrop obj => drop_last_reference obj
  end.

Fixpoint run_events (evs : list wrapper_event) : M wheap unit :=
  match evs with
  | [] => mret tt
  | ev :: evs' => run_event ev ;; run_events evs'
  end.

(** The wrappers a history leaves alive, oldest first. *)
Fixpoint live_after (l : list Z) (evs : list wrapper_event) : list Z :=
  match evs with
  | [] => l
  | EvNew obj _ _ _ :: evs' => live_after (l ++ [obj]) evs'
  | EvDrop obj :: evs' => live_after (filter (λ x, x ≠ obj) l) evs'
  end.

(** Histories the host runtime can produce: the allocator hands out an
    address that is not in use, and only a live wrapper loses its last
    reference. *)
Fixpoint valid_events (l : list Z) (evs : list wrapper_event) : Prop :=
  match evs with
  | [] => True
  | EvNew obj typeobj _ _ :: evs' =>
      obj ≠ NULL ∧ (obj ∉ sentinel :: l) ∧ typeobj ≠ NULL ∧
      valid_events (l ++ [obj]) evs'
  | EvDrop obj :: evs' =>
      obj ∈ l ∧ valid_events (filter (λ x, x ≠ obj) l) evs'
  end.

Definition is_EvDrop (p : Z) (ev : wrapper_event) : Prop :=
  match ev with EvDrop obj => obj = p | EvNew _ _ _ _ => False end.

(** [p] was constructed and has not been destroyed since. *)
Definition tracked_not_untracked (evs : list wrapper_event) (p : Z) : Prop :=
  ∃ evs1 evs2 typeobj gp gn,
    evs = evs1 ++ EvNew p typeobj gp gn :: evs2 ∧
    Forall (λ ev, ¬ is_EvDrop p ev) evs2.

(** ** Identity services of tree wrappers *)

(** [struct PyGccTree]: [PyObject_HEAD] and the wrapped [tree]. *)
Record PyGccTree : Type := mkTree {
  tree_refcnt : Z;
  tree_type : Z;
  tree_t : Z
}.

(** What a [PyObject*] handed to a comparison points to. *)
Inductive PyObject : Type :=
  | Tree_object (w : PyGccTree)
  | Other_object (refcnt type : Z).

Definition Py_TYPE (o : PyObject) : Z :=
  match o with
  | Tree_object w => tree_type w
  | Other_object _ type => type
  end.

(** The cast [(struct PyGccTree * )o]: it has a [t] to read only when the
    object is laid out as a [PyGccTree]. *)
Definition as_PyGccTree (o : PyObject) : option PyGccTree :=
  match o with
  | Tree_object w => Some w
  | Other_object _ _ => None
  end.

(** The three objects a rich comparison of trees can return. *)
Inductive compare_result : Type := Py_NotImplemented | Py_True | Py_False.

Definition Py_LT : Z := 0.
Definition Py_LE : Z := 1.
Definition Py_EQ : Z := 2.
Definition Py_NE : Z := 3.
Definition Py_GT : Z := 4.
Definition Py_GE : Z := 5.

(** [(long)p] for a pointer [p] on an LP64 host. *)
Definition cast_long (p : Z) : Z := (p + 2 ^ 63) `mod` 2 ^ 64 - 2 ^ 63.

(** [gcc_Tree_hash] *)
Definition gcc_Tree_hash (self : PyGccTree) : Z :=
  (* Use the ptr as the hash value: *)
  cast_long (tree_t self).

Section Compare.
(** [PyType_IsSubtype], the host runtime's subtype test. *)
Variable PyType_IsSubtype : Z → Z → bool.
(** [&gcc_TreeType] *)
Variable gcc_TreeType : Z.

(** [PyObject_TypeCheck(o, tp)] *)
Definition PyObject_TypeCheck (o : PyObject) (tp : Z) : bool :=
  bool_decide (Py_TYPE o = tp) || PyType_IsSubtype (Py_TYPE o) tp.

(** [gcc_Tree_richcompare]; [None] when a cast reads an object that is not a
    [PyGccTree].  The result is one of three immortal objects of the host
    runtime; the reference the function takes on it is not modelled. *)
Definition gcc_Tree_richcompare (o1 o2 : PyObject) (op : Z) :
    option compare_result :=
  if negb (PyObject_TypeCheck o1 gcc_TreeType) then Some Py_NotImplemented
  else if negb (PyObject_TypeCheck o2 gcc_TreeType) then Some Py_NotImplemented
  else
    treeobj1 ← as_PyGccTree o1;
    treeobj2 ← as_PyGccTree o2;
    if decide (op = Py_EQ) then
      Some (if bool_decide (tree_t treeobj1 = tree_t treeobj2)
            then Py_True else Py_False)
    else if decide (op = Py_NE) then
      Some (if bool_decide (tree_t treeobj1 ≠ tree_t treeobj2)
            then Py_True else Py_False)
    else Some Py_NotImplemented.
End Compare.

(** ** [gcc_Declaration_repr] *)

(** [%u] of a C [unsigned int]. *)
Definition format_u (n : N) : string := NilZero.string_of_uint (N.to_uint n).

(** [gcc_Declaration_repr].  [decl_name] is [DECL_NAME(self->t)], [decl_uid]
    is [DECL_UID(self->t)], [get_name] is what [gcc_Declaration_get_name]
    returns ([None] for its [NULL]); the result is [None] for [NULL]. *)
Definition gcc_Declaration_repr (type_name : string) (decl_name : Z)
    (decl_uid : N) (get_name : option string) : option string :=
  if decide (decl_name ≠ NULL) then
    match get_name with
    | None => None
    | Some name => Some (type_name +:+ "('" +:+ name +:+ "')")
    end
  else Some (type_name +:+ "(" +:+ format_u decl_uid +:+ ")").

(** ** Construction of tree wrappers *)

(** The host-side state the tree wrappers live in: the wrapper objects, the
    reference count of [Py_None], and [tree_wrapper_cache]. *)
Record pystate : Type := mkPy {
  py_trees : gmap Z PyGccTree;
  py_none_refcnt : Z;
  tree_wrapper_cache : gmap Z Z
}.

(** [&_Py_NoneStruct] *)
Definition Py_None : Z := 8192.

(** [Py_RETURN_NONE] *)
Definition Py_RETURN_NONE : M pystate Z :=
  λ s, Done Py_None
         (mkPy (py_trees s) (py_none_refcnt s + 1) (tree_wrapper_cache s)).

Definition set_tree_t (v : Z) (w : PyGccTree) : PyGccTree :=
  mkTree (tree_refcnt w) (tree_type w) v.
Definition set_tree_refcnt (v : Z) (w : PyGccTree) : PyGccTree :=
  mkTree v (tree_type w) (tree_t w).

(** [tree_obj->t = t] *)
Definition store_tree_t (p v : Z) : M pystate unit :=
  λ s, match py_trees s !! p with
       | Some _ =>
           Done tt (mkPy (alter (set_tree_t v) p (py_trees s))
                      (py_none_refcnt s) (tree_wrapper_cache s))
       | None => Fault
       end.

(** [Py_INCREF(p)] on a tree wrapper *)
Definition Py_INCREF (p : Z) : M pystate unit :=
  λ s, match py_trees s !! p with
       | Some w =>
           Done tt (mkPy (alter (set_tree_refcnt (tree_refcnt w + 1)) p
                            (py_trees s))
                      (py_none_refcnt s) (tree_wrapper_cache s))
       | None => Fault
       end.

(** Reading and writing [tree_wrapper_cache] *)
Definition cache_lookup (ptr : Z) : M pystate (option Z) :=
  λ s, Done (tree_wrapper_cache s !! ptr) s.
Definition cache_store (ptr obj : Z) : M pystate unit :=
  λ s, Done tt (mkPy (py_trees s) (py_none_refcnt s)
                  (<[ptr := obj]> (tree_wrapper_cache s))).

Section MakeWrapper.
(** [gcc_python_autogenerated_tree_type_for_tree(t, borrow_ref)]: the type
    object for the tree code of [t]. *)
Variable gcc_python_autogenerated_tree_type_for_tree : Z → Z → Z.
(** [PyObject_New(struct PyGccTree, tp)]: the address of a new object, or
    [NULL]. *)
Variable PyObject_New : Z → M pystate Z.

(** [real_make_tree_wrapper] *)
Definition real_make_tree_wrapper (t : Z) : M pystate Z :=
  if decide (NULL = t) then Py_RETURN_NONE
  else
    let tp := gcc_python_autogenerated_tree_type_for_tree t 1 in
    c_assert (bool_decide (tp ≠ NULL)) "tp" ;;
    tree_obj ← PyObject_New tp;
    if decide (tree_obj = NULL) then mret NULL
    else
      store_tree_t tree_obj t ;;
      mret tree_obj.

(** Modelled from the spec: [gcc_python_lazily_create_wrapper], which
    [gcc_python_make_wrapper_tree] calls and which is defined in another file
    of the repository.  The absent handle gives the host's no-value object;
    otherwise the handle is looked up in the cache, a hit returns the cached
    proxy with one more reference, a miss constructs a proxy with [ctor],
    stores it under the handle and returns it; when construction fails
    nothing is stored. *)
Definition gcc_python_lazily_create_wrapper (ptr : Z)
    (ctor : Z → M pystate Z) : M pystate Z :=
  if decide (ptr = NULL) then Py_RETURN_NONE
  else
    oldobj ← cache_lookup ptr;
    match oldobj with
    | Some oldobj => Py_INCREF oldobj ;; mret oldobj
    | None =>
        newobj ← ctor ptr;
        if decide (newobj = NULL) then mret NULL
        else
          cache_store ptr newobj ;;
          mret newobj
    end.

(** [gcc_python_make_wrapper_tree] *)
Definition gcc_python_make_wrapper_tree (t : Z) : M pystate Z :=
  gcc_python_lazily_create_wrapper t real_make_tree_wrapper.

(** Modelled from the spec: the destruction of a proxy once the host has
    dropped every reference to it.  Its memory is released and the cache
    entry that led to it becomes absent. *)
Definition destroy_proxy (p : Z) : M pystate unit :=
  λ s, match py_trees s !! p with
       | Some w =>
           Done tt (mkPy (delete p (py_trees s)) (py_none_refcnt s)
                      (if decide (tree_wrapper_cache s !! tree_t w = Some p)
                       then delete (tree_t w) (tree_wrapper_cache s)
                       else tree_wrapper_cache s))
       | None => Fault
       end.

(** What host code does with tree wrappers between two requests. *)
Inductive host_event : Type :=
  | HostGet (t : Z)        (* gcc_python_make_wrapper_tree(t) *)
  | HostDestroy (p : Z).   (* the proxy at p is destroyed *)

Definition run_host_event (ev : host_event) : M pystate unit :=
  match ev with
  | HostGet t => gcc_python_make_wrapper_tree t ;; mret tt
  | HostDestroy p => destroy_proxy p
  end.

Fixpoint run_host_events (evs : list host_event) : M pystate unit :=
  match evs with
  | [] => mret tt
  | ev :: evs' => run_host_event ev ;; run_host_events evs'
  end.
End MakeWrapper.

(** The allocator never hands out an address in use, [NULL] apart, and
    touches nothing else. *)
Definition allocator_ok (PyObject_New : Z → M pystate Z) : Prop :=
  ∀ tp s,
    PyObject_New tp s = Done NULL s ∨
    ∃ p garbage, p ≠ NULL ∧ py_trees s !! p = None ∧
      PyObject_New tp s
      = Done p (mkPy (<[p := mkTree 1 tp garbage]> (py_trees s))
                  (py_none_refcnt s) (tree_wrapper_cache s)).

(** The wrapper memory holds the sentinel and the listed wrappers, linked
    into the list, and nothing else. *)
Definition tracker_exact (h : wheap) (l : list Z) : Prop :=
  tracker_repr h l ∧ ∀ x, is_Some (h !! x) ↔ x ∈ sentinel :: l.

(** Following a link [n] times. *)
Fixpoint follow (f : Z → option Z) (n : nat) (p : Z) : option Z :=
  match n with
  | O => Some p
  | S n' => q ← f p; follow f n' q
  end.

(** Both directions lead from the sentinel back to the sentinel, through
    every wrapper of the list. *)
Definition circular (h : wheap) (l : list Z) : Prop :=
  follow (next_at h) (S (length l)) sentinel = Some sentinel ∧
  follow (prev_at h) (S (length l)) sentinel = Some sentinel.

(** ** Concrete memories for the examples *)

(** Two type objects under a metatype: a built-in wrapper type with a
    marking function at 9001, and one without. *)
Definition ex_meta : Z := 6000.
Definition ex_tree_type : Z := 7000.
Definition ex_bare_type : Z := 7100.
Definition ex_types : theap :=
  <[ex_meta := mkType "gcc.WrapperMeta" 5000 416 5000 NULL]>
    (<[ex_tree_type := mkType "gcc.Tree" ex_meta 24 5100 9001]>
       (<[ex_bare_type := mkType "gcc.Bare" ex_meta 24 5100 NULL]> ∅)).

(** Two live wrappers, at 100 and 200, in that order. *)
Definition ex_heap : wheap :=
  <[sentinel := mkWrapper 1 NULL 200 100]>
    (<[100 := mkWrapper 1 ex_tree_type sentinel 200]>
       (<[200 := mkWrapper 0 ex_tree_type 100 sentinel]> ∅)).

Definition ex_events : list wrapper_event :=
  [EvNew 100 ex_tree_type 11 12; EvNew 200 ex_tree_type 0 0; EvDrop 100;
   EvNew 300 ex_tree_type 5 5].

(** Example instance of the host runtime's type constructor: the new type
    object is placed at 7200, its metatype is [type], its base is the
    declared parent [args], and the words past the host's own fields are
    zero. *)
Definition ex_new_type : Z := 7200.
Definition ex_tp_new (type : Z) (args kwds : Z) : M theap Z :=
  λ tys, Done ex_new_type
           (<[ex_new_type := mkType "MyWrapper" type 24 args NULL]> tys).

(** One live wrapper at 100, an instance of the type at 7200. *)
Definition ex_heap_sub : wheap :=
  <[sentinel := mkWrapper 1 NULL 100 100]>
    (<[100 := mkWrapper 1 ex_new_type sentinel sentinel]> ∅).

(** The rendering of an anonymous declaration as the specification words
    it: the type name, then [#] and the uid, in parentheses. *)
Definition spec_anonymous_repr (type_name : string) (decl_uid : N) : string :=
  type_name +:+ "(#" +:+ format_u decl_uid +:+ ")".

(** Example allocator for tree wrappers: the next object goes to the
    address one past the largest in use (at least 16), with [t] holding 0. *)
Definition ex_fresh (trees : gmap Z PyGccTree) : Z :=
  map_fold (λ p _ acc, Z.max (p + 1) acc) 16 trees.
Definition ex_PyObject_New (tp : Z) : M pystate Z :=
  λ s, Done (ex_fresh (py_trees s))
         (mkPy (<[ex_fresh (py_trees s) := mkTree 1 tp 0]> (py_trees s))
            (py_none_refcnt s) (tree_wrapper_cache s)).
(** Example type table: every tree is wrapped as the type at 7000. *)
Definition ex_type_for_tree (t borrow_ref : Z) : Z := ex_tree_type.
Definition ex_pystate : pystate := mkPy ∅ 10 ∅.

(** The cache leads from the handle [t] to the proxy at [p], which is
    alive. *)
Definition cached (s : pystate) (t p : Z) : Prop :=
  tree_wrapper_cache s !! t = Some p ∧ is_Some (py_trees s !! p).

(** ** Shapes of statements

    A statement is quiet when it leaves the state as it found it, whether
    it returns or stops at an assertion; it never asserts when no run of it
    stops at an assertion; it is all-or-nothing under assertions when a run
    that stops at one has written nothing. *)
Definition quiet {S A} (m : M S A) : Prop :=
  ∀ s, match m s with
       | Done _ s' | AssertFail _ s' => s' = s
       | Fault | OutOfFuel => True
       end.
Definition never_asserts {S A} (m : M S A) : Prop :=
  ∀ s cond s', m s ≠ AssertFail cond s'.
Definition assert_leaves_state {S A} (m : M S A) : Prop :=
  ∀ s cond s', m s = AssertFail cond s' → s' = s.

(** Two wrapper memories hold the same objects, of the same types and with
    the same reference counts: they differ at most in the links. *)
Definition same_objects (h h' : wheap) : Prop :=
  ∀ x, type_at h' x = type_at h x ∧ refcnt_at h' x = refcnt_at h x ∧
       (is_Some (h' !! x) ↔ is_Some (h !! x)).

(** Every type a history constructs a wrapper of has a marking function. *)
Definition event_type_marked (tys : theap) (ev : wrapper_event) : Prop :=
  match ev with
  | EvNew _ typeobj _ _ => ∃ m, mark_at tys typeobj = Some m ∧ m ≠ NULL
  | EvDrop _ => True
  end.

(** Example instance of the host runtime's type constructor that places the
    first new type object at 7200 and the next at 7300. *)
Definition ex_tp_new_next (type : Z) (args kwds : Z) : M theap Z :=
  λ tys, let addr := if tys !! 7200 is Some _ then 7300 else 7200 in
         Done addr (<[addr := mkType "Sub" type 24 args NULL]> tys).

(** ** [gcc_IdentifierNode_repr] *)


(** ** Chains of GCC trees

    The fields of a [tree] node that the list builders read.  The macros
    [TREE_CHAIN], [TREE_PURPOSE], [TREE_VALUE] and [TYPE_ARG_TYPES] read
    through the pointer: there is a fault when nothing is allocated
    there.  The builders only read this memory. *)
Record tree_node : Type := mkNode {
  node_chain : Z;       (* TREE_CHAIN *)
  node_purpose : Z;     (* TREE_PURPOSE *)
  node_value : Z;       (* TREE_VALUE *)
  node_arg_types : Z    (* TYPE_ARG_TYPES *)
}.

Definition tree_memory : Type := gmap Z tree_node.

(** [struct constructor_elt]: an element of a [CONSTRUCTOR]. *)
Record constructor_elt : Type := mkElt {
  elt_index : Z;
  elt_value : Z
}.

(** The nodes [l] that following [TREE_CHAIN] from [t] goes through before
    it arrives at [last]. *)
Fixpoint chain (trees : tree_memory) (t : Z) (l : list Z) (last : Z) : Prop :=
  match l with
  | [] => t = last
  | n :: l =>
      t = n ∧ n ≠ NULL ∧
      match trees !! n with
      | Some nd => chain trees (node_chain nd) l last
      | None => False
      end
  end.

Definition INT_MAX : Z := 2147483647.

Section Chains.
Context {Host : Type}.

(** GCC's tree memory and its [error_mark_node]. *)
Variable trees : tree_memory.
Variable error_mark_node : Z.

(** [gcc_python_make_wrapper_tree] and the functions of the host runtime
    that the builders call, over the runtime's state. *)
Variable gcc_python_make_wrapper_tree : Z → M Host Z.
Variable PyList_New : Z → M Host Z.
Variable PyList_Append : Z → Z → M Host Z.
Variable PyTuple_New : Z → M Host Z.
Variable PyTuple_SetItem : Z → Z → Z → M Host Z.
Variable Py_BuildValue_OO : Z → Z → M Host Z.
Variable PyList_SetItem : Z → Z → Z → M Host Z.
Variable PyTuple_Pack_2 : Z → Z → M Host Z.
Variable Py_DECREF : Z → M Host unit.

Definition TREE_CHAIN (t : Z) : M Host Z :=
  c_read (λ _, node_chain <$> trees !! t).
Definition TREE_PURPOSE (t : Z) : M Host Z :=
  c_read (λ _, node_purpose <$> trees !! t).
Definition TREE_VALUE (t : Z) : M Host Z :=
  c_read (λ _, node_value <$> trees !! t).
Definition TYPE_ARG_TYPES (t : Z) : M Host Z :=
  c_read (λ _, node_arg_types <$> trees !! t).

(** [Py_XDECREF]: [Py_DECREF] unless the pointer is [NULL]. *)
Definition Py_XDECREF (p : Z) : M Host unit :=
  if decide (p = NULL) then mret tt else Py_DECREF p.

(** [i++] on an [int]: overflow is undefined. *)
Definition int_incr (i : Z) : M Host Z :=
  λ s, if decide (i < INT_MAX) then Done (i + 1) s else Fault.

(** The [error:] label of the builders. *)
Definition builder_error (result : Z) : M Host Z :=
  Py_XDECREF result ;; mret NULL.

(** [gcc_tree_list_from_chain]: its [while (t)] loop, then the function. *)
Fixpoint gcc_tree_list_from_chain_loop (fuel : nat) (result t : Z)
    : M Host Z :=
  match fuel with
  | O => λ _, OutOfFuel
  | S fuel =>
      if decide (t = NULL) then mret result
      else
        item ← gcc_python_make_wrapper_tree t;
        if decide (item = NULL) then builder_error result
        else
          rc ← PyList_Append result item;
          if decide (rc = -1) then
            Py_DECREF item ;; builder_error result
          else
            t ← TREE_CHAIN t;
            gcc_tree_list_from_chain_loop fuel result t
  end.

Definition gcc_tree_list_from_chain (fuel : nat) (t : Z) : M Host Z :=
  result ← PyList_New 0;
  if decide (result = NULL) then builder_error result
  else gcc_tree_list_from_chain_loop fuel result t.

(** [gcc_python_tree_make_list_from_tree_list_chain] *)
Fixpoint gcc_python_tree_make_list_from_tree_list_chain_loop (fuel : nat)
    (result t : Z) : M Host Z :=
  match fuel with
  | O => λ _, OutOfFuel
  | S fuel =>
      if decide (t = NULL) then mret result
      else
        v ← TREE_VALUE t;
        item ← gcc_python_make_wrapper_tree v;
        if decide (item = NULL) then builder_error result
        else
          rc ← PyList_Append result item;
          if decide (rc = -1) then
            Py_DECREF item ;; builder_error result
          else
            t ← TREE_CHAIN t;
            gcc_python_tree_make_list_from_tree_list_chain_loop fuel result t
  end.

Definition gcc_python_tree_make_list_from_tree_list_chain (fuel : nat)
    (t : Z) : M Host Z :=
  result ← PyList_New 0;
  if decide (result = NULL) then builder_error result
  else gcc_python_tree_make_list_from_tree_list_chain_loop fuel result t.

(** [gcc_tree_list_of_pairs_from_tree_list_chain] *)
Fixpoint gcc_tree_list_of_pairs_from_tree_list_chain_loop (fuel : nat)
    (result t : Z) : M Host Z :=
  match fuel with
  | O => λ _, OutOfFuel
  | S fuel =>
      if decide (t = NULL) then mret result
      else
        p ← TREE_PURPOSE t;
        purpose ← gcc_python_make_wrapper_tree p;
        if decide (purpose = NULL) then builder_error result
        else
          v ← TREE_VALUE t;
          value ← gcc_python_make_wrapper_tree v;
          if decide (value = NULL) then
            Py_DECREF purpose ;; builder_error result
          else
            pair ← Py_BuildValue_OO purpose value;
            if decide (pair = NULL) then
              Py_DECREF purpose ;; Py_DECREF value ;; builder_error result
            else
              rc ← PyList_Append result pair;
              if decide (rc = -1) then
                Py_DECREF pair ;; builder_error result
              else
                t ← TREE_CHAIN t;
                gcc_tree_list_of_pairs_from_tree_list_chain_loop fuel result t
  end.

Definition gcc_tree_list_of_pairs_from_tree_list_chain (fuel : nat)
    (t : Z) : M Host Z :=
  result ← PyList_New 0;
  if decide (result = NULL) then builder_error result
  else gcc_tree_list_of_pairs_from_tree_list_chain_loop fuel result t.

(** The three loops differ in what they append for a node: [item_of t]
    makes it, and returns [NULL] when it cannot. *)
Fixpoint append_chain (item_of : Z → M Host Z) (fuel : nat) (result t : Z)
    : M Host Z :=
  match fuel with
  | O => λ _, OutOfFuel
  | S fuel =>
      if decide (t = NULL) then mret result
      else
        item ← item_of t;
        if decide (item = NULL) then builder_error result
        else
          rc ← PyList_Append result item;
          if decide (rc = -1) then
            Py_DECREF item ;; builder_error result
          else
            t ← TREE_CHAIN t;
            append_chain item_of fuel result t
  end.

Definition value_item (t : Z) : M Host Z :=
  v ← TREE_VALUE t; gcc_python_make_wrapper_tree v.

Definition pair_item (t : Z) : M Host Z :=
  p ← TREE_PURPOSE t;
  purpose ← gcc_python_make_wrapper_tree p;
  if decide (purpose = NULL) then mret NULL
  else
    v ← TREE_VALUE t;
    value ← gcc_python_make_wrapper_tree v;
    if decide (value = NULL) then Py_DECREF purpose ;; mret NULL
    else
      pair ← Py_BuildValue_OO purpose value;
      if decide (pair = NULL) then
        Py_DECREF purpose ;; Py_DECREF value ;; mret NULL
      else mret pair.

(** [gcc_FunctionType_get_argument_types]: the loop that counts the chain,
    the loop that fills the tuple, then the function. *)
Fixpoint argument_types_count (fuel : nat) (size iter : Z) : M Host Z :=
  match fuel with
  | O => λ _, OutOfFuel
  | S fuel =>
      if decide (iter ≠ NULL ∧ iter ≠ error_mark_node) then
        iter ← TREE_CHAIN iter;
        size ← int_incr size;
        argument_types_count fuel size iter
      else mret size
  end.

Fixpoint argument_types_fill (fuel : nat) (result size i iter : Z)
    : M Host Z :=
  match fuel with
  | O => λ _, OutOfFuel
  | S fuel =>
      (* iter && TREE_CHAIN(iter) && iter != error_mark_node *)
      if decide (iter = NULL) then mret result
      else
        c ← TREE_CHAIN iter;
        if decide (c = NULL) then mret result
        else if decide (iter = error_mark_node) then mret result
        else
          c_assert (bool_decide (i < size)) "i<size" ;;
          v ← TREE_VALUE iter;
          item ← gcc_python_make_wrapper_tree v;
          if decide (item = NULL) then builder_error result
          else
            PyTuple_SetItem result i item ;;
            iter ← TREE_CHAIN iter;
            i ← int_incr i;
            argument_types_fill fuel result size i iter
  end.

Definition gcc_FunctionType_get_argument_types (fuel : nat)
    (self : PyGccTree) : M Host Z :=
  head ← TYPE_ARG_TYPES (tree_t self);
  (* Get length of chain *)
  size ← argument_types_count fuel 0 head;
  (* The last element in the list is a VOID_TYPE; don't add this *)
  c_assert (bool_decide (size > 0)) "size>0" ;;
  let size := size - 1 in
  result ← PyTuple_New size;
  if decide (result = NULL) then mret NULL
  else
    (* Iterate, but don't visit the final element: *)
    argument_types_fill fuel result size 0 head.

(** [VEC_tree_as_PyList].  A [VEC(tree,gc)] is the list of its elements,
    the [NULL] vector being the empty one; [FOR_EACH_VEC_ELT] goes through
    them with the [int] index [i]. *)
Fixpoint VEC_tree_as_PyList_loop (result i : Z) (rest : list Z)
    : M Host Z :=
  match rest with
  | [] => mret result
  | t :: rest =>
      item ← gcc_python_make_wrapper_tree t;
      if decide (item = NULL) then builder_error result
      else
        PyList_SetItem result i item ;;
        i ← int_incr i;
        VEC_tree_as_PyList_loop result i rest
  end.

Definition VEC_tree_as_PyList (vec_nodes : list Z) : M Host Z :=
  result ← PyList_New (Z.of_nat (length vec_nodes));
  if decide (result = NULL) then builder_error result
  else VEC_tree_as_PyList_loop result 0 vec_nodes.

(** [gcc_Constructor_get_elements].  [elts] is
    [CONSTRUCTOR_ELTS (self_as_tree->t)]; [FOR_EACH_CONSTRUCTOR_ELT] goes
    through it with the [unsigned HOST_WIDE_INT] index [cnt], which is
    passed to [PyList_SetItem] as a [Py_ssize_t]. *)
Fixpoint gcc_Constructor_get_elements_loop (result cnt : Z)
    (rest : list constructor_elt) : M Host Z :=
  match rest with
  | [] => mret result
  | elt :: rest =>
      obj_index ← gcc_python_make_wrapper_tree (elt_index elt);
      if decide (obj_index = NULL) then builder_error result
      else
        obj_value ← gcc_python_make_wrapper_tree (elt_value elt);
        if decide (obj_value = NULL) then
          Py_DECREF obj_index ;; builder_error result
        else
          obj_pair ← PyTuple_Pack_2 obj_index obj_value;
          if decide (obj_pair = NULL) then
            Py_DECREF obj_value ;; Py_DECREF obj_index ;;
            builder_error result
          else
            rc ← PyList_SetItem result (cast_long cnt) obj_pair;
            if decide (rc = -1) then
              Py_DECREF obj_pair ;; builder_error result
            else
              gcc_Constructor_get_elements_loop result
                ((cnt + 1) `mod` 2 ^ 64) rest
  end.

Definition gcc_Constructor_get_elements (elts : list constructor_elt)
    : M Host Z :=
  result ← PyList_New (Z.of_nat (length elts));
  if decide (result = NULL) then builder_error result
  else gcc_Constructor_get_elements_loop result 0 elts.
End Chains.

(** ** What is assumed of the host runtime

    [items_at s p] are the items of the list or tuple at [p] in the state
    [s]; [wraps t p] is what is known of the object the wrapper maker
    returns for the tree [t], and [pairs a b p] of the tuple built of [a]
    and [b].  Each function returns; a function that can fail may return
    its failure value in any state. *)
Section HostContract.
Context {Host : Type}.
Variable items_at : Host → Z → option (list Z).

Definition keeps_items (s s' : Host) : Prop :=
  ∀ r l, items_at s r = Some l → items_at s' r = Some l.

Definition wrapper_maker_ok (make : Z → M Host Z) (wraps : Z → Z → Prop)
    : Prop :=
  ∀ t s, ∃ p s', make t s = Done p s' ∧ (p = NULL ∨ wraps t p) ∧
                 keeps_items s s'.

Definition PyList_New_ok (PyList_New : Z → M Host Z) : Prop :=
  ∀ n s, 0 ≤ n →
    ∃ r s', PyList_New n s = Done r s' ∧
            (r = NULL ∨ items_at s' r = Some (replicate (Z.to_nat n) NULL)).

Definition PyList_Append_ok (PyList_Append : Z → Z → M Host Z) : Prop :=
  ∀ r item s l, items_at s r = Some l →
    ∃ rc s', PyList_Append r item s = Done rc s' ∧
             ((rc = -1 ∧ items_at s' r = Some l) ∨
              (rc = 0 ∧ items_at s' r = Some (l ++ [item]))).

Definition PyList_SetItem_ok (PyList_SetItem : Z → Z → Z → M Host Z)
    : Prop :=
  ∀ r i item s l, items_at s r = Some l → 0 ≤ i < Z.of_nat (length l) →
    ∃ s', PyList_SetItem r i item s = Done 0 s' ∧
          items_at s' r = Some (<[Z.to_nat i := item]> l).

Definition PyTuple_New_ok (PyTuple_New : Z → M Host Z) : Prop :=
  ∀ n s, 0 ≤ n →
    ∃ r s', PyTuple_New n s = Done r s' ∧
            (r = NULL ∨ items_at s' r = Some (replicate (Z.to_nat n) NULL)).

Definition PyTuple_SetItem_ok (PyTuple_SetItem : Z → Z → Z → M Host Z)
    : Prop :=
  ∀ r i item s l, items_at s r = Some l → 0 ≤ i < Z.of_nat (length l) →
    ∃ rc s', PyTuple_SetItem r i item s = Done rc s' ∧
             items_at s' r = Some (<[Z.to_nat i := item]> l).

Definition pair_maker_ok (build : Z → Z → M Host Z)
    (pairs : Z → Z → Z → Prop) : Prop :=
  ∀ a b s, ∃ p s', build a b s = Done p s' ∧ (p = NULL ∨ pairs a b p) ∧
                   keeps_items s s'.

Definition Py_DECREF_ok (Py_DECREF : Z → M Host unit) : Prop :=
  ∀ p s, ∃ s', Py_DECREF p s = Done tt s'.
End HostContract.

(** What the builders put in their result for a node of the chain. *)
Definition value_wrapped (trees : tree_memory) (wraps : Z → Z → Prop)
    (node item : Z) : Prop :=
  ∃ nd, trees !! node = Some nd ∧ wraps (node_value nd) item.

Definition pair_wrapped (trees : tree_memory) (wraps : Z → Z → Prop)
    (pairs : Z → Z → Z → Prop) (node item : Z) : Prop :=
  ∃ nd purpose value,
    trees !! node = Some nd ∧ wraps (node_purpose nd) purpose ∧
    wraps (node_value nd) value ∧ pairs purpose value item.

Definition elt_wrapped (wraps : Z → Z → Prop) (pairs : Z → Z → Z → Prop)
    (elt : constructor_elt) (item : Z) : Prop :=
  ∃ obj_index obj_value,
    wraps (elt_index elt) obj_index ∧ wraps (elt_value elt) obj_value ∧
    pairs obj_index obj_value item.

(** An instance of the host runtime for the examples: the state maps the
    address of a list or tuple to its items, a new object is placed at an
    unused address, the wrapper of the tree at [t] is at [t + 1000], and
    the pair of [a] and [b] is numbered [a * 65536 + b]. *)
Definition ex_host : Type := gmap Z (list Z).
Definition ex_items_at (s : ex_host) (p : Z) : option (list Z) := s !! p.
Definition ex_new_address (s : ex_host) : Z := fresh ({[NULL]} ∪ dom s).
Definition ex_make_wrapper_tree (t : Z) : M ex_host Z := mret (t + 1000).
Definition ex_wraps (t p : Z) : Prop := p = t + 1000.
Definition ex_PyList_New (n : Z) : M ex_host Z :=
  λ s, Done (ex_new_address s)
            (<[ex_new_address s := replicate (Z.to_nat n) NULL]> s).
Definition ex_PyTuple_New (n : Z) : M ex_host Z := ex_PyList_New n.
Definition ex_PyList_Append (r item : Z) : M ex_host Z :=
  λ s, match s !! r with
       | Some l => Done 0 (<[r := l ++ [item]]> s)
       | None => Done (-1) s
       end.
Definition ex_PyList_SetItem (r i item : Z) : M ex_host Z :=
  λ s, match s !! r with
       | Some l =>
           if decide (0 ≤ i < Z.of_nat (length l)) then
             Done 0 (<[r := <[Z.to_nat i := item]> l]> s)
           else Done (-1) s
       | None => Done (-1) s
       end.
Definition ex_PyTuple_SetItem (r i item : Z) : M ex_host Z :=
  λ s, match s !! r with
       | Some l => Done 0 (<[r := <[Z.to_nat i := item]> l]> s)
       | None => Done (-1) s
       end.
Definition ex_Py_BuildValue (a b : Z) : M ex_host Z := mret (a * 65536 + b).
Definition ex_pairs (a b p : Z) : Prop := p = a * 65536 + b.
Definition ex_Py_DECREF (p : Z) : M ex_host unit := mret tt.

(** Three list nodes at 300, 310 and 320, chained in this order, and the
    function type at 400 whose argument types they are; the function type
    at 401, whose chain of the two nodes at 330 and 340 ends in
    [error_mark_node], which is at 999; the function type at 402, whose
    chain is [error_mark_node] alone. *)
Definition ex_trees : tree_memory :=
  {[ 300 := mkNode 310 31 30 NULL; 310 := mkNode 320 33 32 NULL;
     320 := mkNode NULL 35 34 NULL; 400 := mkNode NULL NULL NULL 300;
     330 := mkNode 340 NULL 36 NULL; 340 := mkNode 999 NULL 37 NULL;
     401 := mkNode NULL NULL NULL 330; 402 := mkNode NULL NULL NULL 999;
     999 := mkNode NULL NULL NULL NULL ]}.

(** ** Decision procedures, to evaluate the predicates on examples *)

#[global] Instance linked_dec h a b : Decision (linked h a b).
Proof. unfold linked. apply _. Defined.

#[global] Instance tracker_repr_dec h l : Decision (tracker_repr h l).
Proof. unfold tracker_repr. apply _. Defined.

#[global] Instance valid_events_dec evs : ∀ l, Decision (valid_events l evs).
Proof.
  induction evs as [|[obj typeobj gp gn|obj] evs IH]; intros l; simpl; apply _.
Defined.

(** * Proofs *)

(** ** Running the monad *)

Lemma run_bind {S A B} (m : M S A) (k : A → M S B) h a h' :
  m h = Done a h' → (m ≫= k) h = k a h'.
Proof. intros E. unfold mbind, M_bind. by rewrite E. Qed.

Lemma run_bind_assert_fail {S A B} (m : M S A) (k : A → M S B) h c h' :
  m h = AssertFail c h' → (m ≫= k) h = AssertFail c h'.
Proof. intros E. unfold mbind, M_bind. by rewrite E. Qed.

Lemma c_assert_ok {S} (P : Prop) `{Decision P} cond (h : S) :
  P → c_assert (bool_decide P) cond h = Done tt h.
Proof. intros HP. unfold c_assert. by rewrite bool_decide_eq_true_2. Qed.

Lemma c_assert_fail {S} (P : Prop) `{Decision P} cond (h : S) :
  ¬ P → c_assert (bool_decide P) cond h = AssertFail cond h.
Proof. intros HP. unfold c_assert. by rewrite bool_decide_eq_false_2. Qed.

Lemma load_prev_ok h p v : prev_at h p = Some v → load_prev p h = Done v h.
Proof. intros E. unfold load_prev, c_read. by rewrite E. Qed.

Lemma load_next_ok h p v : next_at h p = Some v → load_next p h = Done v h.
Proof. intros E. unfold load_next, c_read. by rewrite E. Qed.

Lemma load_refcnt_ok h p v :
  refcnt_at h p = Some v → load_refcnt p h = Done v h.
Proof. intros E. unfold load_refcnt, c_read. by rewrite E. Qed.

Lemma store_prev_ok h p v :
  is_Some (h !! p) → store_prev p v h = Done tt (alter (set_wr_prev v) p h).
Proof. intros [o E]. unfold store_prev. by rewrite E. Qed.

Lemma store_next_ok h p v :
  is_Some (h !! p) → store_next p v h = Done tt (alter (set_wr_next v) p h).
Proof. intros [o E]. unfold store_next. by rewrite E. Qed.

(** [step E]: run the statement at the head of a sequence, [E] being the
    equation that gives its result. *)
Tactic Notation "step" uconstr(E) := rewrite (run_bind _ _ _ _ _ E).

(** ** Fields after a store *)

Lemma alloc_alter {V} (f : V → V) (h : gmap Z V) p x :
  is_Some (alter f p h !! x) ↔ is_Some (h !! x).
Proof.
  destruct (decide (p = x)) as [->|Hne].
  - rewrite lookup_alter_eq. by rewrite fmap_is_Some.
  - by rewrite lookup_alter_ne.
Qed.

Lemma next_at_is_Some h p : is_Some (next_at h p) ↔ is_Some (h !! p).
Proof. unfold next_at. by rewrite fmap_is_Some. Qed.

Lemma prev_at_is_Some h p : is_Some (prev_at h p) ↔ is_Some (h !! p).
Proof. unfold prev_at. by rewrite fmap_is_Some. Qed.

Lemma next_at_store_next h p v x :
  is_Some (h !! p) →
  next_at (alter (set_wr_next v) p h) x
  = if decide (x = p) then Some v else next_at h x.
Proof.
  intros [o E]. unfold next_at. case_decide as Hx.
  - subst x. by rewrite lookup_alter_eq, E.
  - by rewrite lookup_alter_ne.
Qed.

Lemma prev_at_store_prev h p v x :
  is_Some (h !! p) →
  prev_at (alter (set_wr_prev v) p h) x
  = if decide (x = p) then Some v else prev_at h x.
Proof.
  intros [o E]. unfold prev_at. case_decide as Hx.
  - subst x. by rewrite lookup_alter_eq, E.
  - by rewrite lookup_alter_ne.
Qed.

Lemma field_alter_frame {B} (g : PyGccWrapper → B) f (h : wheap) p x :
  (∀ o, g (f o) = g o) → g <$> alter f p h !! x = g <$> h !! x.
Proof.
  intros Hg. destruct (decide (p = x)) as [->|Hne].
  - rewrite lookup_alter_eq. destruct (h !! x); simpl; [by rewrite Hg | done].
  - by rewrite lookup_alter_ne.
Qed.

Lemma next_at_store_prev h p v x :
  next_at (alter (set_wr_prev v) p h) x = next_at h x.
Proof. by apply field_alter_frame. Qed.

Lemma prev_at_store_next h p v x :
  prev_at (alter (set_wr_next v) p h) x = prev_at h x.
Proof. by apply field_alter_frame. Qed.

Lemma refcnt_at_store_prev h p v x :
  refcnt_at (alter (set_wr_prev v) p h) x = refcnt_at h x.
Proof. by apply field_alter_frame. Qed.

Lemma refcnt_at_store_next h p v x :
  refcnt_at (alter (set_wr_next v) p h) x = refcnt_at h x.
Proof. by apply field_alter_frame. Qed.

Lemma type_at_store_prev h p v x :
  type_at (alter (set_wr_prev v) p h) x = type_at h x.
Proof. by apply field_alter_frame. Qed.

Lemma type_at_store_next h p v x :
  type_at (alter (set_wr_next v) p h) x = type_at h x.
Proof. by apply field_alter_frame. Qed.

(** ** The list structure *)

Lemma sentinel_not_NULL : sentinel ≠ NULL.
Proof. done. Qed.

Lemma Forall2_impl_elem {A B} (P Q : A → B → Prop) (l : list A) (k : list B) :
  Forall2 P l k →
  (∀ x y, x ∈ l → y ∈ k → P x y → Q x y) →
  Forall2 Q l k.
Proof.
  induction 1 as [|x y l k Hxy _ IH]; intros HPQ; constructor.
  - apply HPQ; [left | left | done].
  - apply IH. intros x' y' Hx' Hy'. apply HPQ; by right.
Qed.

(** The node before the sentinel is the last wrapper, or the sentinel itself
    when the list is empty. *)
Lemma tracker_repr_tail h l :
  tracker_repr h l →
  ∃ A a, sentinel :: l = A ++ [a] ∧ Forall2 (linked h) A l ∧
         linked h a sentinel.
Proof.
  intros (_ & _ & HF).
  apply Forall2_app_inv_r in HF as (A & l2 & HA & Hl2 & Heq).
  inversion Hl2 as [|a y l2' k' Ha Hnil]; subst.
  inversion Hnil; subst. by exists A, a.
Qed.

Lemma tracker_repr_head h l :
  tracker_repr h l →
  ∃ b B, l ++ [sentinel] = b :: B ∧ linked h sentinel b.
Proof.
  intros (_ & _ & HF). inversion HF as [|x b l' B Hb HB]; subst.
  by exists b, B.
Qed.

Lemma tracker_repr_alloc h l x :
  tracker_repr h l → x ∈ sentinel :: l → is_Some (h !! x).
Proof.
  intros (_ & _ & HF) Hx.
  assert (Hgen : ∀ L K, Forall2 (linked h) L K → x ∈ L → is_Some (h !! x)).
  { induction 1 as [|a b L K [Hab _] _ IH]; intros Hin.
    - by apply elem_of_nil in Hin.
    - apply elem_of_cons in Hin as [->|Hin]; [|by apply IH].
      apply next_at_is_Some. by rewrite Hab. }
  by apply (Hgen _ _ HF).
Qed.

(** ** [gcc_python_wrapper_track] *)

(** The memory after tracking [obj] behind the tail [a]. *)
Lemma track_run h obj a sn :
  obj ≠ NULL → obj ≠ sentinel → is_Some (h !! obj) →
  next_at h sentinel = Some sn → sn ≠ NULL →
  prev_at h sentinel = Some a → a ≠ NULL →
  next_at h a = Some sentinel →
  gcc_python_wrapper_track obj h
  = Done tt (track_heap obj a h).
Proof.
  intros Hobj Hos Hal Hsn Hsn0 Hsp Ha0 Han.
  assert (Hals : is_Some (h !! sentinel)).
  { apply next_at_is_Some. by rewrite Hsn. }
  assert (Hala : is_Some (h !! a)).
  { apply next_at_is_Some. by rewrite Han. }
  unfold gcc_python_wrapper_track.
  step (c_assert_ok _ _ _ Hobj).
  step (load_next_ok _ _ _ Hsn).
  step (c_assert_ok _ _ _ Hsn0).
  step (load_prev_ok _ _ _ Hsp).
  step (c_assert_ok _ _ _ Ha0).
  step (load_prev_ok _ _ _ Hsp).
  step (load_next_ok _ _ _ Han).
  step (c_assert_ok _ _ _ (eq_refl sentinel)).
  step (load_prev_ok _ _ _ Hsp).
  step (store_next_ok _ _ obj Hala).
  set (h1 := alter (set_wr_next obj) a h).
  assert (Hsp1 : prev_at h1 sentinel = Some a).
  { unfold h1. by rewrite prev_at_store_next. }
  step (load_prev_ok _ _ _ Hsp1).
  assert (Hal1 : is_Some (h1 !! obj)) by by apply alloc_alter.
  step (store_prev_ok _ _ a Hal1).
  set (h2 := alter (set_wr_prev a) obj h1).
  assert (Hal2 : is_Some (h2 !! obj)) by by apply alloc_alter.
  step (store_next_ok _ _ sentinel Hal2).
  set (h3 := alter (set_wr_next sentinel) obj h2).
  assert (Hals3 : is_Some (h3 !! sentinel)) by by do 3 apply alloc_alter.
  step (store_prev_ok _ _ obj Hals3).
  set (h4 := alter (set_wr_prev obj) sentinel h3).
  assert (Hop : prev_at h4 obj = Some a).
  { unfold h4. rewrite prev_at_store_prev by done.
    rewrite decide_False by done.
    unfold h3. rewrite prev_at_store_next.
    unfold h2. rewrite prev_at_store_prev by done. by rewrite decide_True. }
  assert (Hon : next_at h4 obj = Some sentinel).
  { unfold h4. rewrite next_at_store_prev.
    unfold h3. rewrite next_at_store_next by done. by rewrite decide_True. }
  step (load_prev_ok _ _ _ Hop).
  step (c_assert_ok _ _ _ Ha0).
  step (load_next_ok _ _ _ Hon).
  by rewrite (c_assert_ok _ _ _ sentinel_not_NULL).
Qed.

Lemma track_heap_alloc obj a h x :
  is_Some (track_heap obj a h !! x) ↔ is_Some (h !! x).
Proof. unfold track_heap. by rewrite !alloc_alter. Qed.

Lemma track_heap_next obj a h x :
  is_Some (h !! obj) → is_Some (h !! a) →
  next_at (track_heap obj a h) x
  = if decide (x = obj) then Some sentinel
    else if decide (x = a) then Some obj else next_at h x.
Proof.
  intros Ho Ha. unfold track_heap.
  rewrite next_at_store_prev, next_at_store_next by by rewrite !alloc_alter.
  case_decide; [done|].
  by rewrite next_at_store_prev, next_at_store_next.
Qed.

Lemma track_heap_prev obj a h x :
  is_Some (h !! obj) → is_Some (h !! sentinel) →
  prev_at (track_heap obj a h) x
  = if decide (x = sentinel) then Some obj
    else if decide (x = obj) then Some a else prev_at h x.
Proof.
  intros Ho Hs. unfold track_heap.
  rewrite prev_at_store_prev by by rewrite !alloc_alter.
  case_decide; [done|].
  rewrite prev_at_store_next, prev_at_store_prev by by rewrite !alloc_alter.
  case_decide; [done|]. by rewrite prev_at_store_next.
Qed.

Lemma track_heap_type obj a h x :
  type_at (track_heap obj a h) x = type_at h x.
Proof.
  unfold track_heap.
  by rewrite type_at_store_prev, type_at_store_next, type_at_store_prev,
    type_at_store_next.
Qed.

Lemma track_heap_refcnt obj a h x :
  refcnt_at (track_heap obj a h) x = refcnt_at h x.
Proof.
  unfold track_heap.
  by rewrite refcnt_at_store_prev, refcnt_at_store_next, refcnt_at_store_prev,
    refcnt_at_store_next.
Qed.

(** Tracking appends [obj] to the list. *)
Lemma track_repr h l obj :
  tracker_repr h l →
  obj ≠ NULL → obj ∉ sentinel :: l → is_Some (h !! obj) →
  ∃ a, List.last l sentinel = a ∧
       gcc_python_wrapper_track obj h = Done tt (track_heap obj a h) ∧
       tracker_repr (track_heap obj a h) (l ++ [obj]).
Proof.
  intros Hrep Hobj Hfresh Hal.
  destruct (tracker_repr_tail _ _ Hrep) as (A & a & Hsplit & HA & Ha_next & Ha_prev).
  destruct (tracker_repr_head _ _ Hrep) as (b & B & Hhead & Hb_next & _).
  pose proof Hrep as (Hnd & Hnull & _).
  assert (Ha_in : a ∈ sentinel :: l).
  { rewrite Hsplit. apply elem_of_app. right. by left. }
  assert (Hb_in : b ∈ l ++ [sentinel]) by (rewrite Hhead; by left).
  assert (Ha0 : a ≠ NULL).
  { apply elem_of_cons in Ha_in as [->|Hin]; [apply sentinel_not_NULL|].
    by intros ->. }
  assert (Hb0 : b ≠ NULL).
  { apply elem_of_app in Hb_in as [Hin|Hin]; [by intros ->|].
    apply list_elem_of_singleton in Hin as ->. apply sentinel_not_NULL. }
  assert (Hos : obj ≠ sentinel) by (intros ->; apply Hfresh; by left).
  assert (Hoa : obj ≠ a) by (by intros ->).
  assert (Hals : is_Some (h !! sentinel)).
  { eapply tracker_repr_alloc; [done | by left]. }
  assert (Hala : is_Some (h !! a)) by by eapply tracker_repr_alloc.
  assert (Hlast : List.last l sentinel = a).
  { destruct l as [|x l'] using rev_ind.
    - simpl in *. destruct A as [|? [|? ?]]; simpl in Hsplit; congruence.
    - rewrite List.last_last. rewrite app_comm_cons in Hsplit.
      by apply app_inj_tail in Hsplit as [_ ->]. }
  exists a. split; [done|]. split; [by eapply track_run|].
  split; [|split].
  - rewrite app_comm_cons. apply NoDup_app. split; [done|]. split.
    + intros x Hx Hx'. apply list_elem_of_singleton in Hx' as ->. done.
    + apply NoDup_singleton.
  - intros Hin. apply elem_of_app in Hin as [Hin|Hin]; [done|].
    apply list_elem_of_singleton in Hin. done.
  - rewrite app_comm_cons, Hsplit, <- !app_assoc. simpl.
    apply Forall2_app; [|repeat constructor].
    + rewrite Hsplit in Hnd. apply NoDup_app in Hnd as (_ & HAa & _).
      eapply Forall2_impl_elem; [exact HA|].
      intros x y Hx Hy [Hn Hp]. split.
      * rewrite track_heap_next by done.
        rewrite !decide_False; [done | | ].
        -- intros ->. apply (HAa _ Hx). by left.
        -- intros ->. apply Hfresh. rewrite Hsplit. apply elem_of_app. by left.
      * rewrite track_heap_prev by done.
        rewrite !decide_False; [done | | ].
        -- intros ->. apply Hfresh. by right.
        -- intros ->. pose proof Hrep as (Hnd' & _).
           apply NoDup_cons in Hnd' as [Hs _]. done.
    + rewrite track_heap_next by done.
      by rewrite decide_False, decide_True by done.
    + rewrite track_heap_prev by done.
      by rewrite decide_False, decide_True by done.
    + rewrite track_heap_next by done. by rewrite decide_True.
    + rewrite track_heap_prev by done. by rewrite decide_True.
Qed.

(** ** [gcc_python_wrapper_untrack] *)

Lemma untrack_run h obj a b sn sp :
  obj ≠ NULL → refcnt_at h obj = Some 0 →
  next_at h sentinel = Some sn → sn ≠ NULL →
  prev_at h sentinel = Some sp → sp ≠ NULL →
  prev_at h obj = Some a → a ≠ NULL →
  next_at h obj = Some b → b ≠ NULL →
  is_Some (h !! a) → is_Some (h !! b) →
  gcc_python_wrapper_untrack obj h = Done tt (untrack_heap obj a b h).
Proof.
  intros Hobj Hrc Hsn Hsn0 Hsp Hsp0 Hop Ha0 Hon Hb0 Hala Halb.
  assert (Halo : is_Some (h !! obj)).
  { apply next_at_is_Some. by rewrite Hon. }
  unfold gcc_python_wrapper_untrack.
  step (c_assert_ok _ _ _ Hobj).
  step (load_refcnt_ok _ _ _ Hrc).
  step (c_assert_ok _ _ _ (eq_refl 0)).
  step (load_next_ok _ _ _ Hsn).
  step (c_assert_ok _ _ _ Hsn0).
  step (load_prev_ok _ _ _ Hsp).
  step (c_assert_ok _ _ _ Hsp0).
  step (load_prev_ok _ _ _ Hop).
  step (c_assert_ok _ _ _ Ha0).
  step (load_next_ok _ _ _ Hon).
  step (c_assert_ok _ _ _ Hb0).
  step (load_prev_ok _ _ _ Hop).
  step (load_next_ok _ _ _ Hon).
  step (store_next_ok _ _ b Hala).
  set (h1 := alter (set_wr_next b) a h).
  assert (Hon1 : next_at h1 obj = Some b).
  { unfold h1. rewrite next_at_store_next by done. by case_decide. }
  assert (Hop1 : prev_at h1 obj = Some a).
  { unfold h1. by rewrite prev_at_store_next. }
  step (load_next_ok _ _ _ Hon1).
  step (load_prev_ok _ _ _ Hop1).
  assert (Halb1 : is_Some (h1 !! b)) by by apply alloc_alter.
  step (store_prev_ok _ _ a Halb1).
  set (h2 := alter (set_wr_prev a) b h1).
  assert (Halo2 : is_Some (h2 !! obj)) by by do 2 apply alloc_alter.
  step (store_prev_ok _ _ NULL Halo2).
  set (h3 := alter (set_wr_prev NULL) obj h2).
  assert (Halo3 : is_Some (h3 !! obj)) by by apply alloc_alter.
  by rewrite (store_next_ok _ _ NULL Halo3).
Qed.

Lemma untrack_heap_alloc obj a b h x :
  is_Some (untrack_heap obj a b h !! x) ↔ is_Some (h !! x).
Proof. unfold untrack_heap. by rewrite !alloc_alter. Qed.

Lemma untrack_heap_next obj a b h x :
  is_Some (h !! obj) → is_Some (h !! a) →
  next_at (untrack_heap obj a b h) x
  = if decide (x = obj) then Some NULL
    else if decide (x = a) then Some b else next_at h x.
Proof.
  intros Ho Ha. unfold untrack_heap.
  rewrite next_at_store_next by by rewrite !alloc_alter.
  case_decide; [done|].
  by rewrite !next_at_store_prev, next_at_store_next.
Qed.

Lemma untrack_heap_prev obj a b h x :
  is_Some (h !! obj) → is_Some (h !! b) →
  prev_at (untrack_heap obj a b h) x
  = if decide (x = obj) then Some NULL
    else if decide (x = b) then Some a else prev_at h x.
Proof.
  intros Ho Hb. unfold untrack_heap.
  rewrite prev_at_store_next, prev_at_store_prev by by rewrite !alloc_alter.
  case_decide; [done|].
  rewrite prev_at_store_prev by by rewrite !alloc_alter.
  case_decide; [done|]. by rewrite prev_at_store_next.
Qed.

Lemma untrack_heap_type obj a b h x :
  type_at (untrack_heap obj a b h) x = type_at h x.
Proof.
  unfold untrack_heap.
  by rewrite type_at_store_next, !type_at_store_prev, type_at_store_next.
Qed.

Lemma untrack_heap_refcnt obj a b h x :
  refcnt_at (untrack_heap obj a b h) x = refcnt_at h x.
Proof.
  unfold untrack_heap.
  by rewrite refcnt_at_store_next, !refcnt_at_store_prev, refcnt_at_store_next.
Qed.

(** Only [obj] and its two neighbours are written. *)
Lemma untrack_heap_frame obj a b (h : wheap) x :
  x ≠ obj → x ≠ a → x ≠ b → untrack_heap obj a b h !! x = h !! x.
Proof. intros. unfold untrack_heap. by rewrite !lookup_alter_ne. Qed.

Lemma tracker_repr_sentinel h l :
  tracker_repr h l →
  ∃ sn sp, next_at h sentinel = Some sn ∧ sn ≠ NULL ∧
           prev_at h sentinel = Some sp ∧ sp ≠ NULL.
Proof.
  intros Hrep.
  destruct (tracker_repr_tail _ _ Hrep) as (A & t & HA & _ & _ & Ht_prev).
  destruct (tracker_repr_head _ _ Hrep) as (f & B & HB & Hf_next & _).
  destruct Hrep as (_ & Hnull & _).
  exists f, t. repeat split; [done | | done | ].
  - assert (Hin : f ∈ l ++ [sentinel]) by (rewrite HB; by left).
    apply elem_of_app in Hin as [Hin|Hin]; [by intros ->|].
    apply list_elem_of_singleton in Hin as ->. apply sentinel_not_NULL.
  - assert (Hin : t ∈ sentinel :: l).
    { rewrite HA. apply elem_of_app. right. by left. }
    apply elem_of_cons in Hin as [->|Hin]; [apply sentinel_not_NULL|].
    by intros ->.
Qed.

(** Untracking splices [obj] out of the list. *)
Lemma untrack_repr h l1 l2 obj :
  tracker_repr h (l1 ++ obj :: l2) →
  refcnt_at h obj = Some 0 →
  ∃ a b, prev_at h obj = Some a ∧ next_at h obj = Some b ∧
         a = List.last l1 sentinel ∧ b = List.hd sentinel l2 ∧
         gcc_python_wrapper_untrack obj h = Done tt (untrack_heap obj a b h) ∧
         tracker_repr (untrack_heap obj a b h) (l1 ++ l2).
Proof.
  intros Hrep Hrc.
  destruct (tracker_repr_sentinel _ _ Hrep) as (sn & sp & Hsn & Hsn0 & Hsp & Hsp0).
  pose proof Hrep as (Hnd & Hnull & HF).
  (* the neighbours of obj *)
  assert (HA : ∃ A a, sentinel :: l1 = A ++ [a] ∧ a = List.last l1 sentinel).
  { destruct l1 as [|x l1' _] using rev_ind.
    - by exists [], sentinel.
    - exists (sentinel :: l1'), x. by rewrite List.last_last. }
  destruct HA as (A & a & HA & Hlast).
  assert (HB : ∃ b B, l2 ++ [sentinel] = b :: B ∧ b = List.hd sentinel l2).
  { destruct l2 as [|y l2']; [by exists sentinel, [] | by exists y, (l2' ++ [sentinel])]. }
  destruct HB as (b & B & HB & Hhd).
  assert (HX : sentinel :: l1 ++ obj :: l2 = A ++ [a; obj] ++ l2).
  { by rewrite app_comm_cons, HA, <- app_assoc. }
  assert (HY : (l1 ++ obj :: l2) ++ [sentinel] = l1 ++ [obj; b] ++ B).
  { rewrite <- app_assoc. simpl. by rewrite HB. }
  assert (HlenA : length A = length l1).
  { apply (f_equal length) in HA. rewrite length_app in HA. simpl in HA. lia. }
  assert (Hnd2 : NoDup ((l1 ++ obj :: l2) ++ [sentinel])).
  { by rewrite <- Permutation_cons_append. }
  rewrite HX, HY in HF. rewrite HX in Hnd. rewrite HY in Hnd2.
  apply Forall2_app_inv in HF as [HFA HF]; [|done].
  inversion HF as [|? ? ? ? [Ha_next Ho_prev] HF']; subst.
  inversion HF' as [|? ? ? ? [Ho_next Hb_prev] HFB]; subst.
  clear HF HF'.
  set (a := List.last l1 sentinel) in *.
  set (b := List.hd sentinel l2) in *.
  assert (Ha_in : a ∈ sentinel :: l1) by (rewrite HA; set_solver).
  assert (Hb_in : b ∈ l2 ++ [sentinel]) by (rewrite HB; set_solver).
  assert (Ha0 : a ≠ NULL).
  { apply elem_of_cons in Ha_in as [->|Hin]; [apply sentinel_not_NULL|].
    intros E. rewrite E in Hin. apply Hnull. set_solver. }
  assert (Hb0 : b ≠ NULL).
  { apply elem_of_app in Hb_in as [Hin|Hin].
    - intros E. rewrite E in Hin. apply Hnull. set_solver.
    - apply list_elem_of_singleton in Hin as ->. apply sentinel_not_NULL. }
  assert (Hobj0 : obj ≠ NULL) by (intros ->; apply Hnull; set_solver).
  assert (Halo : is_Some (h !! obj)).
  { apply next_at_is_Some. by rewrite Ho_next. }
  assert (Hala : is_Some (h !! a)).
  { apply next_at_is_Some. by rewrite Ha_next. }
  assert (Halb : is_Some (h !! b)).
  { apply prev_at_is_Some. by rewrite Hb_prev. }
  exists a, b. do 4 (split; [done|]).
  split; [by eapply untrack_run|].
  (* what NoDup says about the pieces *)
  apply NoDup_app in Hnd as (HndA & HA_out & Hnd_ao).
  apply NoDup_cons in Hnd_ao as (Ha_out & Hnd_o).
  apply NoDup_cons in Hnd_o as (Ho_l2 & Hnd_l2).
  apply NoDup_app in Hnd2 as (Hnd_l1 & Hl1_out & Hnd_ob).
  apply NoDup_cons in Hnd_ob as (Ho_bB & Hnd_bB).
  apply NoDup_cons in Hnd_bB as (Hb_B & Hnd_B).
  split; [|split].
  - rewrite app_comm_cons, HA, <- app_assoc. apply NoDup_app.
    split; [done|]. split; [set_solver|]. apply NoDup_cons. set_solver.
  - set_solver.
  - replace (sentinel :: l1 ++ l2) with (A ++ [a] ++ l2)
      by (by rewrite app_comm_cons, HA, <- app_assoc).
    replace ((l1 ++ l2) ++ [sentinel]) with (l1 ++ [b] ++ B)
      by (rewrite <- app_assoc; simpl; by rewrite HB).
    apply Forall2_app; [|constructor].
    + eapply Forall2_impl_elem; [exact HFA|].
      intros x y Hx Hy [Hn Hp]. split.
      * rewrite untrack_heap_next by done.
        rewrite !decide_False; [done | set_solver | set_solver].
      * rewrite untrack_heap_prev by done.
        rewrite !decide_False; [done | set_solver | set_solver].
    + split.
      * rewrite untrack_heap_next by done.
        rewrite decide_False by set_solver. by rewrite decide_True.
      * rewrite untrack_heap_prev by done.
        rewrite decide_False by set_solver. by rewrite decide_True.
    + eapply Forall2_impl_elem; [exact HFB|].
      intros x y Hx Hy [Hn Hp]. split.
      * rewrite untrack_heap_next by done.
        rewrite !decide_False; [done | set_solver | set_solver].
      * rewrite untrack_heap_prev by done.
        rewrite !decide_False; [done | set_solver | set_solver].
Qed.

(** ** The root walker *)

Lemma tracker_repr_next_chain h l :
  tracker_repr h l →
  Forall2 (λ a b, next_at h a = Some b) (sentinel :: l) (l ++ [sentinel]).
Proof.
  intros (_ & _ & HF). eapply Forall2_impl; [exact HF|]. by intros a b [? _].
Qed.

(** One turn of the loop at a wrapper whose type has a marking function. *)
Lemma walk_step fuel tys h iter mark next log :
  iter ≠ sentinel →
  marker_of tys h iter = Some mark → mark ≠ NULL →
  next_at h iter = Some next →
  walk (S fuel) tys h iter log = walk fuel tys h next (log ++ [(mark, iter)]).
Proof.
  intros Hne Hmark Hm0 Hnext. simpl. rewrite decide_False by done.
  unfold marker_of in Hmark.
  destruct (type_at h iter) as [ty|] eqn:Hty; [|done]. simpl in Hmark.
  rewrite (run_bind _ _ log ty log) by (unfold c_read; by rewrite ?Hty).
  rewrite (run_bind _ _ log mark log) by (unfold c_read; by rewrite Hmark).
  step (c_assert_ok _ _ _ Hm0).
  rewrite (run_bind _ _ log tt (log ++ [(mark, iter)])) by done.
  by rewrite (run_bind _ _ _ next (log ++ [(mark, iter)]))
    by (unfold c_read; by rewrite Hnext).
Qed.

(** The loop stops with a failed assertion at a wrapper whose type has no
    marking function. *)
Lemma walk_no_mark fuel tys h iter log :
  iter ≠ sentinel →
  marker_of tys h iter = Some NULL →
  walk (S fuel) tys h iter log = AssertFail "wrtp_mark" log.
Proof.
  intros Hne Hmark. simpl. rewrite decide_False by done.
  unfold marker_of in Hmark.
  destruct (type_at h iter) as [ty|] eqn:Hty; [|done]. simpl in Hmark.
  rewrite (run_bind _ _ log ty log) by (unfold c_read; by rewrite ?Hty).
  rewrite (run_bind _ _ log NULL log) by (unfold c_read; by rewrite Hmark).
  by rewrite (run_bind_assert_fail _ _ log "wrtp_mark" log)
    by (by apply c_assert_fail; intros ?).
Qed.

Lemma walk_sentinel fuel tys h log :
  walk (S fuel) tys h sentinel log = Done tt log.
Proof. unfold walk. by case_decide. Qed.

(** Walking along a chain [x → l1 → y] of wrappers that all have a marking
    function: the loop calls each one's function on it, in order, and goes on
    from [y]. *)
Lemma walk_prefix tys h l1 :
  ∀ x y,
    Forall2 (λ a b, next_at h a = Some b) (x :: l1) (l1 ++ [y]) →
    sentinel ∉ l1 →
    (∀ p, p ∈ l1 → ∃ m, marker_of tys h p = Some m ∧ m ≠ NULL) →
    ∃ first calls,
      next_at h x = Some first ∧ calls.*2 = l1 ∧
      Forall (λ c, marker_of tys h c.2 = Some c.1 ∧ c.1 ≠ NULL) calls ∧
      ∀ fuel log,
        walk (length l1 + fuel) tys h first log
        = walk fuel tys h y (log ++ calls).
Proof.
  induction l1 as [|p l1 IH]; intros x y HF Hs Hmarks.
  - apply Forall2_cons in HF as [Hx _]. exists y, []. simpl.
    repeat split; [done | constructor |].
    intros fuel log. by rewrite app_nil_r.
  - simpl in HF. apply Forall2_cons in HF as [Hx HF].
    destruct (IH p y HF) as (first & calls & Hp & Hcalls & Hall & Hwalk).
    { set_solver. }
    { intros q Hq. apply Hmarks. by right. }
    destruct (Hmarks p) as (m & Hm & Hm0); [by left|].
    exists p, ((m, p) :: calls). repeat split.
    + done.
    + rewrite fmap_cons. by f_equal.
    + by constructor.
    + intros fuel log. simpl length. rewrite Nat.add_succ_l.
      rewrite (walk_step _ _ _ _ m first) by (done || set_solver).
      rewrite Hwalk. by rewrite <- app_assoc.
Qed.

(** ** Histories of constructions and destructions *)

Lemma tracker_repr_frame h h' l :
  tracker_repr h l →
  (∀ x, x ∈ sentinel :: l →
        next_at h' x = next_at h x ∧ prev_at h' x = prev_at h x) →
  tracker_repr h' l.
Proof.
  intros (Hnd & Hnull & HF) Hsame. split; [done|]. split; [done|].
  eapply Forall2_impl_elem; [exact HF|].
  intros x y Hx Hy [Hn Hp].
  assert (Hy' : y ∈ sentinel :: l).
  { apply elem_of_app in Hy as [Hy|Hy]; [by right|].
    apply list_elem_of_singleton in Hy as ->. by left. }
  unfold linked.
  destruct (Hsame x Hx) as [-> _]. destruct (Hsame y Hy') as [_ ->]. done.
Qed.

Lemma filter_ne_id (l : list Z) obj :
  obj ∉ l → filter (λ x, x ≠ obj) l = l.
Proof.
  induction l as [|y l IH]; intros Hnin; [done|].
  apply not_elem_of_cons in Hnin as [Hne Hnin].
  rewrite filter_cons_True by done. by rewrite IH.
Qed.

Lemma filter_ne_split (l1 l2 : list Z) obj :
  NoDup (l1 ++ obj :: l2) → filter (λ x, x ≠ obj) (l1 ++ obj :: l2) = l1 ++ l2.
Proof.
  intros Hnd. apply NoDup_app in Hnd as (_ & Hl1 & Hnd).
  apply NoDup_cons in Hnd as (Hl2 & _).
  rewrite filter_app, filter_cons_False by (intros ?; done).
  rewrite !filter_ne_id; [done | done |].
  intros Hin. apply (Hl1 _ Hin). by left.
Qed.

(** A construction appends the new wrapper. *)
Lemma run_EvNew h l obj typeobj gp gn :
  tracker_exact h l →
  obj ≠ NULL → obj ∉ sentinel :: l → typeobj ≠ NULL →
  ∃ h', run_event (EvNew obj typeobj gp gn) h = Done tt h' ∧
        tracker_exact h' (l ++ [obj]) ∧
        type_at h' obj = Some typeobj.
Proof.
  intros [Hrep Hdom] Hobj Hfresh Hty.
  set (h1 := <[obj := mkWrapper 1 typeobj gp gn]> h).
  assert (Hnone : h !! obj = None).
  { apply eq_None_not_Some. by rewrite Hdom. }
  assert (Hrep1 : tracker_repr h1 l).
  { eapply tracker_repr_frame; [exact Hrep|].
    intros x Hx. unfold next_at, prev_at, h1.
    rewrite lookup_insert_ne; [done|]. by intros <-. }
  assert (Hal1 : is_Some (h1 !! obj)).
  { unfold h1. rewrite lookup_insert_eq. by eexists. }
  destruct (track_repr h1 l obj Hrep1 Hobj Hfresh Hal1) as (a & _ & Hrun & Hrep').
  exists (track_heap obj a h1). split; [|split; [split|]].
  - unfold run_event, _PyGccWrapper_New.
    assert (Halloc : alloc_at obj gp gn typeobj h = Done obj h1) by done.
    rewrite (run_bind _ _ h obj (track_heap obj a h1)); [done|].
    step (c_assert_ok _ _ _ Hty).
    step Halloc.
    rewrite decide_False by done.
    by rewrite (run_bind _ _ _ _ _ Hrun).
  - done.
  - intros x. rewrite track_heap_alloc. unfold h1.
    rewrite lookup_insert_is_Some, Hdom. rewrite app_comm_cons, elem_of_app.
    rewrite list_elem_of_singleton.
    destruct (decide (obj = x)) as [->|]; naive_solver.
  - rewrite track_heap_type. unfold type_at, h1. by rewrite lookup_insert_eq.
Qed.

(** A destruction removes the wrapper and frees its memory. *)
Lemma run_EvDrop h l obj :
  tracker_exact h l → obj ∈ l →
  ∃ h', run_event (EvDrop obj) h = Done tt h' ∧
        tracker_exact h' (filter (λ x, x ≠ obj) l) ∧
        h' !! obj = None.
Proof.
  intros [Hrep Hdom] Hin.
  apply list_elem_of_split in Hin as (l1 & l2 & ->).
  pose proof Hrep as (Hnd & Hnull & _).
  assert (Hobj : obj ≠ NULL) by (intros ->; apply Hnull; set_solver).
  assert (Hal : is_Some (h !! obj)) by (apply Hdom; set_solver).
  set (h1 := alter (set_ob_refcnt 0) obj h).
  assert (Hstore : store_refcnt obj 0 h = Done tt h1).
  { unfold store_refcnt. by destruct Hal as [o ->]. }
  assert (Hrep1 : tracker_repr h1 (l1 ++ obj :: l2)).
  { eapply tracker_repr_frame; [exact Hrep|]. intros x _.
    unfold next_at, prev_at, h1. by rewrite !field_alter_frame. }
  assert (Hrc : refcnt_at h1 obj = Some 0).
  { unfold refcnt_at, h1. rewrite lookup_alter_eq.
    by destruct Hal as [o ->]. }
  destruct (untrack_repr h1 l1 l2 obj Hrep1 Hrc)
    as (a & b & _ & _ & _ & _ & Hrun & Hrep2).
  set (h2 := untrack_heap obj a b h1) in *.
  assert (Hal2 : is_Some (h2 !! obj)).
  { unfold h2. rewrite untrack_heap_alloc. unfold h1. by rewrite alloc_alter. }
  assert (Hfree : tp_free obj h2 = Done tt (delete obj h2)).
  { unfold tp_free. by destruct Hal2 as [o ->]. }
  assert (Hnd' : obj ∉ sentinel :: l1 ++ l2).
  { rewrite app_comm_cons in Hnd. apply NoDup_app in Hnd as (_ & Hl1 & Hnd).
    apply NoDup_cons in Hnd as (Hl2 & _).
    rewrite app_comm_cons. intros [Hx|Hx]%elem_of_app; [|done].
    apply (Hl1 _ Hx). by left. }
  exists (delete obj h2). split; [|split; [split|]].
  - unfold run_event, drop_last_reference.
    step Hstore.
    unfold gcc_python_wrapper_dealloc.
    step (c_assert_ok _ _ _ Hobj).
    step (load_refcnt_ok _ _ _ Hrc).
    step (c_assert_ok _ _ _ (eq_refl 0)).
    by rewrite (run_bind _ _ _ _ _ Hrun).
  - apply NoDup_cons in Hnd as [_ Hnd]. rewrite filter_ne_split by done.
    eapply tracker_repr_frame; [exact Hrep2|]. intros x Hx.
    unfold next_at, prev_at. rewrite lookup_delete_ne; [done|].
    by intros <-.
  - apply NoDup_cons in Hnd as [_ Hnd]. rewrite filter_ne_split by done.
    intros x. destruct (decide (x = obj)) as [->|Hne].
    + rewrite lookup_delete_eq. split; [by intros [? ?]|done].
    + rewrite lookup_delete_ne by done. unfold h2.
      rewrite untrack_heap_alloc. unfold h1. rewrite alloc_alter, Hdom.
      rewrite !elem_of_cons, !elem_of_app, elem_of_cons. naive_solver.
  - apply lookup_delete_eq.
Qed.

Lemma run_events_valid evs :
  ∀ h l,
    tracker_exact h l → valid_events l evs →
    ∃ h', run_events evs h = Done tt h' ∧ tracker_exact h' (live_after l evs).
Proof.
  induction evs as [|ev evs IH]; intros h l Hex Hvalid.
  - by exists h.
  - destruct ev as [obj typeobj gp gn|obj]; simpl in Hvalid.
    + destruct Hvalid as (Hobj & Hfresh & Hty & Hvalid).
      destruct (run_EvNew h l obj typeobj gp gn Hex Hobj Hfresh Hty)
        as (h1 & Hrun & Hex1 & _).
      destruct (IH h1 _ Hex1 Hvalid) as (h' & Hrun' & Hex').
      exists h'. split; [|done].
      simpl. by rewrite (run_bind _ _ _ _ _ Hrun).
    + destruct Hvalid as (Hin & Hvalid).
      destruct (run_EvDrop h l obj Hex Hin) as (h1 & Hrun & Hex1 & _).
      destruct (IH h1 _ Hex1 Hvalid) as (h' & Hrun' & Hex').
      exists h'. split; [|done].
      simpl. by rewrite (run_bind _ _ _ _ _ Hrun).
Qed.

Lemma tracked_not_untracked_cons ev evs p :
  tracked_not_untracked (ev :: evs) p ↔
  (∃ typeobj gp gn, ev = EvNew p typeobj gp gn ∧
                    Forall (λ ev, ¬ is_EvDrop p ev) evs) ∨
  tracked_not_untracked evs p.
Proof.
  unfold tracked_not_untracked. split.
  - intros (evs1 & evs2 & ty & gp & gn & Heq & Hno).
    destruct evs1 as [|ev1 evs1]; simpl in Heq; inversion Heq; subst.
    + left. by exists ty, gp, gn.
    + right. by exists evs1, evs2, ty, gp, gn.
  - intros [(ty & gp & gn & -> & Hno)|(evs1 & evs2 & ty & gp & gn & -> & Hno)].
    + by exists [], evs, ty, gp, gn.
    + by exists (ev :: evs1), evs2, ty, gp, gn.
Qed.

Lemma live_after_elem evs :
  ∀ l p,
    p ∈ live_after l evs ↔
    (p ∈ l ∧ Forall (λ ev, ¬ is_EvDrop p ev) evs) ∨
    tracked_not_untracked evs p.
Proof.
  induction evs as [|ev evs IH]; intros l p.
  - simpl. split; [intros ?; left; by split|].
    intros [[? _]|(evs1 & ? & ? & ? & ? & Heq & _)]; [done|].
    by destruct evs1.
  - rewrite tracked_not_untracked_cons, Forall_cons.
    destruct ev as [obj typeobj gp gn|obj]; simpl; rewrite IH.
    + rewrite elem_of_app, list_elem_of_singleton. split.
      * intros [[[Hin| ->] Hno]|Htr].
        -- left. split; [done|]. split; [by intros []|done].
        -- right; left. by exists typeobj, gp, gn.
        -- by right; right.
      * intros [[Hin [_ Hno]]|[(ty & gp' & gn' & Heq & Hno)|Htr]].
        -- left. split; [by left | done].
        -- inversion Heq; subst. left. split; [by right | done].
        -- by right.
    + rewrite list_elem_of_filter. split.
      * intros [[[Hne Hin] Hno]|Htr]; [|by right; right].
        left. split; [done|]. split; [|done]. by intros ->.
      * intros [[Hin [Hne Hno]]|[(ty & gp' & gn' & Heq & _)|Htr]];
          [|done|by right].
        left. split; [|done]. split; [|done]. by intros ->.
Qed.

(** ** Circularity *)

Lemma follow_S f n p : follow f (S n) p = (q ← f p; follow f n q).
Proof. done. Qed.

Lemma follow_snoc f n :
  ∀ p, follow f (S n) p = (q ← follow f n p; f q).
Proof.
  induction n as [|n IH]; intros p.
  - simpl. by destruct (f p); simpl.
  - rewrite (follow_S f (S n)), (follow_S f n p).
    destruct (f p) as [q|]; simpl; [apply IH | done].
Qed.

Lemma follow_next_chain h l :
  ∀ x y,
    Forall2 (λ a b, next_at h a = Some b) (x :: l) (l ++ [y]) →
    follow (next_at h) (S (length l)) x = Some y.
Proof.
  induction l as [|p l IH]; intros x y HF; simpl in HF.
  - apply Forall2_cons in HF as [Hx _]. simpl. by rewrite Hx.
  - apply Forall2_cons in HF as [Hx HF].
    simpl length. rewrite follow_S, Hx. by apply IH.
Qed.

Lemma follow_prev_chain h l :
  ∀ x y,
    Forall2 (λ a b, prev_at h b = Some a) (x :: l) (l ++ [y]) →
    follow (prev_at h) (S (length l)) y = Some x.
Proof.
  induction l as [|p l IH]; intros x y HF; simpl in HF.
  - apply Forall2_cons in HF as [Hx _]. simpl. by rewrite Hx.
  - apply Forall2_cons in HF as [Hx HF].
    simpl length. rewrite follow_snoc, (IH p y HF). done.
Qed.

Lemma tracker_repr_circular h l : tracker_repr h l → circular h l.
Proof.
  intros (_ & _ & HF). split.
  - apply follow_next_chain. eapply Forall2_impl; [exact HF|]. by intros ? ? [? _].
  - apply follow_prev_chain. eapply Forall2_impl; [exact HF|]. by intros ? ? [_ ?].
Qed.

Lemma initial_heap_repr : tracker_exact initial_heap [].
Proof.
  split; [split; [|split]|].
  - apply NoDup_singleton.
  - apply not_elem_of_nil.
  - repeat constructor.
  - intros x. unfold initial_heap. rewrite lookup_singleton_is_Some.
    rewrite list_elem_of_singleton. naive_solver.
Qed.


(** The whole walk over a live list. *)
Lemma walk_live_list tys h l fuel log :
  tracker_repr h l →
  (∀ p, p ∈ l → ∃ m, marker_of tys h p = Some m ∧ m ≠ NULL) →
  (length l < fuel)%nat →
  ∃ calls,
    my_walker fuel tys h log = Done tt (log ++ calls) ∧
    calls.*2 = l ∧
    Forall (λ c, marker_of tys h c.2 = Some c.1 ∧ c.1 ≠ NULL) calls.
Proof.
  intros Hrep Hmarks Hfuel.
  pose proof (tracker_repr_next_chain _ _ Hrep) as Hchain.
  assert (Hs : sentinel ∉ l).
  { destruct Hrep as (Hnd & _). by apply NoDup_cons in Hnd as [? _]. }
  destruct (walk_prefix tys h l sentinel sentinel Hchain Hs Hmarks)
    as (first & calls & Hfirst & Hcalls & Hall & Hwalk).
  exists calls. split; [|by split].
  unfold my_walker.
  rewrite (run_bind _ _ log first log) by (unfold c_read; by rewrite Hfirst).
  replace fuel with (length l + S (fuel - S (length l)))%nat by lia.
  rewrite Hwalk. apply walk_sentinel.
Qed.

(** The walk stops at the first wrapper whose type has no marking function,
    after the calls for the wrappers before it. *)
Lemma walk_live_list_abort tys h l1 p l2 fuel log :
  tracker_repr h (l1 ++ p :: l2) →
  (∀ q, q ∈ l1 → ∃ m, marker_of tys h q = Some m ∧ m ≠ NULL) →
  marker_of tys h p = Some NULL →
  (length l1 < fuel)%nat →
  ∃ calls,
    my_walker fuel tys h log = AssertFail "wrtp_mark" (log ++ calls) ∧
    calls.*2 = l1.
Proof.
  intros Hrep Hmarks Hp Hfuel.
  pose proof (tracker_repr_next_chain _ _ Hrep) as Hchain.
  destruct Hrep as (Hnd & _).
  apply NoDup_cons in Hnd as [Hs _].
  rewrite app_comm_cons in Hchain.
  replace ((l1 ++ p :: l2) ++ [sentinel])
    with ((l1 ++ [p]) ++ l2 ++ [sentinel]) in Hchain
    by (by rewrite <- !app_assoc).
  apply Forall2_app_inv in Hchain as [Hchain _];
    [|rewrite length_app; simpl; lia].
  destruct (walk_prefix tys h l1 sentinel p Hchain) as
    (first & calls & Hfirst & Hcalls & _ & Hwalk); [set_solver | done |].
  exists calls. split; [|done].
  unfold my_walker.
  rewrite (run_bind _ _ log first log) by (unfold c_read; by rewrite Hfirst).
  replace fuel with (length l1 + S (fuel - S (length l1)))%nat by lia.
  rewrite Hwalk. apply walk_no_mark; [|done]. set_solver.
Qed.

Lemma calls_elem (calls : mark_log) (P : Z → Z → Prop) p :
  Forall (λ c, P c.1 c.2) calls → p ∈ calls.*2 →
  ∃ m, (m, p) ∈ calls ∧ P m p.
Proof.
  intros Hall Hin. apply list_elem_of_fmap in Hin as ([m q] & -> & Hin).
  exists m. split; [done|].
  rewrite Forall_forall in Hall. by apply (Hall (m, q)).
Qed.

(** ** The bridge on a small history

    Two wrappers are constructed, the first is destroyed, a third is
    constructed; a root walk then marks the second and the third, in that
    order, with the marking function of their type. *)
Example ex_events_walk :
  ∃ h, run_events ex_events initial_heap = Done tt h ∧
       live_after [] ex_events = [200; 300] ∧
       h !! 100 = None ∧
       my_walker 3 ex_types h [] = Done tt [(9001, 200); (9001, 300)] ∧
       my_walker 2 ex_types h [] = OutOfFuel.
Proof. eexists. split; [by vm_compute|]. by vm_compute. Qed.

Example ex_untrack_live_wrapper :
  gcc_python_wrapper_untrack 100 ex_heap
  = AssertFail "Py_REFCNT(obj) == 0" ex_heap.
Proof. by vm_compute. Qed.

Example ex_untrack_tail :
  ∃ h, gcc_python_wrapper_untrack 200 ex_heap = Done tt h ∧
       next_at h 100 = Some sentinel ∧ prev_at h sentinel = Some 100 ∧
       next_at h 200 = Some NULL ∧ prev_at h 200 = Some NULL.
Proof. eexists. split; [by vm_compute|]. by vm_compute. Qed.

(** * The claims *)

(** C5.  The live list is a circular doubly-linked list anchored at the
    sentinel, which is never one of its wrappers.  At start-up it is empty.
    [gcc_python_wrapper_track] inserts the wrapper at the tail, immediately
    before the sentinel; [gcc_python_wrapper_untrack] splices the wrapper
    out through its own [wr_prev] and [wr_next], writing only the wrapper
    and these two neighbours; both leave a circular list.  After any
    history of constructions and destructions, a wrapper is in the list
    exactly when it has been tracked and not untracked since. *)
Theorem tracker_circular_list_invariant :
  tracker_repr initial_heap [] ∧
  (∀ h l, tracker_repr h l → circular h l ∧ sentinel ∉ l) ∧
  (∀ h l obj,
     tracker_repr h l → obj ≠ NULL → obj ∉ sentinel :: l →
     is_Some (h !! obj) →
     ∃ h', gcc_python_wrapper_track obj h = Done tt h' ∧
           tracker_repr h' (l ++ [obj]) ∧
           next_at h' obj = Some sentinel ∧
           prev_at h' sentinel = Some obj ∧
           prev_at h' obj = Some (List.last l sentinel)) ∧
  (∀ h l1 l2 obj,
     tracker_repr h (l1 ++ obj :: l2) → refcnt_at h obj = Some 0 →
     ∃ a b h',
       prev_at h obj = Some a ∧ next_at h obj = Some b ∧
       gcc_python_wrapper_untrack obj h = Done tt h' ∧
       tracker_repr h' (l1 ++ l2) ∧
       next_at h' a = Some b ∧ prev_at h' b = Some a ∧
       (∀ x, x ≠ obj → x ≠ a → x ≠ b → h' !! x = h !! x)) ∧
  (∀ evs,
     valid_events [] evs →
     ∃ h', run_events evs initial_heap = Done tt h' ∧
           tracker_repr h' (live_after [] evs) ∧
           ∀ p, p ∈ live_after [] evs ↔ tracked_not_untracked evs p).
Proof.
  split; [apply initial_heap_repr|]. split; [|split; [|split]].
  - intros h l Hrep. split; [by apply tracker_repr_circular|].
    destruct Hrep as (Hnd & _). by apply NoDup_cons in Hnd as [? _].
  - intros h l obj Hrep Hobj Hfresh Hal.
    destruct (track_repr h l obj Hrep Hobj Hfresh Hal) as (a & Ha & Hrun & Hrep').
    assert (Hals : is_Some (h !! sentinel)).
    { eapply tracker_repr_alloc; [done | by left]. }
    assert (Hos : obj ≠ sentinel) by (intros ->; apply Hfresh; by left).
    assert (Hala : is_Some (h !! a)).
    { destruct (tracker_repr_tail _ _ Hrep) as (A & a' & HA & _ & Hn & _).
      assert (a' = a) as ->.
      { rewrite <- Ha. destruct l as [|x l' _] using rev_ind.
        - destruct A as [|? [|? ?]]; simpl in *; congruence.
        - rewrite List.last_last. rewrite app_comm_cons in HA.
          by apply app_inj_tail in HA as [_ ->]. }
      apply next_at_is_Some. by rewrite Hn. }
    exists (track_heap obj a h). split; [done|]. split; [done|].
    rewrite track_heap_next, !track_heap_prev by done.
    rewrite !decide_True by done. rewrite decide_False by done.
    rewrite decide_True by done. by rewrite Ha.
  - intros h l1 l2 obj Hrep Hrc.
    destruct (untrack_repr h l1 l2 obj Hrep Hrc)
      as (a & b & Hp & Hn & Ha & Hb & Hrun & Hrep').
    assert (Halo : is_Some (h !! obj)).
    { apply next_at_is_Some. by rewrite Hn. }
    assert (Hin : ∀ x, x ∈ sentinel :: l1 ++ obj :: l2 → is_Some (h !! x)).
    { intros x Hx. by eapply tracker_repr_alloc. }
    destruct Hrep as (Hnd & _ & _).
    assert (Ha_in : a ∈ sentinel :: l1).
    { rewrite Ha. destruct l1 as [|x l1' _] using rev_ind; [by left|].
      rewrite List.last_last. set_solver. }
    assert (Hb_in : b ∈ l2 ++ [sentinel]).
    { rewrite Hb. destruct l2; simpl; set_solver. }
    assert (Hao : a ≠ obj).
    { intros ->. rewrite app_comm_cons in Hnd.
      apply NoDup_app in Hnd as (_ & Hd & _). apply (Hd _ Ha_in). by left. }
    assert (Hbo : b ≠ obj).
    { intros ->. apply NoDup_cons in Hnd as [Hs Hnd].
      apply NoDup_app in Hnd as (_ & _ & Hnd).
      apply NoDup_cons in Hnd as [Hl2 _].
      apply elem_of_app in Hb_in as [?|Hsn]; [done|].
      apply list_elem_of_singleton in Hsn as ->. apply Hs. set_solver. }
    exists a, b, (untrack_heap obj a b h). do 4 (split; [done|]).
    split; [|split].
    + rewrite untrack_heap_next; [|done|apply Hin; set_solver].
      rewrite decide_False by done. by rewrite decide_True.
    + rewrite untrack_heap_prev; [|done|apply Hin; set_solver].
      rewrite decide_False by done. by rewrite decide_True.
    + intros x ? ? ?. by apply untrack_heap_frame.
  - intros evs Hvalid.
    destruct (run_events_valid evs _ _ initial_heap_repr Hvalid)
      as (h' & Hrun & Hrep & _).
    exists h'. split; [done|]. split; [done|].
    intros p. rewrite live_after_elem. split; [|by right].
    intros [[Hin _]|?]; [|done]. by apply elem_of_nil in Hin.
Qed.

Lemma tracker_circular_list_invariant_witness :
  valid_events [] ex_events ∧
  ∃ h', run_events ex_events initial_heap = Done tt h' ∧
        tracker_repr h' (live_after [] ex_events) ∧
        ∀ p, p ∈ live_after [] ex_events ↔ tracked_not_untracked ex_events p.
Proof.
  split.
  - apply (bool_decide_unpack _). vm_compute. exact I.
  - apply (proj2 (proj2 (proj2 (proj2 tracker_circular_list_invariant)))).
    apply (bool_decide_unpack _). vm_compute. exact I.
Defined.

(** C6.  [gcc_python_wrapper_untrack] asserts that the reference count of
    the wrapper is zero: on a wrapper whose count is not zero it stops at
    the failed assertion [Py_REFCNT(obj) == 0] with the memory as it was,
    and so does [gcc_python_wrapper_dealloc]; whenever it completes, the
    count was zero. *)
Theorem untrack_requires_zero_refcount h obj :
  obj ≠ NULL → is_Some (h !! obj) →
  (refcnt_at h obj ≠ Some 0 →
   gcc_python_wrapper_untrack obj h = AssertFail "Py_REFCNT(obj) == 0" h ∧
   gcc_python_wrapper_dealloc obj h = AssertFail "Py_REFCNT(obj) == 0" h) ∧
  (∀ h', gcc_python_wrapper_untrack obj h = Done tt h' →
         refcnt_at h obj = Some 0).
Proof.
  intros Hobj [o Ho].
  assert (Hrc : refcnt_at h obj = Some (ob_refcnt o)).
  { unfold refcnt_at. by rewrite Ho. }
  assert (Hfail : refcnt_at h obj ≠ Some 0 →
    gcc_python_wrapper_untrack obj h = AssertFail "Py_REFCNT(obj) == 0" h).
  { intros Hne. unfold gcc_python_wrapper_untrack.
    step (c_assert_ok _ _ _ Hobj).
    step (load_refcnt_ok _ _ _ Hrc).
    apply run_bind_assert_fail, c_assert_fail. intros E. apply Hne.
    by rewrite Hrc, E. }
  split.
  - intros Hne. split; [by apply Hfail|].
    unfold gcc_python_wrapper_dealloc.
    step (c_assert_ok _ _ _ Hobj).
    step (load_refcnt_ok _ _ _ Hrc).
    apply run_bind_assert_fail, c_assert_fail. intros E. apply Hne.
    by rewrite Hrc, E.
  - intros h' Hdone.
    destruct (decide (refcnt_at h obj = Some 0)) as [|Hne]; [done|].
    rewrite (Hfail Hne) in Hdone. discriminate.
Qed.

Lemma untrack_requires_zero_refcount_witness :
  gcc_python_wrapper_untrack 100 ex_heap
  = AssertFail "Py_REFCNT(obj) == 0" ex_heap ∧
  gcc_python_wrapper_dealloc 100 ex_heap
  = AssertFail "Py_REFCNT(obj) == 0" ex_heap.
Proof.
  apply (untrack_requires_zero_refcount ex_heap 100).
  - discriminate.
  - vm_compute. eexists. reflexivity.
  - vm_compute. discriminate.
Defined.

(** C1.  On a live list [l] whose wrappers all have a type with a marking
    function, [my_walker] runs to completion (given room for one turn of
    the loop per wrapper and the final test) and calls, for each wrapper of
    [l] from head to tail and for nothing else, the marking function of the
    wrapper's type on the wrapper: every wrapper is passed once, in list
    order, and the sentinel is never passed. *)
Theorem my_walker_marks_every_live_wrapper tys h l fuel log :
  tracker_repr h l →
  (∀ p, p ∈ l → ∃ m, marker_of tys h p = Some m ∧ m ≠ NULL) →
  (length l < fuel)%nat →
  ∃ calls,
    my_walker fuel tys h log = Done tt (log ++ calls) ∧
    calls.*2 = l ∧
    Forall (λ c, marker_of tys h c.2 = Some c.1 ∧ c.1 ≠ NULL) calls ∧
    sentinel ∉ calls.*2.
Proof.
  intros Hrep Hmarks Hfuel.
  destruct (walk_live_list tys h l fuel log Hrep Hmarks Hfuel)
    as (calls & Hrun & Hcalls & Hall).
  exists calls. do 3 (split; [done|]). rewrite Hcalls.
  destruct Hrep as (Hnd & _). by apply NoDup_cons in Hnd as [? _].
Qed.

Lemma my_walker_marks_every_live_wrapper_witness :
  tracker_repr ex_heap [100; 200] ∧
  ∃ calls,
    my_walker 3 ex_types ex_heap [] = Done tt ([] ++ calls) ∧
    calls.*2 = [100; 200] ∧
    Forall (λ c, marker_of ex_types ex_heap c.2 = Some c.1 ∧ c.1 ≠ NULL)
      calls ∧
    sentinel ∉ calls.*2.
Proof.
  assert (Hrep : tracker_repr ex_heap [100; 200]).
  { apply (bool_decide_unpack _). vm_compute. exact I. }
  split; [exact Hrep|].
  apply (my_walker_marks_every_live_wrapper ex_types ex_heap [100; 200] 3 []).
  - exact Hrep.
  - intros p Hp. exists 9001.
    apply elem_of_cons in Hp as [->|Hp]; [by vm_compute|].
    apply list_elem_of_singleton in Hp as ->. by vm_compute.
  - simpl. lia.
Defined.

(** ** The metatype *)

Lemma mark_at_store_mark (tys : theap) ty v x :
  is_Some (tys !! ty) →
  mark_at (alter (set_wrtp_mark v) ty tys) x
  = if decide (x = ty) then Some v else mark_at tys x.
Proof.
  intros [o E]. unfold mark_at. case_decide as Hx.
  - subst x. by rewrite lookup_alter_eq, E.
  - by rewrite lookup_alter_ne.
Qed.

Lemma base_at_store_mark (tys : theap) ty v x :
  base_at (alter (set_wrtp_mark v) ty tys) x = base_at tys x.
Proof.
  unfold base_at. destruct (decide (ty = x)) as [->|Hne].
  - rewrite lookup_alter_eq. by destruct (tys !! x).
  - by rewrite lookup_alter_ne.
Qed.

Section MetatypeProofs.
Context {PyArgs : Type}.
Variable sizeof_PyGccWrapperTypeObject : Z.
Variable PyType_Type_tp_new : Z → PyArgs → PyArgs → M theap Z.

Lemma meta_tp_new_run type args kwds tys new_type tys1 metatype size base mark :
  PyType_Type_tp_new type args kwds tys = Done new_type tys1 →
  new_type ≠ NULL →
  metatype_at tys1 new_type = Some metatype →
  basicsize_at tys1 metatype = Some size →
  sizeof_PyGccWrapperTypeObject ≤ size →
  base_at tys1 new_type = Some base →
  mark_at tys1 base = Some mark →
  gcc_python_wrapper_meta_tp_new sizeof_PyGccWrapperTypeObject
    PyType_Type_tp_new type args kwds tys
  = Done new_type (alter (set_wrtp_mark mark) new_type tys1).
Proof.
  intros Hnew Hnn Hmeta Hsize Hle Hbase Hmark.
  assert (Hal : is_Some (tys1 !! new_type)).
  { unfold base_at in Hbase. destruct (tys1 !! new_type); [by eexists|done]. }
  unfold gcc_python_wrapper_meta_tp_new.
  rewrite (run_bind _ _ _ _ _ Hnew). rewrite decide_False by done.
  rewrite (run_bind _ _ tys1 metatype tys1)
    by (unfold c_read; by rewrite Hmeta).
  rewrite (run_bind _ _ tys1 size tys1) by (unfold c_read; by rewrite Hsize).
  step (c_assert_ok _ _ _ Hle).
  rewrite (run_bind _ _ tys1 base tys1) by (unfold c_read; by rewrite Hbase).
  rewrite (run_bind _ _ tys1 mark tys1) by (unfold c_read; by rewrite Hmark).
  rewrite (run_bind _ _ tys1 tt (alter (set_wrtp_mark mark) new_type tys1));
    [done|].
  unfold store_wrtp_mark. by destruct Hal as [o ->].
Qed.

(** C3.  When the host's type constructor has built the subtype,
    [gcc_python_wrapper_meta_tp_new] returns it with its [wrtp_mark] equal to
    that of its [tp_base], whatever the field held before, and touches no
    other type object.  The value is copied, once: a later store into the
    parent's field does not reach the subtype.  A wrapper of the new type
    met by a later root walk is then passed to the parent's marking
    function. *)
Theorem subtype_inherits_wrtp_mark
    type args kwds tys new_type tys1 metatype size base mark :
  PyType_Type_tp_new type args kwds tys = Done new_type tys1 →
  new_type ≠ NULL →
  metatype_at tys1 new_type = Some metatype →
  basicsize_at tys1 metatype = Some size →
  sizeof_PyGccWrapperTypeObject ≤ size →
  base_at tys1 new_type = Some base →
  mark_at tys1 base = Some mark →
  ∃ tys2,
    gcc_python_wrapper_meta_tp_new sizeof_PyGccWrapperTypeObject
      PyType_Type_tp_new type args kwds tys = Done new_type tys2 ∧
    base_at tys2 new_type = Some base ∧
    mark_at tys2 new_type = Some mark ∧
    mark_at tys2 base = Some mark ∧
    (∀ ty, ty ≠ new_type → tys2 !! ty = tys1 !! ty) ∧
    (base ≠ new_type →
     ∀ v, mark_at (alter (set_wrtp_mark v) base tys2) new_type = Some mark) ∧
    (mark ≠ NULL →
     ∀ h l p fuel log,
       tracker_repr h l → p ∈ l → type_at h p = Some new_type →
       (∀ q, q ∈ l → q ≠ p → ∃ m, marker_of tys2 h q = Some m ∧ m ≠ NULL) →
       (length l < fuel)%nat →
       ∃ calls, my_walker fuel tys2 h log = Done tt (log ++ calls) ∧
                (mark, p) ∈ calls).
Proof.
  intros Hnew Hnn Hmeta Hsize Hle Hbase Hmark.
  assert (Hal : is_Some (tys1 !! new_type)).
  { unfold base_at in Hbase. destruct (tys1 !! new_type); [by eexists|done]. }
  exists (alter (set_wrtp_mark mark) new_type tys1).
  assert (Hm2 : mark_at (alter (set_wrtp_mark mark) new_type tys1) new_type
                = Some mark).
  { rewrite mark_at_store_mark by done. by rewrite decide_True. }
  split; [by eapply meta_tp_new_run|].
  split; [by rewrite base_at_store_mark|]. split; [done|].
  split; [|split; [|split]].
  - rewrite mark_at_store_mark by done. by case_decide.
  - intros ty Hne. by rewrite lookup_alter_ne.
  - intros Hne v. unfold mark_at in *. by rewrite lookup_alter_ne.
  - intros Hm0 h l p fuel log Hrep Hin Hty Hothers Hfuel.
    assert (Hp : marker_of (alter (set_wrtp_mark mark) new_type tys1) h p
                 = Some mark).
    { unfold marker_of. rewrite Hty. simpl. done. }
    destruct (walk_live_list (alter (set_wrtp_mark mark) new_type tys1)
                h l fuel log Hrep) as (calls & Hrun & Hcalls & Hall);
      [|done|].
    { intros q Hq. destruct (decide (q = p)) as [->|Hne]; [by exists mark|].
      by apply Hothers. }
    exists calls. split; [done|].
    destruct (calls_elem calls
                (λ m q, marker_of (alter (set_wrtp_mark mark) new_type tys1)
                           h q = Some m ∧ m ≠ NULL) p Hall)
      as (m & Hm_in & Hm_eq & _); [by rewrite Hcalls|].
    rewrite Hp in Hm_eq. by inversion Hm_eq; subst.
Qed.

(** C8, as the code has it.  A parent without a marking function does not
    stop the creation of a subtype: [gcc_python_wrapper_meta_tp_new] returns
    the new type normally, its [wrtp_mark] being [NULL] like its parent's.
    The assertion on the marking function is in the root walker: the first
    walk that reaches a wrapper of such a type stops at the failed
    [assert(wrtp_mark)], after the calls for the wrappers before it. *)
Theorem unmarked_parent_asserts_in_walker
    type args kwds tys new_type tys1 metatype size base :
  PyType_Type_tp_new type args kwds tys = Done new_type tys1 →
  new_type ≠ NULL →
  metatype_at tys1 new_type = Some metatype →
  basicsize_at tys1 metatype = Some size →
  sizeof_PyGccWrapperTypeObject ≤ size →
  base_at tys1 new_type = Some base →
  mark_at tys1 base = Some NULL →
  ∃ tys2,
    gcc_python_wrapper_meta_tp_new sizeof_PyGccWrapperTypeObject
      PyType_Type_tp_new type args kwds tys = Done new_type tys2 ∧
    mark_at tys2 new_type = Some NULL ∧
    ∀ h l1 p l2 fuel log,
      tracker_repr h (l1 ++ p :: l2) → type_at h p = Some new_type →
      (∀ q, q ∈ l1 → ∃ m, marker_of tys2 h q = Some m ∧ m ≠ NULL) →
      (length l1 < fuel)%nat →
      ∃ calls,
        my_walker fuel tys2 h log = AssertFail "wrtp_mark" (log ++ calls) ∧
        calls.*2 = l1.
Proof.
  intros Hnew Hnn Hmeta Hsize Hle Hbase Hmark.
  assert (Hal : is_Some (tys1 !! new_type)).
  { unfold base_at in Hbase. destruct (tys1 !! new_type); [by eexists|done]. }
  exists (alter (set_wrtp_mark NULL) new_type tys1).
  assert (Hm2 : mark_at (alter (set_wrtp_mark NULL) new_type tys1) new_type
                = Some NULL).
  { rewrite mark_at_store_mark by done. by rewrite decide_True. }
  split; [by eapply meta_tp_new_run|]. split; [done|].
  intros h l1 p l2 fuel log Hrep Hty Hmarks Hfuel.
  apply walk_live_list_abort with (p := p) (l2 := l2); try done.
  unfold marker_of. by rewrite Hty.
Qed.
End MetatypeProofs.

Lemma subtype_inherits_wrtp_mark_witness :
  ∃ tys2,
    gcc_python_wrapper_meta_tp_new 416 ex_tp_new ex_meta ex_tree_type 0
      ex_types = Done ex_new_type tys2 ∧
    base_at tys2 ex_new_type = Some ex_tree_type ∧
    mark_at tys2 ex_new_type = Some 9001 ∧
    mark_at tys2 ex_tree_type = Some 9001 ∧
    (∀ ty, ty ≠ ex_new_type →
           tys2 !! ty
           = (<[ex_new_type := mkType "MyWrapper" ex_meta 24 ex_tree_type NULL]>
                ex_types) !! ty) ∧
    (ex_tree_type ≠ ex_new_type →
     ∀ v, mark_at (alter (set_wrtp_mark v) ex_tree_type tys2) ex_new_type
          = Some 9001) ∧
    (9001 ≠ NULL →
     ∀ h l p fuel log,
       tracker_repr h l → p ∈ l → type_at h p = Some ex_new_type →
       (∀ q, q ∈ l → q ≠ p → ∃ m, marker_of tys2 h q = Some m ∧ m ≠ NULL) →
       (length l < fuel)%nat →
       ∃ calls, my_walker fuel tys2 h log = Done tt (log ++ calls) ∧
                (9001, p) ∈ calls).
Proof.
  apply (subtype_inherits_wrtp_mark 416 ex_tp_new ex_meta ex_tree_type 0
           ex_types ex_new_type
           (<[ex_new_type := mkType "MyWrapper" ex_meta 24 ex_tree_type NULL]>
              ex_types)
           ex_meta 416 ex_tree_type 9001).
  - reflexivity.
  - discriminate.
  - by vm_compute.
  - by vm_compute.
  - lia.
  - by vm_compute.
  - by vm_compute.
Defined.

(** C8, as the claim states it, fails: here the parent type at 7100 has no
    marking function, and the creation of a subtype of it returns the new
    type, itself without a marking function, with no assertion failing. *)
Lemma subtype_of_unmarked_parent_is_created :
  mark_at ex_types ex_bare_type = Some NULL ∧
  ∃ tys2,
    gcc_python_wrapper_meta_tp_new 416 ex_tp_new ex_meta ex_bare_type 0
      ex_types = Done ex_new_type tys2 ∧
    base_at tys2 ex_new_type = Some ex_bare_type ∧
    mark_at tys2 ex_new_type = Some NULL ∧
    ∀ cond tys', gcc_python_wrapper_meta_tp_new 416 ex_tp_new ex_meta
                   ex_bare_type 0 ex_types ≠ AssertFail cond tys'.
Proof.
  split; [by vm_compute|].
  eexists. split; [by vm_compute|]. split; [by vm_compute|].
  split; [by vm_compute|]. intros cond tys'. by vm_compute.
Qed.

Lemma unmarked_parent_asserts_in_walker_witness :
  ∃ tys2,
    gcc_python_wrapper_meta_tp_new 416 ex_tp_new ex_meta ex_bare_type 0
      ex_types = Done ex_new_type tys2 ∧
    mark_at tys2 ex_new_type = Some NULL ∧
    ∃ calls,
      my_walker 5 tys2 ex_heap_sub [] = AssertFail "wrtp_mark" ([] ++ calls) ∧
      calls.*2 = [].
Proof.
  destruct (unmarked_parent_asserts_in_walker 416 ex_tp_new ex_meta
              ex_bare_type 0 ex_types ex_new_type
              (<[ex_new_type := mkType "MyWrapper" ex_meta 24 ex_bare_type NULL]>
                 ex_types)
              ex_meta 416 ex_bare_type)
    as (tys2 & Hrun & Hmark & Hwalk).
  - reflexivity.
  - discriminate.
  - by vm_compute.
  - by vm_compute.
  - lia.
  - by vm_compute.
  - by vm_compute.
  - exists tys2. split; [exact Hrun|]. split; [exact Hmark|].
    apply (Hwalk ex_heap_sub [] 100 [] 5%nat []).
    + apply (bool_decide_unpack _). vm_compute. exact I.
    + by vm_compute.
    + intros q Hq. by apply elem_of_nil in Hq.
    + simpl. lia.
Defined.

(** ** Forcing a collection *)

(** C10.  Whatever [ggc_collect] does, after [force_gcc_gc] the flag
    [ggc_force_collect] holds the value it held before the call; the
    collection itself ran with the flag set, and the rest of the collector's
    state is what that collection left.  The same holds of
    [gcc_python__force_garbage_collection], which returns [Py_None]. *)
Theorem force_gcc_gc_restores_flag {GGC : Type}
    (ggc_collect : gcc_state GGC → gcc_state GGC)
    (g : gcc_state GGC) (Py_None_addr none_refcnt : Z) :
  ggc_force_collect (force_gcc_gc ggc_collect g) = ggc_force_collect g ∧
  ggc_heap (force_gcc_gc ggc_collect g)
  = ggc_heap (ggc_collect (mkGcc true (ggc_heap g))) ∧
  ggc_force_collect
    (gcc_python__force_garbage_collection ggc_collect Py_None_addr
       (g, none_refcnt)).2.1
  = ggc_force_collect g ∧
  (gcc_python__force_garbage_collection ggc_collect Py_None_addr
     (g, none_refcnt)).1 = Py_None_addr.
Proof. done. Qed.

(** ** Hash and comparison of tree wrappers *)

Lemma cast_long_inj p q :
  0 ≤ p < 2 ^ 64 → 0 ≤ q < 2 ^ 64 → cast_long p = cast_long q → p = q.
Proof.
  unfold cast_long. intros Hp Hq Heq.
  assert (Hmod : (p + 2 ^ 63) `mod` 2 ^ 64 = (q + 2 ^ 63) `mod` 2 ^ 64) by lia.
  destruct (decide (p < 2 ^ 63)), (decide (q < 2 ^ 63)).
  - rewrite !Z.mod_small in Hmod by lia. lia.
  - rewrite (Z.mod_small (p + _)) in Hmod by lia.
    replace (q + 2 ^ 63) with ((q - 2 ^ 63) + 1 * 2 ^ 64) in Hmod by lia.
    rewrite Z.mod_add, Z.mod_small in Hmod by lia. lia.
  - rewrite (Z.mod_small (q + _)) in Hmod by lia.
    replace (p + 2 ^ 63) with ((p - 2 ^ 63) + 1 * 2 ^ 64) in Hmod by lia.
    rewrite Z.mod_add, Z.mod_small in Hmod by lia. lia.
  - replace (q + 2 ^ 63) with ((q - 2 ^ 63) + 1 * 2 ^ 64) in Hmod by lia.
    replace (p + 2 ^ 63) with ((p - 2 ^ 63) + 1 * 2 ^ 64) in Hmod by lia.
    rewrite !Z.mod_add, !Z.mod_small in Hmod by lia. lia.
Qed.

Section CompareProofs.
Variable PyType_IsSubtype : Z → Z → bool.
Variable gcc_TreeType : Z.

Local Abbreviation is_tree o := (PyObject_TypeCheck PyType_IsSubtype o gcc_TreeType).
Local Abbreviation richcompare := (gcc_Tree_richcompare PyType_IsSubtype gcc_TreeType).

Lemma richcompare_trees w1 w2 op :
  is_tree (Tree_object w1) = true → is_tree (Tree_object w2) = true →
  richcompare (Tree_object w1) (Tree_object w2) op
  = if decide (op = Py_EQ) then
      Some (if bool_decide (tree_t w1 = tree_t w2) then Py_True else Py_False)
    else if decide (op = Py_NE) then
      Some (if bool_decide (tree_t w1 ≠ tree_t w2) then Py_True else Py_False)
    else Some Py_NotImplemented.
Proof.
  intros H1 H2. unfold gcc_Tree_richcompare. by rewrite H1, H2.
Qed.

(** C4.  For two tree wrappers, [gcc_Tree_richcompare] answers [Py_EQ] with
    [Py_True] exactly when the wrapped handles are equal and with [Py_False]
    otherwise, and [Py_NE] the other way round; wrappers of equal handles
    have equal hashes; replacing either wrapper by another object that
    wraps the same handle (other address, other reference count, other tree
    type) changes neither answer; and against an object that is not a tree
    wrapper, on either side and for every operator, the answer is
    [Py_NotImplemented], never [Py_True]. *)
Theorem tree_wrappers_compare_by_handle w1 w2 :
  is_tree (Tree_object w1) = true → is_tree (Tree_object w2) = true →
  (richcompare (Tree_object w1) (Tree_object w2) Py_EQ = Some Py_True
   ↔ tree_t w1 = tree_t w2) ∧
  (richcompare (Tree_object w1) (Tree_object w2) Py_EQ = Some Py_False
   ↔ tree_t w1 ≠ tree_t w2) ∧
  (richcompare (Tree_object w1) (Tree_object w2) Py_NE = Some Py_False
   ↔ tree_t w1 = tree_t w2) ∧
  (richcompare (Tree_object w1) (Tree_object w2) Py_NE = Some Py_True
   ↔ tree_t w1 ≠ tree_t w2) ∧
  (tree_t w1 = tree_t w2 → gcc_Tree_hash w1 = gcc_Tree_hash w2) ∧
  (∀ w1' w2' op,
     is_tree (Tree_object w1') = true → is_tree (Tree_object w2') = true →
     tree_t w1' = tree_t w1 → tree_t w2' = tree_t w2 →
     richcompare (Tree_object w1') (Tree_object w2') op
     = richcompare (Tree_object w1) (Tree_object w2) op ∧
     gcc_Tree_hash w1' = gcc_Tree_hash w1) ∧
  (∀ o op,
     is_tree o = false →
     richcompare (Tree_object w1) o op = Some Py_NotImplemented ∧
     richcompare o (Tree_object w1) op = Some Py_NotImplemented).
Proof.
  intros H1 H2.
  pose proof (richcompare_trees w1 w2 Py_EQ H1 H2) as HEQ.
  pose proof (richcompare_trees w1 w2 Py_NE H1 H2) as HNE.
  rewrite decide_True in HEQ by done.
  rewrite decide_False, decide_True in HNE by done.
  rewrite HEQ, HNE.
  split; [|split; [|split; [|split; [|split; [|split]]]]].
  - split; intros E.
    + case_bool_decide; [done|discriminate].
    + by rewrite bool_decide_eq_true_2.
  - split; intros E.
    + case_bool_decide; [discriminate|done].
    + by rewrite bool_decide_eq_false_2.
  - split; intros E.
    + case_bool_decide as Hc; [discriminate|].
      destruct (decide (tree_t w1 = tree_t w2)); [done|]. by destruct Hc.
    + rewrite bool_decide_eq_false_2; [done|]. by intros ?.
  - split; intros E.
    + case_bool_decide; [done|discriminate].
    + by rewrite bool_decide_eq_true_2.
  - intros E. unfold gcc_Tree_hash. by rewrite E.
  - intros w1' w2' op H1' H2' E1 E2. split.
    + rewrite !richcompare_trees by done. by rewrite E1, E2.
    + unfold gcc_Tree_hash. by rewrite E1.
  - intros o op Ho. unfold gcc_Tree_richcompare. split.
    + by rewrite H1, Ho.
    + by rewrite Ho.
Qed.
End CompareProofs.

(** Example subtype test: the type at 7001 derives from the one at 7000. *)
Lemma tree_wrappers_compare_by_handle_witness :
  let sub := λ a b : Z, bool_decide (a = 7001 ∧ b = 7000) in
  let w1 := mkTree 1 7000 48879 in
  let w2 := mkTree 3 7001 48879 in
  (gcc_Tree_richcompare sub 7000 (Tree_object w1) (Tree_object w2) Py_EQ
   = Some Py_True ↔ tree_t w1 = tree_t w2) ∧
  (tree_t w1 = tree_t w2 → gcc_Tree_hash w1 = gcc_Tree_hash w2) ∧
  gcc_Tree_richcompare sub 7000 (Tree_object w1) (Other_object 1 5000) Py_EQ
  = Some Py_NotImplemented.
Proof.
  intros sub w1 w2.
  destruct (tree_wrappers_compare_by_handle sub 7000 w1 w2)
    as (HEQ & _ & _ & _ & Hhash & _ & Hother); [reflexivity | reflexivity |].
  split; [exact HEQ|]. split; [exact Hhash|].
  apply (Hother (Other_object 1 5000) Py_EQ). reflexivity.
Defined.

(** ** The repr of declarations *)

(** [format_u] writes the decimal numeral of its argument. *)
Lemma format_u_decimal n :
  N.of_uint <$> NilZero.uint_of_string (format_u n) = Some n.
Proof.
  unfold format_u. rewrite NilZero.usu.
  - simpl. by rewrite DecimalN.Unsigned.of_to.
  - destruct n as [|p]; [done|]. apply DecimalPos.Unsigned.to_uint_nonnil.
Qed.

(** C9, as the code has it.  A declaration with a name is rendered as the
    type name followed by the name between [('] and [')]; an anonymous
    declaration is rendered as the type name followed by the uid in decimal
    between [(] and [)], with no [#] before it. *)
Theorem declaration_repr_format type_name decl_name decl_uid get_name :
  (decl_name ≠ NULL →
   ∀ name, get_name = Some name →
     gcc_Declaration_repr type_name decl_name decl_uid get_name
     = Some (type_name +:+ "('" +:+ name +:+ "')")) ∧
  (decl_name = NULL →
   gcc_Declaration_repr type_name decl_name decl_uid get_name
   = Some (type_name +:+ "(" +:+ format_u decl_uid +:+ ")") ∧
   N.of_uint <$> NilZero.uint_of_string (format_u decl_uid) = Some decl_uid).
Proof.
  unfold gcc_Declaration_repr. split.
  - intros Hname name ->. by rewrite decide_True.
  - intros ->. rewrite decide_False by (by intros ?). split; [done|].
    apply format_u_decimal.
Qed.

Lemma declaration_repr_format_witness :
  gcc_Declaration_repr "gcc.VarDecl" 51966 42 (Some "counter")
  = Some "gcc.VarDecl('counter')" ∧
  gcc_Declaration_repr "gcc.VarDecl" NULL 42 None = Some "gcc.VarDecl(42)".
Proof.
  split.
  - exact (proj1 (declaration_repr_format "gcc.VarDecl" 51966 42
                    (Some "counter"))
             ltac:(discriminate) "counter" eq_refl).
  - exact (proj1 (proj2 (declaration_repr_format "gcc.VarDecl" NULL 42 None)
                    eq_refl)).
Defined.

(** C9, as the claim states it, fails for anonymous declarations: the
    declaration with uid 42 is rendered without the [#]. *)
Lemma anonymous_declaration_repr_has_no_hash :
  gcc_Declaration_repr "gcc.VarDecl" NULL 42 None = Some "gcc.VarDecl(42)" ∧
  spec_anonymous_repr "gcc.VarDecl" 42 = "gcc.VarDecl(#42)" ∧
  gcc_Declaration_repr "gcc.VarDecl" NULL 42 None
  ≠ Some (spec_anonymous_repr "gcc.VarDecl" 42).
Proof. split; [done|]. split; [done|]. by vm_compute. Qed.

(** ** Construction of tree wrappers *)

(** C7.  For the [NULL] tree, [real_make_tree_wrapper] returns [Py_None],
    which is not the [NULL] of an error, having taken one more reference to
    it; no wrapper is allocated and the cache is left alone. *)
Theorem null_tree_wraps_to_None
    (type_for_tree : Z → Z → Z) (PyObject_New : Z → M pystate Z) s :
  ∃ s',
    real_make_tree_wrapper type_for_tree PyObject_New NULL s
    = Done Py_None s' ∧
    Py_None ≠ NULL ∧
    py_trees s' = py_trees s ∧
    tree_wrapper_cache s' = tree_wrapper_cache s ∧
    py_none_refcnt s' = py_none_refcnt s + 1.
Proof.
  eexists. split.
  - unfold real_make_tree_wrapper. case_decide; [reflexivity | done].
  - done.
Qed.

Lemma run_bind_Done_inv {S A B} (m : M S A) (k : A → M S B) s b s' :
  (m ≫= k) s = Done b s' → ∃ a s1, m s = Done a s1 ∧ k a s1 = Done b s'.
Proof.
  unfold mbind, M_bind. destruct (m s) as [a s1| | |]; [|done..].
  intros Hk. by exists a, s1.
Qed.

Section MakeWrapperProofs.
Variable type_for_tree : Z → Z → Z.
Variable PyObject_New : Z → M pystate Z.
Hypothesis PyObject_New_ok : allocator_ok PyObject_New.

Local Abbreviation make_wrapper :=
  (gcc_python_make_wrapper_tree type_for_tree PyObject_New).

(** What a completed call did. *)
Lemma make_wrapper_cases s t r s' :
  make_wrapper t s = Done r s' →
  (t = NULL ∧ r = Py_None ∧ py_trees s' = py_trees s ∧
   tree_wrapper_cache s' = tree_wrapper_cache s) ∨
  (t ≠ NULL ∧ tree_wrapper_cache s !! t = Some r ∧
   is_Some (py_trees s !! r) ∧
   (∀ x, is_Some (py_trees s' !! x) ↔ is_Some (py_trees s !! x)) ∧
   tree_wrapper_cache s' = tree_wrapper_cache s) ∨
  (t ≠ NULL ∧ tree_wrapper_cache s !! t = None ∧ r = NULL ∧ s' = s) ∨
  (t ≠ NULL ∧ tree_wrapper_cache s !! t = None ∧ r ≠ NULL ∧
   py_trees s !! r = None ∧
   (∀ x, is_Some (py_trees s' !! x) ↔ x = r ∨ is_Some (py_trees s !! x)) ∧
   tree_wrapper_cache s' = <[t := r]> (tree_wrapper_cache s)).
Proof.
  unfold gcc_python_make_wrapper_tree, gcc_python_lazily_create_wrapper.
  destruct (decide (t = NULL)) as [->|Ht].
  { intros [= <- <-]. left. done. }
  intros Hrun. right.
  apply run_bind_Done_inv in Hrun as (old & s0 & Hlook & Hrun).
  unfold cache_lookup in Hlook. injection Hlook as <- <-.
  destruct (tree_wrapper_cache s !! t) as [q|] eqn:Hc.
  - (* hit *)
    left. apply run_bind_Done_inv in Hrun as ([] & s1 & Hinc & Hret).
    injection Hret as <- <-. unfold Py_INCREF in Hinc.
    destruct (py_trees s !! q) as [w|] eqn:Hq; [|done].
    injection Hinc as <-. simpl. repeat split; try done.
    + by rewrite alloc_alter.
    + by rewrite alloc_alter.
  - (* miss *)
    right. apply run_bind_Done_inv in Hrun as (new & s1 & Hctor & Hrun).
    unfold real_make_tree_wrapper in Hctor.
    rewrite decide_False in Hctor by (by intros ?).
    apply run_bind_Done_inv in Hctor as ([] & s2 & Hassert & Hctor).
    unfold c_assert in Hassert. case_bool_decide; [|done].
    injection Hassert as <-.
    apply run_bind_Done_inv in Hctor as (obj & s3 & Hnew & Hctor).
    destruct (PyObject_New_ok (type_for_tree t 1) s)
      as [Hfail|(p & garbage & Hp & Hfresh & Hok)].
    + rewrite Hfail in Hnew. injection Hnew as <- <-.
      rewrite decide_True in Hctor by done. injection Hctor as <- <-.
      rewrite decide_True in Hrun by done. injection Hrun as <- <-.
      left. done.
    + rewrite Hok in Hnew. injection Hnew as <- <-.
      rewrite decide_False in Hctor by done.
      apply run_bind_Done_inv in Hctor as ([] & s4 & Hstore & Hret).
      injection Hret as <- <-. unfold store_tree_t in Hstore. simpl in Hstore.
      rewrite lookup_insert_eq in Hstore. injection Hstore as <-.
      rewrite decide_False in Hrun by done.
      apply run_bind_Done_inv in Hrun as ([] & s5 & Hcs & Hret).
      injection Hret as <- <-. unfold cache_store in Hcs.
      injection Hcs as <-. simpl. right. repeat split; try done.
      * rewrite alloc_alter, lookup_insert_is_Some.
        intros [?|[_ ?]]; [by left | by right].
      * rewrite alloc_alter, lookup_insert_is_Some.
        intros [->|Hx]; [by left|].
        destruct (decide (p = x)); [by left | by right].
Qed.
(** A hit returns the cached proxy and leaves the cache entry in place. *)
Lemma make_wrapper_hit s t p :
  t ≠ NULL → cached s t p →
  ∃ s', make_wrapper t s = Done p s' ∧ cached s' t p.
Proof.
  intros Ht [Hc [w Hw]].
  unfold gcc_python_make_wrapper_tree, gcc_python_lazily_create_wrapper.
  rewrite decide_False by done.
  rewrite (run_bind _ _ s (Some p) s) by (unfold cache_lookup; by rewrite Hc).
  eexists. split.
  - erewrite run_bind; [reflexivity|]. unfold Py_INCREF. by rewrite Hw.
  - split; [done|]. simpl. rewrite alloc_alter. by eexists.
Qed.

(** A call that returns a proxy leaves the cache leading to it. *)
Lemma make_wrapper_establishes s t p s' :
  t ≠ NULL → p ≠ NULL → make_wrapper t s = Done p s' → cached s' t p.
Proof.
  intros Ht Hp Hrun.
  destruct (make_wrapper_cases _ _ _ _ Hrun)
    as [(? & _)|[(_ & Hc & Hal & Hdom & Hcs)|[(_ & _ & ? & _)|
        (_ & _ & _ & _ & Hdom & Hcs)]]]; [done| |done|].
  - split; [by rewrite Hcs | by apply Hdom].
  - split; [by rewrite Hcs, lookup_insert_eq | apply Hdom; by left].
Qed.

(** Requests for any handle keep the entry of a live proxy. *)
Lemma make_wrapper_preserves s t p t' r s' :
  cached s t p → make_wrapper t' s = Done r s' → cached s' t p.
Proof.
  intros [Hc Hal] Hrun.
  destruct (make_wrapper_cases _ _ _ _ Hrun)
    as [(_ & _ & Htr & Hcs)|[(_ & _ & _ & Hdom & Hcs)|[(_ & _ & _ & ->)|
        (_ & Hnone & _ & _ & Hdom & Hcs)]]].
  - split; [by rewrite Hcs | by rewrite Htr].
  - split; [by rewrite Hcs | by apply Hdom].
  - done.
  - split; [|apply Hdom; by right].
    rewrite Hcs, lookup_insert_ne; [done|]. intros ->. congruence.
Qed.

(** The destruction of another proxy keeps it too. *)
Lemma destroy_proxy_preserves s t p q s' :
  q ≠ p → cached s t p → destroy_proxy q s = Done tt s' → cached s' t p.
Proof.
  intros Hne [Hc Hal] Hrun. unfold destroy_proxy in Hrun.
  destruct (py_trees s !! q) as [w|]; [|done]. injection Hrun as <-.
  split; simpl.
  - case_decide as Hq; [|done].
    rewrite lookup_delete_ne; [done|]. intros E. rewrite E in Hq. congruence.
  - by rewrite lookup_delete_ne.
Qed.

Lemma run_host_events_preserves evs :
  ∀ s t p s',
    Forall (λ ev, ev ≠ HostDestroy p) evs →
    cached s t p →
    run_host_events type_for_tree PyObject_New evs s = Done tt s' →
    cached s' t p.
Proof.
  induction evs as [|ev evs IH]; intros s t p s' Hno Hc Hrun.
  - by injection Hrun as <-.
  - apply Forall_cons in Hno as [Hev Hno]. simpl in Hrun.
    apply run_bind_Done_inv in Hrun as ([] & s1 & Hstep & Hrun).
    apply (IH s1 t p s' Hno); [|done].
    destruct ev as [t'|q]; simpl in Hstep.
    + apply run_bind_Done_inv in Hstep as (r & s2 & Hget & Hret).
      injection Hret as <-. by eapply make_wrapper_preserves.
    + eapply destroy_proxy_preserves; [|done|done]. by intros ->.
Qed.

(** C2.  Once [gcc_python_make_wrapper_tree] has returned a proxy for a
    handle that is not [NULL], every later call for that handle returns the
    same proxy, whatever the host does in between (requests for any handle,
    destruction of other proxies), as long as that proxy is not destroyed. *)
Theorem cached_wrapper_is_unique t s p s1 evs s2 :
  t ≠ NULL →
  make_wrapper t s = Done p s1 → p ≠ NULL →
  Forall (λ ev, ev ≠ HostDestroy p) evs →
  run_host_events type_for_tree PyObject_New evs s1 = Done tt s2 →
  ∃ s3, make_wrapper t s2 = Done p s3.
Proof.
  intros Ht Hfirst Hp Hno Hrun.
  pose proof (make_wrapper_establishes _ _ _ _ Ht Hp Hfirst) as Hc1.
  pose proof (run_host_events_preserves _ _ _ _ _ Hno Hc1 Hrun) as Hc2.
  destruct (make_wrapper_hit _ _ _ Ht Hc2) as (s3 & Hget & _).
  by exists s3.
Qed.
End MakeWrapperProofs.

Lemma ex_fresh_spec (trees : gmap Z PyGccTree) :
  16 ≤ ex_fresh trees ∧ ∀ p, is_Some (trees !! p) → p < ex_fresh trees.
Proof.
  unfold ex_fresh.
  apply (map_fold_weak_ind
           (λ r (m : gmap Z PyGccTree),
              16 ≤ r ∧ ∀ p, is_Some (m !! p) → p < r)).
  - split; [done|]. intros p [? Hp]. by rewrite lookup_empty in Hp.
  - intros i x m r _ [Hr Hlt]. split; [lia|].
    intros p. rewrite lookup_insert_is_Some.
    intros [<-|[_ Hp]]; [lia|]. specialize (Hlt p Hp). lia.
Qed.

Lemma ex_PyObject_New_ok : allocator_ok ex_PyObject_New.
Proof.
  intros tp s. right. exists (ex_fresh (py_trees s)), 0.
  destruct (ex_fresh_spec (py_trees s)) as [Hge Hlt].
  split; [unfold NULL; lia|]. split; [|done].
  apply eq_None_not_Some. intros Hin. specialize (Hlt _ Hin). lia.
Qed.

Lemma cached_wrapper_is_unique_witness :
  let get := gcc_python_make_wrapper_tree ex_type_for_tree ex_PyObject_New in
  let evs := [HostGet 48879; HostGet 51966; HostDestroy 17; HostGet 48879] in
  ∃ s1 s2 s3,
    get 48879 ex_pystate = Done 16 s1 ∧
    run_host_events ex_type_for_tree ex_PyObject_New evs s1 = Done tt s2 ∧
    get 48879 s2 = Done 16 s3.
Proof.
  intros get evs.
  destruct (get 48879 ex_pystate) as [p s1| | |] eqn:Hfirst;
    [|by vm_compute in Hfirst..].
  assert (Hp : p = 16) by (vm_compute in Hfirst; congruence). subst p.
  destruct (run_host_events ex_type_for_tree ex_PyObject_New evs s1)
    as [[] s2| | |] eqn:Hrun.
  2-4: assert (Hs1 : Done (S := pystate) 16 s1 = get 48879 ex_pystate) by done;
       vm_compute in Hs1; injection Hs1 as ->; by vm_compute in Hrun.
  destruct (cached_wrapper_is_unique ex_type_for_tree ex_PyObject_New
              ex_PyObject_New_ok 48879 ex_pystate 16 s1 evs s2)
    as (s3 & Hagain); [discriminate | exact Hfirst | discriminate | | exact Hrun |].
  - repeat constructor; discriminate.
  - by exists s1, s2, s3.
Defined.

(** * Further properties of the bridge *)

(** ** Reading a completed run backwards *)

Lemma run_bind_AssertFail_inv {S A B} (m : M S A) (k : A → M S B) s c s' :
  (m ≫= k) s = AssertFail c s' →
  m s = AssertFail c s' ∨ ∃ a s1, m s = Done a s1 ∧ k a s1 = AssertFail c s'.
Proof.
  unfold mbind, M_bind. destruct (m s) as [a s1|c1 s1| |]; intros Hk.
  - right. by exists a, s1.
  - left. by injection Hk as -> ->.
  - discriminate.
  - discriminate.
Qed.

Lemma c_assert_Done {S} b cond (s : S) x s' :
  c_assert b cond s = Done x s' → b = true ∧ s' = s.
Proof. unfold c_assert. destruct b; [|done]. by intros [= _ <-]. Qed.

Lemma c_read_Done {S A} (f : S → option A) s v s' :
  c_read f s = Done v s' → f s = Some v ∧ s' = s.
Proof. unfold c_read. destruct (f s); [|done]. by intros [= <- <-]. Qed.

Lemma store_next_Done h p v x h' :
  store_next p v h = Done x h' →
  is_Some (h !! p) ∧ h' = alter (set_wr_next v) p h.
Proof.
  unfold store_next. destruct (h !! p) eqn:E; [|done]. by intros [= _ <-].
Qed.

Lemma store_prev_Done h p v x h' :
  store_prev p v h = Done x h' →
  is_Some (h !! p) ∧ h' = alter (set_wr_prev v) p h.
Proof.
  unfold store_prev. destruct (h !! p) eqn:E; [|done]. by intros [= _ <-].
Qed.

Ltac inv_assert H Hb :=
  let s1 := fresh "s" in
  apply run_bind_Done_inv in H as ([] & s1 & Hb & H);
  apply c_assert_Done in Hb as [Hb ->];
  apply bool_decide_eq_true in Hb.

Ltac inv_load H v Hv :=
  let s1 := fresh "s" in
  apply run_bind_Done_inv in H as (v & s1 & Hv & H);
  unfold load_prev, load_next, load_refcnt in Hv;
  apply c_read_Done in Hv as [Hv ->].

(** What a completed [gcc_python_wrapper_untrack] found and did. *)
Lemma untrack_Done_inv obj h h' :
  gcc_python_wrapper_untrack obj h = Done tt h' →
  ∃ a b s_next s_prev,
    obj ≠ NULL ∧ refcnt_at h obj = Some 0 ∧
    next_at h sentinel = Some s_next ∧ s_next ≠ NULL ∧
    prev_at h sentinel = Some s_prev ∧ s_prev ≠ NULL ∧
    prev_at h obj = Some a ∧ a ≠ NULL ∧
    next_at h obj = Some b ∧ b ≠ NULL ∧
    is_Some (h !! a) ∧ is_Some (h !! b) ∧
    h' = untrack_heap obj a b h.
Proof.
  intros H. unfold gcc_python_wrapper_untrack in H.
  inv_assert H Hobj. inv_load H rc Hrc. inv_assert H Hrc0. subst rc.
  inv_load H s_next Hsn. inv_assert H Hsn0.
  inv_load H s_prev Hsp. inv_assert H Hsp0.
  inv_load H a Ha. inv_assert H Ha0.
  inv_load H b Hb. inv_assert H Hb0.
  inv_load H a' Ha'. inv_load H b' Hb'.
  assert (a' = a) as -> by congruence. assert (b' = b) as -> by congruence.
  apply run_bind_Done_inv in H as ([] & h1 & Hst1 & H).
  apply store_next_Done in Hst1 as [Hala ->].
  inv_load H b2 Hb2. inv_load H a2 Ha2.
  rewrite prev_at_store_next in Ha2.
  rewrite next_at_store_next in Hb2 by done.
  assert (a2 = a) as -> by congruence.
  assert (b2 = b) as -> by (case_decide; congruence).
  apply run_bind_Done_inv in H as ([] & h2 & Hst2 & H).
  apply store_prev_Done in Hst2 as [Halb ->].
  apply run_bind_Done_inv in H as ([] & h3 & Hst3 & H).
  apply store_prev_Done in Hst3 as [_ ->].
  apply store_next_Done in H as [_ ->].
  exists a, b, s_next, s_prev. rewrite alloc_alter in Halb. by repeat split.
Qed.

(** What a completed [gcc_python_wrapper_track] found and did. *)
Lemma track_Done_inv obj h h' :
  gcc_python_wrapper_track obj h = Done tt h' →
  ∃ a s_next,
    obj ≠ NULL ∧
    next_at h sentinel = Some s_next ∧ s_next ≠ NULL ∧
    prev_at h sentinel = Some a ∧ a ≠ NULL ∧
    next_at h a = Some sentinel ∧
    is_Some (h !! obj) ∧
    h' = track_heap obj a h.
Proof.
  intros H. unfold gcc_python_wrapper_track in H.
  inv_assert H Hobj. inv_load H s_next Hsn. inv_assert H Hsn0.
  inv_load H a Ha. inv_assert H Ha0.
  inv_load H a' Ha'. assert (a' = a) as -> by congruence.
  inv_load H an Han. inv_assert H Han0. subst an.
  inv_load H a' Ha2. assert (a' = a) as -> by congruence.
  apply run_bind_Done_inv in H as ([] & h1 & Hst1 & H).
  apply store_next_Done in Hst1 as [Hala ->].
  inv_load H a' Ha3. rewrite prev_at_store_next in Ha3.
  assert (a' = a) as -> by congruence.
  apply run_bind_Done_inv in H as ([] & h2 & Hst2 & H).
  apply store_prev_Done in Hst2 as [Halo ->].
  apply run_bind_Done_inv in H as ([] & h3 & Hst3 & H).
  apply store_next_Done in Hst3 as [_ ->].
  apply run_bind_Done_inv in H as ([] & h4 & Hst4 & H).
  apply store_prev_Done in Hst4 as [_ ->].
  inv_load H o_prev Hop. inv_assert H Hop0. inv_load H o_next Hon.
  apply c_assert_Done in H as [_ ->].
  exists a, s_next. rewrite alloc_alter in Halo. by repeat split.
Qed.

Lemma dealloc_Done_inv obj h h' :
  gcc_python_wrapper_dealloc obj h = Done tt h' →
  ∃ h1, gcc_python_wrapper_untrack obj h = Done tt h1 ∧ h' = delete obj h1.
Proof.
  intros H. unfold gcc_python_wrapper_dealloc in H.
  inv_assert H Hobj. inv_load H rc Hrc. inv_assert H Hrc0.
  apply run_bind_Done_inv in H as ([] & h1 & Hun & H).
  exists h1. split; [done|]. unfold tp_free in H.
  destruct (h1 !! obj); [|done]. by injection H as <-.
Qed.

Lemma track_heap_same_objects obj a h : same_objects h (track_heap obj a h).
Proof.
  intros x. split; [apply track_heap_type|].
  split; [apply track_heap_refcnt | apply track_heap_alloc].
Qed.

Lemma untrack_heap_same_objects obj a b h :
  same_objects h (untrack_heap obj a b h).
Proof.
  intros x. split; [apply untrack_heap_type|].
  split; [apply untrack_heap_refcnt | apply untrack_heap_alloc].
Qed.

(** ** What the list operations leave alone *)

(** X1.  On any memory at all, a [gcc_python_wrapper_track] or
    [gcc_python_wrapper_untrack] that returns has written links only: every
    object is still there, with the type and the reference count it had,
    and no object was added.  A [gcc_python_wrapper_dealloc] that returns
    has released the object it was given and kept the others likewise. *)
Theorem list_operations_keep_objects obj h h' :
  (gcc_python_wrapper_track obj h = Done tt h' → same_objects h h') ∧
  (gcc_python_wrapper_untrack obj h = Done tt h' → same_objects h h') ∧
  (gcc_python_wrapper_dealloc obj h = Done tt h' →
   h' !! obj = None ∧ is_Some (h !! obj) ∧
   ∀ x, x ≠ obj →
        type_at h' x = type_at h x ∧ refcnt_at h' x = refcnt_at h x ∧
        (is_Some (h' !! x) ↔ is_Some (h !! x))).
Proof.
  split; [|split].
  - intros H. apply track_Done_inv in H as (a & s1 & _ & _ & _ & _ & _ & _ & _ & ->).
    apply track_heap_same_objects.
  - intros H.
    apply untrack_Done_inv in H
      as (a & b & s1 & s2 & _ & _ & _ & _ & _ & _ & _ & _ & _ & _ & _ & _ & ->).
    apply untrack_heap_same_objects.
  - intros H. apply dealloc_Done_inv in H as (h1 & Hun & ->).
    apply untrack_Done_inv in Hun
      as (a & b & s1 & s2 & _ & _ & _ & _ & _ & _ & _ & _ & Hn & _ & _ & _ & ->).
    split; [apply lookup_delete_eq|]. split.
    { apply next_at_is_Some. by rewrite Hn. }
    intros x Hx. unfold type_at, refcnt_at. rewrite lookup_delete_ne by done.
    apply (untrack_heap_same_objects obj a b h x).
Qed.

Lemma list_operations_keep_objects_witness :
  same_objects ex_heap (untrack_heap 200 100 sentinel ex_heap) ∧
  delete 200 (untrack_heap 200 100 sentinel ex_heap) !! 200 = None.
Proof.
  destruct (list_operations_keep_objects 200 ex_heap
              (untrack_heap 200 100 sentinel ex_heap)) as (_ & Hun & _).
  destruct (list_operations_keep_objects 200 ex_heap
              (delete 200 (untrack_heap 200 100 sentinel ex_heap)))
    as (_ & _ & Hde).
  split.
  - apply Hun. by vm_compute.
  - apply Hde. by vm_compute.
Defined.

(** ** Assertions and partial updates *)

Lemma quiet_assert {S} b cond : quiet (c_assert (S := S) b cond).
Proof. intros s. unfold c_assert. by destruct b. Qed.

Lemma quiet_read {S A} (f : S → option A) : quiet (c_read f).
Proof. intros s. unfold c_read. by destruct (f s). Qed.

Lemma never_asserts_read {S A} (f : S → option A) : never_asserts (c_read f).
Proof. intros s c s'. unfold c_read. by destruct (f s). Qed.

Lemma never_asserts_store_next p v : never_asserts (store_next p v).
Proof. intros h c h'. unfold store_next. by destruct (h !! p). Qed.

Lemma never_asserts_store_prev p v : never_asserts (store_prev p v).
Proof. intros h c h'. unfold store_prev. by destruct (h !! p). Qed.

Lemma never_asserts_tp_free p : never_asserts (tp_free p).
Proof. intros h c h'. unfold tp_free. by destruct (h !! p). Qed.

Lemma never_asserts_bind {S A B} (m : M S A) (k : A → M S B) :
  never_asserts m → (∀ a, never_asserts (k a)) → never_asserts (m ≫= k).
Proof.
  intros Hm Hk s c s' H.
  apply run_bind_AssertFail_inv in H as [H|(a & s1 & _ & H)].
  - by apply Hm in H.
  - by apply Hk in H.
Qed.

Lemma never_asserts_leaves_state {S A} (m : M S A) :
  never_asserts m → assert_leaves_state m.
Proof. intros Hm s c s' H. by apply Hm in H. Qed.

Lemma quiet_bind_leaves_state {S A B} (m : M S A) (k : A → M S B) :
  quiet m → (∀ a, assert_leaves_state (k a)) → assert_leaves_state (m ≫= k).
Proof.
  intros Hm Hk s c s' H. specialize (Hm s).
  apply run_bind_AssertFail_inv in H as [H|(a & s1 & Hd & H)].
  - by rewrite H in Hm.
  - rewrite Hd in Hm. subst s1. by apply Hk in H.
Qed.

Lemma leaves_state_then_never {S A B} (m : M S A) (k : A → M S B) :
  assert_leaves_state m → (∀ a, never_asserts (k a)) →
  assert_leaves_state (m ≫= k).
Proof.
  intros Hm Hk s c s' H.
  apply run_bind_AssertFail_inv in H as [H|(a & s1 & _ & H)].
  - by apply Hm in H.
  - by apply Hk in H.
Qed.

Ltac quiet_prefix :=
  repeat (apply quiet_bind_leaves_state;
          [first [apply quiet_assert | apply quiet_read] | intros ?]).

Ltac never_asserts_tail :=
  repeat first
    [ apply never_asserts_store_next | apply never_asserts_store_prev
    | apply never_asserts_read | apply never_asserts_tp_free
    | apply never_asserts_bind; [|intros ?] ].

Lemma untrack_assert_leaves_state obj :
  assert_leaves_state (gcc_python_wrapper_untrack obj).
Proof.
  unfold gcc_python_wrapper_untrack, load_prev, load_next, load_refcnt.
  quiet_prefix. apply never_asserts_leaves_state. never_asserts_tail.
Qed.

Lemma c_assert_AssertFail {S} b cond (s : S) c s' :
  c_assert b cond s = AssertFail c s' → b = false ∧ c = cond ∧ s' = s.
Proof. unfold c_assert. destruct b; [done|]. by intros [= <- <-]. Qed.

Ltac fail_assert H Hb :=
  let s1 := fresh "s" in
  apply run_bind_AssertFail_inv in H as [H|([] & s1 & Hb & H)];
  [ by apply c_assert_AssertFail in H as (_ & _ & ->)
  | apply c_assert_Done in Hb as [Hb ->];
    apply bool_decide_eq_true in Hb ].

Ltac fail_load H v Hv :=
  let s1 := fresh "s" in
  apply run_bind_AssertFail_inv in H as [H|(v & s1 & Hv & H)];
  [ by apply never_asserts_read in H
  | apply c_read_Done in Hv as [Hv ->] ].

(** The two assertions that close [gcc_python_wrapper_track] cannot fail
    once the four before the stores have passed. *)
Lemma track_assert_leaves_state obj :
  assert_leaves_state (gcc_python_wrapper_track obj).
Proof.
  intros h c h' H.
  unfold gcc_python_wrapper_track, load_prev, load_next in H.
  fail_assert H Hobj. fail_load H s_next Hsn. fail_assert H Hsn0.
  fail_load H a Ha. fail_assert H Ha0.
  fail_load H a' Ha'. assert (a' = a) as -> by congruence.
  fail_load H an Han. fail_assert H Han0. subst an.
  fail_load H a' Ha2. assert (a' = a) as -> by congruence.
  apply run_bind_AssertFail_inv in H as [H|([] & h1 & Hst1 & H)];
    [by apply never_asserts_store_next in H|].
  apply store_next_Done in Hst1 as [Hala ->].
  fail_load H a' Ha3. rewrite prev_at_store_next in Ha3.
  assert (a' = a) as -> by congruence.
  apply run_bind_AssertFail_inv in H as [H|([] & h2 & Hst2 & H)];
    [by apply never_asserts_store_prev in H|].
  apply store_prev_Done in Hst2 as [Halo ->].
  apply run_bind_AssertFail_inv in H as [H|([] & h3 & Hst3 & H)];
    [by apply never_asserts_store_next in H|].
  apply store_next_Done in Hst3 as [Halo3 ->].
  apply run_bind_AssertFail_inv in H as [H|([] & h4 & Hst4 & H)];
    [by apply never_asserts_store_prev in H|].
  apply store_prev_Done in Hst4 as [Hals4 ->].
  fail_load H o_prev Hop.
  rewrite prev_at_store_prev in Hop by done.
  rewrite prev_at_store_next, prev_at_store_prev in Hop by done.
  rewrite (decide_True (P := obj = obj)) in Hop by done.
  assert (Hop0 : o_prev ≠ NULL) by (case_decide; congruence).
  apply run_bind_AssertFail_inv in H as [H|([] & h5 & Hd & H)].
  { apply c_assert_AssertFail in H as (Hb & _ & _).
    by apply bool_decide_eq_false in Hb. }
  apply c_assert_Done in Hd as [_ ->].
  fail_load H o_next Hon.
  rewrite next_at_store_prev, next_at_store_next in Hon by done.
  rewrite decide_True in Hon by done.
  apply c_assert_AssertFail in H as (Hb & _ & _).
  apply bool_decide_eq_false in Hb. destruct Hb.
  injection Hon as <-. apply sentinel_not_NULL.
Qed.

(** X2.  On any memory at all, when [gcc_python_wrapper_track],
    [gcc_python_wrapper_untrack] or [gcc_python_wrapper_dealloc] stops at a
    failed assertion, nothing has been written: the memory is the one the
    function was entered with, so an assertion never leaves the list half
    updated.  In particular the two assertions after the stores of
    [gcc_python_wrapper_track] are never the ones that fail. *)
Theorem list_operations_assert_before_writing obj h cond h' :
  (gcc_python_wrapper_track obj h = AssertFail cond h' → h' = h) ∧
  (gcc_python_wrapper_untrack obj h = AssertFail cond h' → h' = h) ∧
  (gcc_python_wrapper_dealloc obj h = AssertFail cond h' → h' = h).
Proof.
  split; [apply track_assert_leaves_state|].
  split; [apply untrack_assert_leaves_state|].
  revert h cond h'.
  change (assert_leaves_state (gcc_python_wrapper_dealloc obj)).
  unfold gcc_python_wrapper_dealloc, load_refcnt. quiet_prefix.
  apply leaves_state_then_never; [apply untrack_assert_leaves_state|].
  intros ?. apply never_asserts_tp_free.
Qed.

Lemma list_operations_assert_before_writing_witness :
  gcc_python_wrapper_track NULL ex_heap = AssertFail "obj" ex_heap ∧
  ex_heap = ex_heap.
Proof.
  split; [by vm_compute|].
  by apply (proj1 (list_operations_assert_before_writing
                     NULL ex_heap "obj" ex_heap)).
Defined.

(** X3.  A wrapper cannot be untracked twice: a completed
    [gcc_python_wrapper_untrack] leaves the wrapper's own links [NULL], and
    a second call on the same wrapper stops at [assert(obj->wr_prev)]
    before it writes anything. *)
Theorem untrack_twice_asserts obj h h' :
  obj ≠ sentinel →
  gcc_python_wrapper_untrack obj h = Done tt h' →
  prev_at h' obj = Some NULL ∧ next_at h' obj = Some NULL ∧
  gcc_python_wrapper_untrack obj h' = AssertFail "obj->wr_prev" h'.
Proof.
  intros Hos H.
  apply untrack_Done_inv in H
    as (a & b & s_next & s_prev & Hobj & Hrc & Hsn & Hsn0 & Hsp & Hsp0
        & Ha & Ha0 & Hb & Hb0 & Hala & Halb & ->).
  assert (Halo : is_Some (h !! obj)).
  { apply next_at_is_Some. by rewrite Hb. }
  assert (Hp' : prev_at (untrack_heap obj a b h) obj = Some NULL).
  { rewrite untrack_heap_prev by done. by rewrite decide_True. }
  assert (Hn' : next_at (untrack_heap obj a b h) obj = Some NULL).
  { rewrite untrack_heap_next by done. by rewrite decide_True. }
  split; [done|]. split; [done|].
  assert (Hsn' : ∃ v, next_at (untrack_heap obj a b h) sentinel = Some v
                      ∧ v ≠ NULL).
  { rewrite untrack_heap_next by done. rewrite decide_False by done.
    case_decide; eauto. }
  assert (Hsp' : ∃ v, prev_at (untrack_heap obj a b h) sentinel = Some v
                      ∧ v ≠ NULL).
  { rewrite untrack_heap_prev by done. rewrite decide_False by done.
    case_decide; eauto. }
  destruct Hsn' as (v1 & Hv1 & Hv10). destruct Hsp' as (v2 & Hv2 & Hv20).
  assert (Hrc' : refcnt_at (untrack_heap obj a b h) obj = Some 0).
  { by rewrite untrack_heap_refcnt. }
  unfold gcc_python_wrapper_untrack.
  step (c_assert_ok _ _ _ Hobj).
  step (load_refcnt_ok _ _ _ Hrc').
  step (c_assert_ok _ _ _ (eq_refl 0)).
  step (load_next_ok _ _ _ Hv1).
  step (c_assert_ok _ _ _ Hv10).
  step (load_prev_ok _ _ _ Hv2).
  step (c_assert_ok _ _ _ Hv20).
  step (load_prev_ok _ _ _ Hp').
  apply run_bind_assert_fail, c_assert_fail. by intros ?.
Qed.

Lemma untrack_twice_asserts_witness :
  prev_at (untrack_heap 200 100 sentinel ex_heap) 200 = Some NULL ∧
  next_at (untrack_heap 200 100 sentinel ex_heap) 200 = Some NULL ∧
  gcc_python_wrapper_untrack 200 (untrack_heap 200 100 sentinel ex_heap)
  = AssertFail "obj->wr_prev" (untrack_heap 200 100 sentinel ex_heap).
Proof.
  apply (untrack_twice_asserts 200 ex_heap); [discriminate | by vm_compute].
Defined.

(** ** Construction *)

(** X4.  [_PyGccWrapper_New] on a live list: without a type it stops at
    [assert(typeobj)]; when the allocator returns [NULL] it returns [NULL]
    and leaves the memory, and so the list, as they were; when the
    allocator returns a new object it returns that object, tracked at the
    tail of the list, with the type asked for and the allocator's reference
    count of one, the objects already there keeping theirs. *)
Theorem wrapper_new_tracks_or_fails
    (PyObject_New : Z → M wheap Z) typeobj h l :
  tracker_repr h l →
  (typeobj = NULL →
   _PyGccWrapper_New PyObject_New typeobj h = AssertFail "typeobj" h) ∧
  (typeobj ≠ NULL → PyObject_New typeobj h = Done NULL h →
   _PyGccWrapper_New PyObject_New typeobj h = Done NULL h) ∧
  (typeobj ≠ NULL →
   ∀ obj gp gn,
     obj ≠ NULL → h !! obj = None →
     PyObject_New typeobj h
     = Done obj (<[obj := mkWrapper 1 typeobj gp gn]> h) →
     ∃ h', _PyGccWrapper_New PyObject_New typeobj h = Done obj h' ∧
           tracker_repr h' (l ++ [obj]) ∧
           type_at h' obj = Some typeobj ∧ refcnt_at h' obj = Some 1 ∧
           ∀ x, x ≠ obj → (is_Some (h' !! x) ↔ is_Some (h !! x))).
Proof.
  intros Hrep. split; [|split].
  - intros ->. unfold _PyGccWrapper_New.
    apply run_bind_assert_fail, c_assert_fail. intros H. by apply H.
  - intros Hty Hnull. unfold _PyGccWrapper_New.
    step (c_assert_ok _ _ _ Hty). step Hnull. by rewrite decide_True.
  - intros Hty obj gp gn Hobj Hnone Halloc.
    set (h1 := <[obj := mkWrapper 1 typeobj gp gn]> h) in *.
    assert (Hfresh : obj ∉ sentinel :: l).
    { intros Hin. apply (tracker_repr_alloc _ _ _ Hrep) in Hin.
      rewrite Hnone in Hin. by destruct Hin. }
    assert (Hrep1 : tracker_repr h1 l).
    { eapply tracker_repr_frame; [exact Hrep|].
      intros x Hx. unfold next_at, prev_at, h1.
      rewrite lookup_insert_ne; [done|]. by intros <-. }
    assert (Hal1 : is_Some (h1 !! obj)).
    { unfold h1. rewrite lookup_insert_eq. by eexists. }
    destruct (track_repr h1 l obj Hrep1 Hobj Hfresh Hal1)
      as (a & _ & Hrun & Hrep').
    exists (track_heap obj a h1). split; [|split; [done|split; [|split]]].
    + unfold _PyGccWrapper_New.
      step (c_assert_ok _ _ _ Hty). step Halloc.
      rewrite decide_False by done. by step Hrun.
    + rewrite track_heap_type. unfold type_at, h1. by rewrite lookup_insert_eq.
    + rewrite track_heap_refcnt. unfold refcnt_at, h1.
      by rewrite lookup_insert_eq.
    + intros x Hx. rewrite track_heap_alloc.
      unfold h1. by rewrite lookup_insert_ne.
Qed.

Lemma wrapper_new_tracks_or_fails_witness :
  ∃ h', _PyGccWrapper_New (alloc_at 300 7 9) ex_tree_type ex_heap
        = Done 300 h' ∧
        tracker_repr h' ([100; 200] ++ [300]) ∧
        type_at h' 300 = Some ex_tree_type ∧ refcnt_at h' 300 = Some 1 ∧
        ∀ x, x ≠ 300 → (is_Some (h' !! x) ↔ is_Some (ex_heap !! x)).
Proof.
  assert (Hrep : tracker_repr ex_heap [100; 200]).
  { apply (bool_decide_unpack _). vm_compute. exact I. }
  apply (proj2 (proj2 (wrapper_new_tracks_or_fails (alloc_at 300 7 9)
                         ex_tree_type ex_heap [100; 200] Hrep))
           ltac:(discriminate) 300 7 9).
  - discriminate.
  - by vm_compute.
  - reflexivity.
Defined.

(** ** Construction followed by destruction *)

Lemma wrapper_lookup_ext (h1 h2 : wheap) x :
  type_at h1 x = type_at h2 x → refcnt_at h1 x = refcnt_at h2 x →
  prev_at h1 x = prev_at h2 x → next_at h1 x = next_at h2 x →
  h1 !! x = h2 !! x.
Proof.
  unfold type_at, refcnt_at, prev_at, next_at.
  destruct (h1 !! x) as [[r1 t1 p1 n1]|], (h2 !! x) as [[r2 t2 p2 n2]|];
    simpl; congruence.
Qed.

(** X5.  A wrapper that is constructed and then loses its last reference,
    with nothing in between, leaves no trace: the memory after the
    destruction is the memory before the construction, link for link. *)
Theorem construct_then_destroy_restores h l obj typeobj gp gn :
  tracker_exact h l →
  obj ≠ NULL → obj ∉ sentinel :: l → typeobj ≠ NULL →
  run_events [EvNew obj typeobj gp gn; EvDrop obj] h = Done tt h.
Proof.
  intros [Hrep Hdom] Hobj Hfresh Hty.
  assert (Hnone : h !! obj = None).
  { apply eq_None_not_Some. by rewrite Hdom. }
  assert (Hos : obj ≠ sentinel) by (intros ->; apply Hfresh; by left).
  (* the construction *)
  set (h0 := <[obj := mkWrapper 1 typeobj gp gn]> h).
  assert (Hrep0 : tracker_repr h0 l).
  { eapply tracker_repr_frame; [exact Hrep|].
    intros x Hx. unfold next_at, prev_at, h0.
    rewrite lookup_insert_ne; [done|]. by intros <-. }
  assert (Hal0 : is_Some (h0 !! obj)).
  { unfold h0. rewrite lookup_insert_eq. by eexists. }
  destruct (track_repr h0 l obj Hrep0 Hobj Hfresh Hal0)
    as (a & Ha & Htrack & Hrep1).
  set (h1 := track_heap obj a h0) in *.
  (* the last reference goes *)
  set (h2 := alter (set_ob_refcnt 0) obj h1).
  assert (Hal1 : is_Some (h1 !! obj)) by by apply track_heap_alloc.
  assert (Hrep2 : tracker_repr h2 (l ++ obj :: [])).
  { eapply tracker_repr_frame; [exact Hrep1|]. intros x _.
    unfold next_at, prev_at, h2. by rewrite !field_alter_frame. }
  assert (Hrc2 : refcnt_at h2 obj = Some 0).
  { unfold refcnt_at, h2. rewrite lookup_alter_eq. by destruct Hal1 as [o ->]. }
  destruct (untrack_repr h2 l [] obj Hrep2 Hrc2)
    as (a' & b & Hp & Hn & Ha' & Hb & Huntrack & _).
  simpl in Hb. subst b. rewrite Ha in Ha'. subst a'.
  set (h3 := untrack_heap obj a sentinel h2) in *.
  assert (Hal3 : is_Some (h3 !! obj)).
  { unfold h3. rewrite untrack_heap_alloc. unfold h2. by rewrite alloc_alter. }
  (* the run *)
  assert (Hrun : run_events [EvNew obj typeobj gp gn; EvDrop obj] h
                 = Done tt (delete obj h3)).
  { assert (Halloc : alloc_at obj gp gn typeobj h = Done obj h0) by done.
    assert (Hstore : store_refcnt obj 0 h1 = Done tt h2).
    { unfold store_refcnt. by destruct Hal1 as [o ->]. }
    assert (Hfree : tp_free obj h3 = Done tt (delete obj h3)).
    { unfold tp_free. by destruct Hal3 as [o ->]. }
    assert (Hnew : run_event (EvNew obj typeobj gp gn) h = Done tt h1).
    { unfold run_event, _PyGccWrapper_New.
      rewrite (run_bind _ _ h obj h1); [done|].
      step (c_assert_ok _ _ _ Hty). step Halloc.
      rewrite decide_False by done. by step Htrack. }
    simpl run_events. step Hnew.
    rewrite (run_bind _ _ h1 tt (delete obj h3)); [done|].
    unfold run_event, drop_last_reference. step Hstore.
    unfold gcc_python_wrapper_dealloc.
    step (c_assert_ok _ _ _ Hobj). step (load_refcnt_ok _ _ _ Hrc2).
    step (c_assert_ok _ _ _ (eq_refl 0)). by step Huntrack. }
  rewrite Hrun. f_equal. apply map_eq. intros x.
  destruct (decide (x = obj)) as [->|Hx].
  { by rewrite lookup_delete_eq, Hnone. }
  rewrite lookup_delete_ne by done.
  (* the neighbours of obj while it was in the list *)
  destruct (tracker_repr_tail _ _ Hrep) as (A & a1 & HA & _ & Ha_next & Ha_prev).
  assert (a1 = a) as ->.
  { rewrite <- Ha. destruct l as [|y l' _] using rev_ind.
    - destruct A as [|? [|? ?]]; simpl in *; congruence.
    - rewrite List.last_last. rewrite app_comm_cons in HA.
      by apply app_inj_tail in HA as [_ ->]. }
  assert (Hala : is_Some (h !! a)).
  { apply next_at_is_Some. by rewrite Ha_next. }
  assert (Hals : is_Some (h !! sentinel)).
  { eapply tracker_repr_alloc; [exact Hrep | by left]. }
  assert (Hao : a ≠ obj) by (intros ->; rewrite Hnone in Hala; by destruct Hala).
  assert (Hal0a : is_Some (h0 !! a)).
  { unfold h0. by rewrite lookup_insert_ne. }
  assert (Hal0s : is_Some (h0 !! sentinel)).
  { unfold h0. by rewrite lookup_insert_ne. }
  assert (Hal2 : ∀ y, is_Some (h2 !! y) ↔ is_Some (h0 !! y)).
  { intros y. unfold h2, h1. by rewrite alloc_alter, track_heap_alloc. }
  assert (Hh0 : h0 !! x = h !! x) by (unfold h0; by rewrite lookup_insert_ne).
  apply wrapper_lookup_ext.
  - unfold h3. rewrite untrack_heap_type. unfold h2, type_at.
    rewrite field_alter_frame by done. fold (type_at h1 x).
    unfold h1. rewrite track_heap_type. unfold type_at. by rewrite Hh0.
  - unfold h3. rewrite untrack_heap_refcnt. unfold h2, refcnt_at.
    rewrite lookup_alter_ne by done. fold (refcnt_at h1 x).
    unfold h1. rewrite track_heap_refcnt. unfold refcnt_at. by rewrite Hh0.
  - unfold h3. rewrite untrack_heap_prev by by apply Hal2.
    rewrite decide_False by done.
    assert (Hp2 : prev_at h2 x = prev_at h1 x).
    { unfold h2, prev_at. by rewrite field_alter_frame. }
    rewrite Hp2. unfold h1. rewrite track_heap_prev by done.
    rewrite (decide_False (P := x = obj)) by done.
    case_decide as Hxs; [by subst x | unfold prev_at; by rewrite Hh0].
  - unfold h3. rewrite untrack_heap_next by by apply Hal2.
    rewrite decide_False by done.
    assert (Hn2 : next_at h2 x = next_at h1 x).
    { unfold h2, next_at. by rewrite field_alter_frame. }
    rewrite Hn2. unfold h1. rewrite track_heap_next by done.
    rewrite (decide_False (P := x = obj)) by done.
    case_decide as Hxa; [by subst x | unfold next_at; by rewrite Hh0].
Qed.

Lemma construct_then_destroy_restores_witness :
  run_events [EvNew 100 ex_tree_type 3 4; EvDrop 100] initial_heap
  = Done tt initial_heap.
Proof.
  apply (construct_then_destroy_restores initial_heap [] 100 ex_tree_type 3 4).
  - apply initial_heap_repr.
  - discriminate.
  - apply (bool_decide_unpack _). by vm_compute.
  - discriminate.
Defined.

(** ** Marking after a history *)

(** An event leaves the types of the other wrappers alone. *)
Lemma run_event_types ev h h' x :
  run_event ev h = Done tt h' →
  match ev with EvNew obj _ _ _ | EvDrop obj => x ≠ obj end →
  type_at h' x = type_at h x.
Proof.
  intros H Hx. destruct ev as [obj typeobj gp gn|obj]; simpl in H.
  - apply run_bind_Done_inv in H as (r & h1 & H & Hret).
    injection Hret as <-.
    unfold _PyGccWrapper_New in H. inv_assert H Hty.
    apply run_bind_Done_inv in H as (o & h0 & Halloc & H).
    injection Halloc as <- <-.
    destruct (decide (obj = NULL)).
    { injection H as _ <-. unfold type_at. by rewrite lookup_insert_ne. }
    apply run_bind_Done_inv in H as ([] & h2 & Htrack & H).
    injection H as _ <-.
    apply track_Done_inv in Htrack as (a & s1 & _ & _ & _ & _ & _ & _ & _ & ->).
    rewrite track_heap_type. unfold type_at. by rewrite lookup_insert_ne.
  - unfold drop_last_reference in H.
    apply run_bind_Done_inv in H as ([] & h1 & Hst & H).
    unfold store_refcnt in Hst. destruct (h !! obj) eqn:Ho; [|done].
    injection Hst as <-.
    apply dealloc_Done_inv in H as (h2 & Hun & ->).
    apply untrack_Done_inv in Hun
      as (a & b & s1 & s2 & _ & _ & _ & _ & _ & _ & _ & _ & _ & _ & _ & _ & ->).
    unfold type_at at 1. rewrite lookup_delete_ne by done.
    fold (type_at (untrack_heap obj a b (alter (set_ob_refcnt 0) obj h)) x).
    rewrite untrack_heap_type. unfold type_at. by rewrite field_alter_frame.
Qed.

Lemma run_events_marked tys evs :
  ∀ h l,
    tracker_exact h l → valid_events l evs →
    Forall (event_type_marked tys) evs →
    (∀ p, p ∈ l → ∃ m, marker_of tys h p = Some m ∧ m ≠ NULL) →
    ∃ h', run_events evs h = Done tt h' ∧
          tracker_exact h' (live_after l evs) ∧
          ∀ p, p ∈ live_after l evs →
               ∃ m, marker_of tys h' p = Some m ∧ m ≠ NULL.
Proof.
  induction evs as [|ev evs IH]; intros h l Hex Hvalid Hmarked Hl.
  - by exists h.
  - apply Forall_cons in Hmarked as [Hev Hmarked].
    destruct ev as [obj typeobj gp gn|obj]; simpl in Hvalid.
    + destruct Hvalid as (Hobj & Hfresh & Hty & Hvalid).
      destruct (run_EvNew h l obj typeobj gp gn Hex Hobj Hfresh Hty)
        as (h1 & Hrun & Hex1 & Hty1).
      destruct (IH h1 (l ++ [obj]) Hex1 Hvalid Hmarked) as (h' & Hrun' & Hex' & Hl').
      { intros p Hp. apply elem_of_app in Hp as [Hp|Hp].
        - destruct (Hl p Hp) as (m & Hm & Hm0). exists m. split; [|done].
          unfold marker_of in *.
          rewrite (run_event_types _ _ _ p Hrun); [done|].
          intros ->. apply Hfresh. by right.
        - apply list_elem_of_singleton in Hp as ->.
          destruct Hev as (m & Hm & Hm0). exists m. split; [|done].
          unfold marker_of. by rewrite Hty1. }
      exists h'. split; [|done]. simpl. by step Hrun.
    + destruct Hvalid as (Hin & Hvalid).
      destruct (run_EvDrop h l obj Hex Hin) as (h1 & Hrun & Hex1 & _).
      destruct (IH h1 _ Hex1 Hvalid Hmarked) as (h' & Hrun' & Hex' & Hl').
      { intros p Hp. apply list_elem_of_filter in Hp as [Hne Hp].
        destruct (Hl p Hp) as (m & Hm & Hm0). exists m. split; [|done].
        unfold marker_of in *.
        by rewrite (run_event_types _ _ _ p Hrun). }
      exists h'. split; [|done]. simpl. by step Hrun.
Qed.

(** X6.  After any history of constructions and destructions in which every
    constructed wrapper's type has a marking function, a root walk runs to
    completion and passes to a marking function exactly the wrappers
    constructed and not destroyed since, oldest first, each once, each to
    the marking function of its own type. *)
Theorem walk_after_history_marks_live tys evs fuel :
  valid_events [] evs →
  Forall (event_type_marked tys) evs →
  (length (live_after [] evs) < fuel)%nat →
  ∃ h calls,
    run_events evs initial_heap = Done tt h ∧
    my_walker fuel tys h [] = Done tt calls ∧
    calls.*2 = live_after [] evs ∧
    (∀ p, p ∈ calls.*2 ↔ tracked_not_untracked evs p) ∧
    Forall (λ c, marker_of tys h c.2 = Some c.1 ∧ c.1 ≠ NULL) calls.
Proof.
  intros Hvalid Hmarked Hfuel.
  destruct (run_events_marked tys evs _ _ initial_heap_repr Hvalid Hmarked)
    as (h & Hrun & [Hrep _] & Hl).
  { intros p Hp. by apply elem_of_nil in Hp. }
  destruct (walk_live_list tys h _ fuel [] Hrep Hl Hfuel)
    as (calls & Hwalk & Hcalls & Hall).
  exists h, calls. do 3 (split; [done|]). split; [|done].
  intros p. rewrite Hcalls, live_after_elem. split; [|by right].
  intros [[Hin _]|?]; [|done]. by apply elem_of_nil in Hin.
Qed.

Lemma walk_after_history_marks_live_witness :
  ∃ h calls,
    run_events ex_events initial_heap = Done tt h ∧
    my_walker 3 ex_types h [] = Done tt calls ∧
    calls.*2 = live_after [] ex_events ∧
    (∀ p, p ∈ calls.*2 ↔ tracked_not_untracked ex_events p) ∧
    Forall (λ c, marker_of ex_types h c.2 = Some c.1 ∧ c.1 ≠ NULL) calls.
Proof.
  apply (walk_after_history_marks_live ex_types ex_events 3).
  - apply (bool_decide_unpack _). vm_compute. exact I.
  - repeat constructor; exists 9001; by vm_compute.
  - vm_compute. lia.
Defined.

(** ** More on the metatype *)

Section MetatypeMore.
Context {PyArgs : Type}.
Variable sizeof_PyGccWrapperTypeObject : Z.
Variable PyType_Type_tp_new : Z → PyArgs → PyArgs → M theap Z.

Local Abbreviation meta_tp_new :=
  (gcc_python_wrapper_meta_tp_new sizeof_PyGccWrapperTypeObject
     PyType_Type_tp_new).

(** What a completed [gcc_python_wrapper_meta_tp_new] found and did. *)
Lemma meta_tp_new_Done_inv type args kwds tys r tys2 :
  meta_tp_new type args kwds tys = Done r tys2 →
  (r = NULL ∧ PyType_Type_tp_new type args kwds tys = Done NULL tys2) ∨
  (r ≠ NULL ∧
   ∃ tys1 metatype size base mark,
     PyType_Type_tp_new type args kwds tys = Done r tys1 ∧
     metatype_at tys1 r = Some metatype ∧
     basicsize_at tys1 metatype = Some size ∧
     sizeof_PyGccWrapperTypeObject ≤ size ∧
     base_at tys1 r = Some base ∧ mark_at tys1 base = Some mark ∧
     tys2 = alter (set_wrtp_mark mark) r tys1).
Proof.
  intros H. unfold gcc_python_wrapper_meta_tp_new in H.
  apply run_bind_Done_inv in H as (nt & tys1 & Hnew & H).
  destruct (decide (nt = NULL)) as [->|Hnn].
  { injection H as <- <-. by left. }
  right.
  apply run_bind_Done_inv in H as (metatype & s1 & Hmeta & H).
  apply c_read_Done in Hmeta as [Hmeta ->].
  apply run_bind_Done_inv in H as (size & s1 & Hsize & H).
  apply c_read_Done in Hsize as [Hsize ->].
  apply run_bind_Done_inv in H as ([] & s1 & Hle & H).
  apply c_assert_Done in Hle as [Hle ->]. apply bool_decide_eq_true in Hle.
  apply run_bind_Done_inv in H as (base & s1 & Hbase & H).
  apply c_read_Done in Hbase as [Hbase ->].
  apply run_bind_Done_inv in H as (mark & s1 & Hmark & H).
  apply c_read_Done in Hmark as [Hmark ->].
  apply run_bind_Done_inv in H as ([] & s1 & Hst & H).
  injection H as <- <-.
  unfold store_wrtp_mark in Hst. destruct (tys1 !! nt) eqn:Hnt; [|done].
  injection Hst as <-. split; [done|].
  by exists tys1, metatype, size, base, mark.
Qed.

(** The type a completed call returns carries its base's marking function. *)
Lemma meta_tp_new_Done_mark type args kwds tys r tys2 :
  meta_tp_new type args kwds tys = Done r tys2 → r ≠ NULL →
  ∃ base mark, base_at tys2 r = Some base ∧
               mark_at tys2 r = Some mark ∧ mark_at tys2 base = Some mark.
Proof.
  intros H Hr.
  apply meta_tp_new_Done_inv in H
    as [[? _]|(_ & tys1 & mt & size & base & mark & _ & _ & _ & _
               & Hbase & Hmark & ->)]; [done|].
  assert (Hal : is_Some (tys1 !! r)).
  { unfold base_at in Hbase. destruct (tys1 !! r); [by eexists|done]. }
  exists base, mark. rewrite base_at_store_mark, !mark_at_store_mark by done.
  split; [done|]. split; [by rewrite decide_True|]. by case_decide.
Qed.


(** X8.  Inheritance goes down a chain.  When a type [t1] has been created
    through the metatype under [t0], and a type [t2] is then created under
    [t1] (the host's constructor leaving [t0] and [t1] as they are while it
    builds [t2]), all three carry the same marking function: a subclass of
    a subclass marks like the built-in type at the root. *)
Theorem subtype_of_subtype_inherits
    type args kwds type' args' kwds' tys t0 t1 tys2 t2 tys4 :
  meta_tp_new type args kwds tys = Done t1 tys2 → t1 ≠ NULL →
  base_at tys2 t1 = Some t0 →
  meta_tp_new type' args' kwds' tys2 = Done t2 tys4 → t2 ≠ NULL →
  base_at tys4 t2 = Some t1 →
  t2 ≠ t1 → t2 ≠ t0 →
  (∀ tys3, PyType_Type_tp_new type' args' kwds' tys2 = Done t2 tys3 →
           tys3 !! t1 = tys2 !! t1 ∧ tys3 !! t0 = tys2 !! t0) →
  ∃ mark, mark_at tys4 t0 = Some mark ∧ mark_at tys4 t1 = Some mark ∧
          mark_at tys4 t2 = Some mark.
Proof.
  intros H1 Ht1 Hb1 H2 Ht2 Hb2 Hne1 Hne0 Hframe.
  destruct (meta_tp_new_Done_mark _ _ _ _ _ _ H1 Ht1)
    as (b1 & mark & Hb1' & Hm1 & Hm0).
  assert (b1 = t0) as -> by congruence.
  destruct (meta_tp_new_Done_mark _ _ _ _ _ _ H2 Ht2)
    as (b2 & mark' & Hb2' & Hm2 & Hm1').
  assert (b2 = t1) as -> by congruence.
  apply meta_tp_new_Done_inv in H2
    as [[? _]|(_ & tys3 & mt & size & base & mk & Hnew & _ & _ & _
               & _ & _ & ->)]; [done|].
  destruct (Hframe tys3 Hnew) as [Hk1 Hk0].
  assert (Hm1'' : mark_at (alter (set_wrtp_mark mk) t2 tys3) t1 = Some mark).
  { unfold mark_at in *. rewrite lookup_alter_ne by done. by rewrite Hk1. }
  assert (mark' = mark) as -> by congruence.
  exists mark. split; [|done].
  unfold mark_at in *. rewrite lookup_alter_ne by done. by rewrite Hk0.
Qed.
End MetatypeMore.


Lemma subtype_of_subtype_inherits_witness :
  ∃ tys2 tys4 mark,
    gcc_python_wrapper_meta_tp_new 416 ex_tp_new_next ex_meta
      ex_tree_type 0 ex_types = Done 7200 tys2 ∧
    gcc_python_wrapper_meta_tp_new 416 ex_tp_new_next ex_meta
      7200 0 tys2 = Done 7300 tys4 ∧
    mark_at tys4 ex_tree_type = Some mark ∧ mark_at tys4 7200 = Some mark ∧
    mark_at tys4 7300 = Some mark.
Proof.
  set (tys2 := alter (set_wrtp_mark 9001) 7200
                 (<[7200 := mkType "Sub" ex_meta 24 ex_tree_type NULL]>
                    ex_types)).
  set (tys4 := alter (set_wrtp_mark 9001) 7300
                 (<[7300 := mkType "Sub" ex_meta 24 7200 NULL]> tys2)).
  assert (H1 : gcc_python_wrapper_meta_tp_new 416 ex_tp_new_next ex_meta
                 ex_tree_type 0 ex_types = Done 7200 tys2) by by vm_compute.
  assert (H2 : gcc_python_wrapper_meta_tp_new 416 ex_tp_new_next ex_meta
                 7200 0 tys2 = Done 7300 tys4) by by vm_compute.
  destruct (subtype_of_subtype_inherits 416 ex_tp_new_next
              ex_meta ex_tree_type 0 ex_meta 7200 0
              ex_types ex_tree_type 7200 tys2 7300 tys4)
    as (mark & Hm0 & Hm1 & Hm2).
  - exact H1.
  - discriminate.
  - by vm_compute.
  - exact H2.
  - discriminate.
  - by vm_compute.
  - discriminate.
  - discriminate.
  - intros tys3 Hnew. vm_compute in Hnew. injection Hnew as <-.
    by vm_compute.
  - by exists tys2, tys4, mark.
Defined.

(** ** More on comparison and hashing *)

Lemma cast_long_range p : - 2 ^ 63 ≤ cast_long p < 2 ^ 63.
Proof.
  unfold cast_long.
  pose proof (Z.mod_pos_bound (p + 2 ^ 63) (2 ^ 64)). lia.
Qed.

Lemma cast_long_back p : 0 ≤ p < 2 ^ 64 → cast_long p `mod` 2 ^ 64 = p.
Proof.
  intros Hp. unfold cast_long.
  destruct (decide (p < 2 ^ 63)).
  - rewrite (Z.mod_small (p + _)) by lia.
    replace (p + 2 ^ 63 - 2 ^ 63) with p by lia. by apply Z.mod_small.
  - replace (p + 2 ^ 63) with ((p - 2 ^ 63) + 1 * 2 ^ 64) by lia.
    rewrite Z.mod_add, (Z.mod_small (p - _)) by lia.
    replace (p - 2 ^ 63 - 2 ^ 63) with (p + (-1) * 2 ^ 64) by lia.
    rewrite Z.mod_add by lia. by apply Z.mod_small.
Qed.

Section CompareMore.
Variable PyType_IsSubtype : Z → Z → bool.
Variable gcc_TreeType : Z.

Local Abbreviation is_tree o :=
  (PyObject_TypeCheck PyType_IsSubtype o gcc_TreeType).
Local Abbreviation richcompare :=
  (gcc_Tree_richcompare PyType_IsSubtype gcc_TreeType).

(** X9.  [gcc_Tree_richcompare] gives the same answer whichever way round
    its two arguments come, for all objects and all operators.  On tree
    wrappers its [Py_EQ] is an equivalence relation, and the four ordering
    operators are never answered: the result is [Py_NotImplemented]. *)
Theorem richcompare_symmetric_unordered :
  (∀ o1 o2 op, richcompare o1 o2 op = richcompare o2 o1 op) ∧
  (∀ w, is_tree (Tree_object w) = true →
        richcompare (Tree_object w) (Tree_object w) Py_EQ = Some Py_True) ∧
  (∀ w1 w2 w3,
     is_tree (Tree_object w1) = true → is_tree (Tree_object w2) = true →
     is_tree (Tree_object w3) = true →
     richcompare (Tree_object w1) (Tree_object w2) Py_EQ = Some Py_True →
     richcompare (Tree_object w2) (Tree_object w3) Py_EQ = Some Py_True →
     richcompare (Tree_object w1) (Tree_object w3) Py_EQ = Some Py_True) ∧
  (∀ w1 w2 op,
     is_tree (Tree_object w1) = true → is_tree (Tree_object w2) = true →
     op ≠ Py_EQ → op ≠ Py_NE →
     richcompare (Tree_object w1) (Tree_object w2) op
     = Some Py_NotImplemented).
Proof.
  split; [|split; [|split]].
  - intros o1 o2 op. unfold gcc_Tree_richcompare.
    destruct (is_tree o1), (is_tree o2); simpl; try done.
    destruct (as_PyGccTree o1) as [w1|], (as_PyGccTree o2) as [w2|];
      simpl; try done.
    repeat case_decide; try done; f_equal;
      repeat case_bool_decide; congruence.
  - intros w Hw. rewrite richcompare_trees by done.
    rewrite decide_True by done. by rewrite bool_decide_eq_true_2.
  - intros w1 w2 w3 H1 H2 H3. rewrite !richcompare_trees by done.
    rewrite !decide_True by done.
    repeat case_bool_decide; congruence.
  - intros w1 w2 op H1 H2 Heq Hne. rewrite richcompare_trees by done.
    by rewrite !decide_False.
Qed.

(** X10.  [gcc_Tree_hash] always fits a C [long]; for handles in the range
    of a 64-bit pointer the handle can be read back from the hash, so two
    tree wrappers have the same hash exactly when they wrap the same handle,
    which is exactly when [gcc_Tree_richcompare] answers [Py_EQ] with
    [Py_True]. *)
Theorem tree_hash_faithful w1 w2 :
  0 ≤ tree_t w1 < 2 ^ 64 → 0 ≤ tree_t w2 < 2 ^ 64 →
  - 2 ^ 63 ≤ gcc_Tree_hash w1 < 2 ^ 63 ∧
  gcc_Tree_hash w1 `mod` 2 ^ 64 = tree_t w1 ∧
  (gcc_Tree_hash w1 = gcc_Tree_hash w2 ↔ tree_t w1 = tree_t w2) ∧
  (is_tree (Tree_object w1) = true → is_tree (Tree_object w2) = true →
   (gcc_Tree_hash w1 = gcc_Tree_hash w2 ↔
    richcompare (Tree_object w1) (Tree_object w2) Py_EQ = Some Py_True)).
Proof.
  intros Hr1 Hr2. unfold gcc_Tree_hash.
  assert (Hiff : cast_long (tree_t w1) = cast_long (tree_t w2)
                 ↔ tree_t w1 = tree_t w2).
  { split; [by apply cast_long_inj | by intros ->]. }
  split; [apply cast_long_range|]. split; [by apply cast_long_back|].
  split; [done|]. intros H1 H2. rewrite Hiff.
  rewrite richcompare_trees by done. rewrite decide_True by done.
  case_bool_decide; split; (done || discriminate).
Qed.
End CompareMore.

Lemma richcompare_symmetric_unordered_witness :
  let sub := λ a b : Z, bool_decide (a = 7001 ∧ b = 7000) in
  gcc_Tree_richcompare sub 7000 (Tree_object (mkTree 1 7000 48879))
    (Tree_object (mkTree 2 7001 51966)) Py_LT = Some Py_NotImplemented.
Proof.
  intros sub.
  apply (proj2 (proj2 (proj2 (richcompare_symmetric_unordered sub 7000))));
    [reflexivity | reflexivity | discriminate | discriminate].
Defined.

Lemma tree_hash_faithful_witness :
  gcc_Tree_hash (mkTree 1 7000 (2 ^ 64 - 8)) = -8 ∧
  gcc_Tree_hash (mkTree 1 7000 (2 ^ 64 - 8)) `mod` 2 ^ 64 = 2 ^ 64 - 8.
Proof.
  split; [reflexivity|].
  apply (tree_hash_faithful (λ _ _, false) 7000
           (mkTree 1 7000 (2 ^ 64 - 8)) (mkTree 1 7000 0)); simpl; lia.
Defined.

(** ** Reprs are unambiguous *)

Lemma string_app_length (s t : string) :
  String.length (s +:+ t) = (String.length s + String.length t)%nat.
Proof. induction s as [|c s IH]; simpl; [done | by rewrite IH]. Qed.

Lemma string_app_inj_r (s1 s2 t : string) : s1 +:+ t = s2 +:+ t → s1 = s2.
Proof.
  revert s2. induction s1 as [|c s1 IH]; intros [|c2 s2] H.
  - done.
  - apply (f_equal String.length) in H.
    rewrite !string_app_length in H. simpl in H. lia.
  - apply (f_equal String.length) in H.
    rewrite !string_app_length in H. simpl in H. lia.
  - change (String c (s1 +:+ t) = String c2 (s2 +:+ t)) in H.
    injection H as -> H. by rewrite (IH _ H).
Qed.

(** A decimal numeral starts with a digit, not with a quote. *)
Lemma format_u_head n rest rest' : format_u n +:+ rest ≠ "'" +:+ rest'.
Proof.
  unfold format_u. destruct (N.to_uint n); simpl; discriminate.
Qed.

Lemma format_u_inj n1 n2 : format_u n1 = format_u n2 → n1 = n2.
Proof.
  intros H. pose proof (format_u_decimal n1) as H1.
  rewrite H, format_u_decimal in H1. by injection H1.
Qed.

(** X11.  [gcc_Declaration_repr] is unambiguous for one type name: two named
    declarations have the same repr only when they have the same name, two
    anonymous ones only when they have the same uid, and a named
    declaration never has the repr of an anonymous one.  When the name
    cannot be fetched the repr is [NULL] rather than a string without the
    name. *)
Theorem declaration_repr_unambiguous type_name :
  (∀ d1 d2 u1 u2 name1 name2,
     d1 ≠ NULL → d2 ≠ NULL →
     gcc_Declaration_repr type_name d1 u1 (Some name1)
     = gcc_Declaration_repr type_name d2 u2 (Some name2) →
     name1 = name2) ∧
  (∀ u1 u2 g1 g2,
     gcc_Declaration_repr type_name NULL u1 g1
     = gcc_Declaration_repr type_name NULL u2 g2 →
     u1 = u2) ∧
  (∀ d1 u1 name1 u2 g2,
     d1 ≠ NULL →
     gcc_Declaration_repr type_name d1 u1 (Some name1)
     ≠ gcc_Declaration_repr type_name NULL u2 g2) ∧
  (∀ d1 u1, d1 ≠ NULL → gcc_Declaration_repr type_name d1 u1 None = None).
Proof.
  unfold gcc_Declaration_repr. split; [|split; [|split]].
  - intros d1 d2 u1 u2 name1 name2 H1 H2. rewrite !decide_True by done.
    intros [= H]. apply (inj (String.app type_name)) in H.
    apply (inj (String.app "('")) in H. by apply string_app_inj_r in H.
  - intros u1 u2 g1 g2. rewrite !decide_False by (by intros ?).
    intros [= H]. apply (inj (String.app type_name)) in H.
    apply (inj (String.app "(")) in H.
    apply string_app_inj_r in H. by apply format_u_inj.
  - intros d1 u1 name1 u2 g2 H1. rewrite decide_True by done.
    rewrite decide_False by (by intros ?).
    intros [= H]. apply (inj (String.app type_name)) in H.
    change ("(" +:+ ("'" +:+ (name1 +:+ "')"))
            = "(" +:+ (format_u u2 +:+ ")")) in H.
    apply (inj (String.app "(")) in H.
    symmetry in H. by apply format_u_head in H.
  - intros d1 u1 H1. by rewrite decide_True.
Qed.

Lemma declaration_repr_unambiguous_witness :
  gcc_Declaration_repr "gcc.VarDecl" 51966 7 (Some "x")
  ≠ gcc_Declaration_repr "gcc.VarDecl" NULL 7 None.
Proof.
  apply (proj1 (proj2 (proj2 (declaration_repr_unambiguous "gcc.VarDecl")))).
  discriminate.
Defined.



(** ** Wrappers made for a tree *)

Section RealMakeProofs.
Variable type_for_tree : Z → Z → Z.
Variable PyObject_New : Z → M pystate Z.
Hypothesis PyObject_New_ok : allocator_ok PyObject_New.
Variable PyType_IsSubtype : Z → Z → bool.
Variable gcc_TreeType : Z.

Local Abbreviation real_make :=
  (real_make_tree_wrapper type_for_tree PyObject_New).

(** What a completed [real_make_tree_wrapper] did for a tree. *)
Lemma real_make_Done_inv t s r s' :
  t ≠ NULL → real_make t s = Done r s' →
  (r = NULL ∧ s' = s) ∨
  (r ≠ NULL ∧ type_for_tree t 1 ≠ NULL ∧ py_trees s !! r = None ∧
   py_trees s' = <[r := mkTree 1 (type_for_tree t 1) t]> (py_trees s) ∧
   tree_wrapper_cache s' = tree_wrapper_cache s ∧
   py_none_refcnt s' = py_none_refcnt s).
Proof.
  intros Ht H. unfold real_make_tree_wrapper in H.
  rewrite decide_False in H by (by intros ?).
  apply run_bind_Done_inv in H as ([] & s1 & Hassert & H).
  apply c_assert_Done in Hassert as [Htp ->].
  apply bool_decide_eq_true in Htp.
  apply run_bind_Done_inv in H as (obj & s2 & Hnew & H).
  destruct (PyObject_New_ok (type_for_tree t 1) s)
    as [Hfail|(p & garbage & Hp & Hfresh & Hok)].
  - rewrite Hfail in Hnew. injection Hnew as <- <-.
    rewrite decide_True in H by done. injection H as <- <-. by left.
  - rewrite Hok in Hnew. injection Hnew as <- <-.
    rewrite decide_False in H by done.
    apply run_bind_Done_inv in H as ([] & s3 & Hstore & Hret).
    injection Hret as <- <-. unfold store_tree_t in Hstore. simpl in Hstore.
    rewrite lookup_insert_eq in Hstore. injection Hstore as <-. simpl.
    right. do 3 (split; [done|]). split; [|done].
    apply map_eq. intros x. destruct (decide (x = p)) as [->|Hx].
    + by rewrite lookup_alter_eq, !lookup_insert_eq.
    + by rewrite lookup_alter_ne, !lookup_insert_ne.
Qed.


(** X14.  [real_make_tree_wrapper] does not look at the cache: called twice
    for the same tree it makes two wrappers at different addresses.  The
    two wrap the same handle, so they have the same hash, and, their type
    being a tree type, [gcc_Tree_richcompare] finds them equal. *)
Theorem independent_wrappers_are_equal t s p1 s1 p2 s2 :
  t ≠ NULL →
  real_make t s = Done p1 s1 → p1 ≠ NULL →
  real_make t s1 = Done p2 s2 → p2 ≠ NULL →
  p1 ≠ p2 ∧
  ∃ w1 w2,
    py_trees s2 !! p1 = Some w1 ∧ py_trees s2 !! p2 = Some w2 ∧
    tree_t w1 = t ∧ tree_t w2 = t ∧
    gcc_Tree_hash w1 = gcc_Tree_hash w2 ∧
    (bool_decide (type_for_tree t 1 = gcc_TreeType)
     || PyType_IsSubtype (type_for_tree t 1) gcc_TreeType = true →
     gcc_Tree_richcompare PyType_IsSubtype gcc_TreeType
       (Tree_object w1) (Tree_object w2) Py_EQ = Some Py_True ∧
     gcc_Tree_richcompare PyType_IsSubtype gcc_TreeType
       (Tree_object w1) (Tree_object w2) Py_NE = Some Py_False).
Proof.
  intros Ht H1 Hp1 H2 Hp2.
  destruct (real_make_Done_inv t s p1 s1 Ht H1)
    as [[? _]|(_ & _ & Hf1 & Htr1 & _ & _)]; [done|].
  destruct (real_make_Done_inv t s1 p2 s2 Ht H2)
    as [[? _]|(_ & _ & Hf2 & Htr2 & _ & _)]; [done|].
  assert (Hne : p1 ≠ p2).
  { intros ->. rewrite Htr1, lookup_insert_eq in Hf2. discriminate. }
  split; [done|].
  exists (mkTree 1 (type_for_tree t 1) t), (mkTree 1 (type_for_tree t 1) t).
  split; [|split; [|split; [done|split; [done|split; [done|]]]]].
  - rewrite Htr2, lookup_insert_ne by done. by rewrite Htr1, lookup_insert_eq.
  - by rewrite Htr2, lookup_insert_eq.
  - intros Hcheck.
    rewrite !richcompare_trees by done.
    rewrite decide_True by done.
    rewrite decide_False, decide_True by done. simpl. split.
    + by rewrite bool_decide_eq_true_2.
    + rewrite bool_decide_eq_false_2; [done|]. intros H. by apply H.
Qed.
End RealMakeProofs.


Lemma independent_wrappers_are_equal_witness :
  ∃ s1 s2,
    real_make_tree_wrapper ex_type_for_tree ex_PyObject_New 48879 ex_pystate
    = Done 16 s1 ∧
    real_make_tree_wrapper ex_type_for_tree ex_PyObject_New 48879 s1
    = Done 17 s2 ∧
    16 ≠ 17 ∧
    ∃ w1 w2,
      py_trees s2 !! 16 = Some w1 ∧ py_trees s2 !! 17 = Some w2 ∧
      tree_t w1 = 48879 ∧ tree_t w2 = 48879 ∧
      gcc_Tree_hash w1 = gcc_Tree_hash w2 ∧
      (bool_decide (ex_type_for_tree 48879 1 = ex_tree_type)
       || false = true →
       gcc_Tree_richcompare (λ _ _, false) ex_tree_type
         (Tree_object w1) (Tree_object w2) Py_EQ = Some Py_True ∧
       gcc_Tree_richcompare (λ _ _, false) ex_tree_type
         (Tree_object w1) (Tree_object w2) Py_NE = Some Py_False).
Proof.
  set (s1 := mkPy (<[16 := mkTree 1 ex_tree_type 48879]> ∅) 10 ∅).
  set (s2 := mkPy (<[17 := mkTree 1 ex_tree_type 48879]>
                     (<[16 := mkTree 1 ex_tree_type 48879]> ∅)) 10 ∅).
  assert (H1 : real_make_tree_wrapper ex_type_for_tree ex_PyObject_New 48879
                 ex_pystate = Done 16 s1).
  { vm_compute. reflexivity. }
  assert (H2 : real_make_tree_wrapper ex_type_for_tree ex_PyObject_New 48879
                 s1 = Done 17 s2).
  { vm_compute. reflexivity. }
  exists s1, s2. split; [exact H1|]. split; [exact H2|].
  apply (independent_wrappers_are_equal ex_type_for_tree ex_PyObject_New
           ex_PyObject_New_ok (λ _ _, false) ex_tree_type
           48879 ex_pystate 16 s1 17 s2);
    [discriminate | exact H1 | discriminate | exact H2 | discriminate].
Defined.

(** ** Lists built from chains of trees *)

Lemma chain_cons_inv trees t n l last :
  chain trees t (n :: l) last →
  t = n ∧ n ≠ NULL ∧
  ∃ nd, trees !! n = Some nd ∧ chain trees (node_chain nd) l last.
Proof.
  simpl. intros (-> & Hn & Hch). destruct (trees !! n) as [nd|]; [|done].
  by eauto.
Qed.

Lemma chain_allocated trees l : ∀ t last n,
  chain trees t l last → n ∈ l → is_Some (trees !! n).
Proof.
  induction l as [|m l IH]; intros t last n Hch Hin.
  - by apply elem_of_nil in Hin.
  - apply chain_cons_inv in Hch as (-> & _ & nd & End & Hch).
    apply elem_of_cons in Hin as [->|Hin]; [by eauto|by eapply IH].
Qed.

Lemma TREE_CHAIN_ok {Host} trees t nd (s : Host) :
  trees !! t = Some nd → TREE_CHAIN trees t s = Done (node_chain nd) s.
Proof. intros E. unfold TREE_CHAIN, c_read. by rewrite E. Qed.

Lemma TREE_VALUE_ok {Host} trees t nd (s : Host) :
  trees !! t = Some nd → TREE_VALUE trees t s = Done (node_value nd) s.
Proof. intros E. unfold TREE_VALUE, c_read. by rewrite E. Qed.

Lemma TREE_PURPOSE_ok {Host} trees t nd (s : Host) :
  trees !! t = Some nd → TREE_PURPOSE trees t s = Done (node_purpose nd) s.
Proof. intros E. unfold TREE_PURPOSE, c_read. by rewrite E. Qed.

Lemma TYPE_ARG_TYPES_ok {Host} trees t nd (s : Host) :
  trees !! t = Some nd →
  TYPE_ARG_TYPES trees t s = Done (node_arg_types nd) s.
Proof. intros E. unfold TYPE_ARG_TYPES, c_read. by rewrite E. Qed.

Lemma int_incr_ok {Host} i (s : Host) :
  i < INT_MAX → int_incr i s = Done (i + 1) s.
Proof. intros Hi. unfold int_incr. by rewrite decide_True. Qed.

Lemma builder_error_returns {Host} (Py_DECREF : Z → M Host unit) result s :
  Py_DECREF_ok Py_DECREF →
  ∃ s', builder_error Py_DECREF result s = Done NULL s'.
Proof.
  intros Hd. unfold builder_error, Py_XDECREF.
  destruct (decide (result = NULL)).
  - by exists s.
  - destruct (Hd result s) as [s' E]. exists s'. by step E.
Qed.

Lemma keeps_items_trans {Host} (items_at : Host → Z → option (list Z))
    s1 s2 s3 :
  keeps_items items_at s1 s2 → keeps_items items_at s2 s3 →
  keeps_items items_at s1 s3.
Proof. intros H12 H23 r l E. by apply H23, H12. Qed.

(** The loop of a builder, on a chain that ends in [NULL]: it returns, and
    either gives up or has appended one item for each node, in the order
    of the chain. *)
Lemma append_chain_spec {Host} (items_at : Host → Z → option (list Z))
    trees PyList_Append Py_DECREF (item_of : Z → M Host Z)
    (R : Z → Z → Prop) result l :
  PyList_Append_ok items_at PyList_Append → Py_DECREF_ok Py_DECREF →
  ∀ fuel t s items0,
    (∀ n s, n ∈ l →
       ∃ item s', item_of n s = Done item s' ∧
                  (item = NULL ∨ R n item ∧ keeps_items items_at s s')) →
    chain trees t l NULL → (length l < fuel)%nat →
    items_at s result = Some items0 →
    ∃ r s',
      append_chain trees PyList_Append Py_DECREF item_of fuel result t s
      = Done r s' ∧
      (r = NULL ∨
       r = result ∧
       ∃ items, items_at s' result = Some (items0 ++ items) ∧
                Forall2 R l items).
Proof.
  intros Ha Hd.
  induction l as [|n l IH]; intros fuel t s items0 Hitem Hch Hfuel Hres.
  - simpl in Hch. destruct fuel as [|fuel]; [simpl in Hfuel; lia|].
    simpl. rewrite decide_True by done. exists result, s. split; [done|].
    right. split; [done|]. exists []. by rewrite app_nil_r.
  - apply chain_cons_inv in Hch as (-> & Hn & nd & End & Hch).
    destruct fuel as [|fuel]; [simpl in Hfuel; lia|].
    simpl. rewrite decide_False by done.
    destruct (Hitem n s) as (item & s1 & E1 & Hit); [by left|].
    step E1. destruct (decide (item = NULL)) as [->|Hnz].
    + destruct (builder_error_returns Py_DECREF result s1 Hd) as [s' E].
      exists NULL, s'. split; [done|by left].
    + destruct Hit as [?|[HR Hk1]]; [done|].
      destruct (Ha result item s1 items0 (Hk1 _ _ Hres))
        as (rc & s2 & E2 & Hrc).
      step E2. destruct Hrc as [[-> Hsame]|[-> Happ]].
      * rewrite decide_True by done. destruct (Hd item s2) as [s3 E3].
        step E3.
        destruct (builder_error_returns Py_DECREF result s3 Hd) as [s' E].
        exists NULL, s'. split; [done|by left].
      * rewrite decide_False by done. step (TREE_CHAIN_ok trees n nd s2 End).
        destruct (IH fuel (node_chain nd) s2 (items0 ++ [item]))
          as (r & s' & E & Hr); [|done|simpl in Hfuel; lia|done|].
        { intros m s0 Hm. apply Hitem. by right. }
        exists r, s'. split; [done|].
        destruct Hr as [->|[-> (items & Hi & HF)]]; [by left|right].
        split; [done|]. exists (item :: items).
        rewrite <- app_assoc in Hi. split; [done|]. by constructor.
Qed.

Section ChainProofs.
Context {Host : Type}.
Variable items_at : Host → Z → option (list Z).
Variable trees : tree_memory.
Variable error_mark_node : Z.
Variable make : Z → M Host Z.
Variable PyList_New : Z → M Host Z.
Variable PyList_Append : Z → Z → M Host Z.
Variable PyTuple_New : Z → M Host Z.
Variable PyTuple_SetItem : Z → Z → Z → M Host Z.
Variable Py_BuildValue_OO : Z → Z → M Host Z.
Variable PyList_SetItem : Z → Z → Z → M Host Z.
Variable PyTuple_Pack_2 : Z → Z → M Host Z.
Variable Py_DECREF : Z → M Host unit.
Variable wraps : Z → Z → Prop.
Variable pairs : Z → Z → Z → Prop.

(** The three loops of the source are the one loop, with their items. *)
Lemma gcc_tree_list_from_chain_loop_eq fuel : ∀ result t s,
  gcc_tree_list_from_chain_loop trees make PyList_Append Py_DECREF
    fuel result t s
  = append_chain trees PyList_Append Py_DECREF make fuel result t s.
Proof.
  induction fuel as [|fuel IH]; intros result t s; [done|].
  simpl. case_decide; [done|]. unfold mbind, M_bind.
  destruct (make t s) as [item s1| | |]; [|done..].
  case_decide; [done|].
  destruct (PyList_Append result item s1) as [rc s2| | |]; [|done..].
  case_decide; [done|].
  destruct (TREE_CHAIN trees t s2) as [t' s3| | |]; [|done..].
  apply IH.
Qed.

Lemma gcc_python_tree_make_list_from_tree_list_chain_loop_eq fuel :
  ∀ result t s,
  gcc_python_tree_make_list_from_tree_list_chain_loop trees make
    PyList_Append Py_DECREF fuel result t s
  = append_chain trees PyList_Append Py_DECREF (value_item trees make)
      fuel result t s.
Proof.
  induction fuel as [|fuel IH]; intros result t s; [done|].
  simpl. case_decide; [done|]. unfold value_item, mbind, M_bind.
  destruct (TREE_VALUE trees t s) as [v s0| | |]; [|done..].
  destruct (make v s0) as [item s1| | |]; [|done..].
  case_decide; [done|].
  destruct (PyList_Append result item s1) as [rc s2| | |]; [|done..].
  case_decide; [done|].
  destruct (TREE_CHAIN trees t s2) as [t' s3| | |]; [|done..].
  apply IH.
Qed.

Lemma gcc_tree_list_of_pairs_from_tree_list_chain_loop_eq fuel :
  ∀ result t s,
  gcc_tree_list_of_pairs_from_tree_list_chain_loop trees make
    PyList_Append Py_BuildValue_OO Py_DECREF fuel result t s
  = append_chain trees PyList_Append Py_DECREF
      (pair_item trees make Py_BuildValue_OO Py_DECREF) fuel result t s.
Proof.
  induction fuel as [|fuel IH]; intros result t s; [done|].
  simpl. case_decide; [done|]. unfold pair_item, mbind, M_bind.
  destruct (TREE_PURPOSE trees t s) as [p s0| | |]; [|done..].
  destruct (make p s0) as [purpose s1| | |]; [|done..].
  case_decide as Hp.
  { unfold mret, M_ret. simpl. by rewrite ?decide_True. }
  destruct (TREE_VALUE trees t s1) as [v s2| | |]; [|done..].
  destruct (make v s2) as [value s3| | |]; [|done..].
  case_decide as Hv.
  { destruct (Py_DECREF purpose s3) as [[] s4| | |]; [|done..].
    unfold mret, M_ret. simpl. by rewrite ?decide_True. }
  destruct (Py_BuildValue_OO purpose value s3) as [pair s4| | |]; [|done..].
  case_decide as Hpair.
  { destruct (Py_DECREF purpose s4) as [[] s5| | |]; [|done..].
    destruct (Py_DECREF value s5) as [[] s6| | |]; [|done..].
    unfold mret, M_ret. simpl. by rewrite ?decide_True. }
  unfold mret, M_ret. simpl. rewrite decide_False by done.
  destruct (PyList_Append result pair s4) as [rc s5| | |]; [|done..].
  case_decide; [done|].
  destruct (TREE_CHAIN trees t s5) as [t' s6| | |]; [|done..].
  apply IH.
Qed.

(** What each loop appends for a node. *)
Lemma value_item_spec l t last n s :
  wrapper_maker_ok items_at make wraps →
  chain trees t l last → n ∈ l →
  ∃ item s', value_item trees make n s = Done item s' ∧
             (item = NULL ∨
              value_wrapped trees wraps n item ∧ keeps_items items_at s s').
Proof.
  intros Hm Hch Hin.
  destruct (chain_allocated trees l t last n Hch Hin) as [nd End].
  unfold value_item. step (TREE_VALUE_ok trees n nd s End).
  destruct (Hm (node_value nd) s) as (item & s' & E & Hit & Hk).
  exists item, s'. split; [done|].
  destruct Hit as [->|Hw]; [by left|right]. split; [|done]. by exists nd.
Qed.

Lemma pair_item_spec l t last n s :
  wrapper_maker_ok items_at make wraps →
  pair_maker_ok items_at Py_BuildValue_OO pairs →
  Py_DECREF_ok Py_DECREF →
  chain trees t l last → n ∈ l →
  ∃ item s',
    pair_item trees make Py_BuildValue_OO Py_DECREF n s = Done item s' ∧
    (item = NULL ∨
     pair_wrapped trees wraps pairs n item ∧ keeps_items items_at s s').
Proof.
  intros Hm Hb Hd Hch Hin.
  destruct (chain_allocated trees l t last n Hch Hin) as [nd End].
  unfold pair_item. step (TREE_PURPOSE_ok trees n nd s End).
  destruct (Hm (node_purpose nd) s) as (purpose & s1 & E1 & Hp & Hk1).
  step E1. destruct (decide (purpose = NULL)) as [->|Hpz].
  { exists NULL, s1. split; [done|by left]. }
  destruct Hp as [?|Hp]; [done|].
  step (TREE_VALUE_ok trees n nd s1 End).
  destruct (Hm (node_value nd) s1) as (value & s2 & E2 & Hv & Hk2).
  step E2. destruct (decide (value = NULL)) as [->|Hvz].
  { destruct (Hd purpose s2) as [s3 E3]. step E3.
    exists NULL, s3. split; [done|by left]. }
  destruct Hv as [?|Hv]; [done|].
  destruct (Hb purpose value s2) as (pair & s3 & E3 & Hpair & Hk3).
  step E3. destruct (decide (pair = NULL)) as [->|Hpairz].
  { destruct (Hd purpose s3) as [s4 E4]. step E4.
    destruct (Hd value s4) as [s5 E5]. step E5.
    exists NULL, s5. split; [done|by left]. }
  destruct Hpair as [?|Hpair]; [done|].
  exists pair, s3. split; [done|]. right. split.
  - by exists nd, purpose, value.
  - eapply keeps_items_trans; [exact Hk1|].
    eapply keeps_items_trans; [exact Hk2|exact Hk3].
Qed.

(** X15.  [gcc_tree_list_from_chain] on a chain of trees that ends in
    [NULL], when the host runtime returns from every call and appends as
    it says: the function returns, and what it returns is [NULL] or a list
    that holds one wrapper for each node of the chain, in the order of the
    chain, each made for its node. *)
Theorem tree_list_from_chain_wraps_chain fuel t l s :
  wrapper_maker_ok items_at make wraps →
  PyList_New_ok items_at PyList_New →
  PyList_Append_ok items_at PyList_Append →
  Py_DECREF_ok Py_DECREF →
  chain trees t l NULL → (length l < fuel)%nat →
  ∃ r s',
    gcc_tree_list_from_chain trees make PyList_New PyList_Append Py_DECREF
      fuel t s = Done r s' ∧
    (r = NULL ∨
     ∃ items, items_at s' r = Some items ∧ Forall2 wraps l items).
Proof.
  intros Hm Hn Ha Hd Hch Hfuel. unfold gcc_tree_list_from_chain.
  destruct (Hn 0 s ltac:(done)) as (result & s0 & E0 & Hres). step E0.
  destruct (decide (result = NULL)) as [->|Hnz].
  { destruct (builder_error_returns Py_DECREF NULL s0 Hd) as [s' E].
    exists NULL, s'. split; [done|by left]. }
  destruct Hres as [?|Hres]; [done|].
  rewrite gcc_tree_list_from_chain_loop_eq.
  destruct (append_chain_spec items_at trees PyList_Append Py_DECREF make
              wraps result l Ha Hd fuel t s0 [])
    as (r & s' & E & Hr); [|done..|].
  { intros n s1 _. destruct (Hm n s1) as (item & s2 & E & Hit & Hk).
    exists item, s2. split; [done|]. destruct Hit; [by left|by right]. }
  exists r, s'. split; [done|].
  destruct Hr as [->|[-> (items & Hi & HF)]]; [by left|right]. by exists items.
Qed.

(** X16.  [gcc_python_tree_make_list_from_tree_list_chain] on a chain of
    list nodes that ends in [NULL], under the same assumptions: it returns
    [NULL] or a list that holds, for each node of the chain and in the
    order of the chain, a wrapper made for the node's [TREE_VALUE]. *)
Theorem tree_list_chain_values_wrapped fuel t l s :
  wrapper_maker_ok items_at make wraps →
  PyList_New_ok items_at PyList_New →
  PyList_Append_ok items_at PyList_Append →
  Py_DECREF_ok Py_DECREF →
  chain trees t l NULL → (length l < fuel)%nat →
  ∃ r s',
    gcc_python_tree_make_list_from_tree_list_chain trees make PyList_New
      PyList_Append Py_DECREF fuel t s = Done r s' ∧
    (r = NULL ∨
     ∃ items, items_at s' r = Some items ∧
              Forall2 (value_wrapped trees wraps) l items).
Proof.
  intros Hm Hn Ha Hd Hch Hfuel.
  unfold gcc_python_tree_make_list_from_tree_list_chain.
  destruct (Hn 0 s ltac:(done)) as (result & s0 & E0 & Hres). step E0.
  destruct (decide (result = NULL)) as [->|Hnz].
  { destruct (builder_error_returns Py_DECREF NULL s0 Hd) as [s' E].
    exists NULL, s'. split; [done|by left]. }
  destruct Hres as [?|Hres]; [done|].
  rewrite gcc_python_tree_make_list_from_tree_list_chain_loop_eq.
  destruct (append_chain_spec items_at trees PyList_Append Py_DECREF
              (value_item trees make) (value_wrapped trees wraps) result l
              Ha Hd fuel t s0 [])
    as (r & s' & E & Hr); [|done..|].
  { intros n s1 Hin. by eapply value_item_spec. }
  exists r, s'. split; [done|].
  destruct Hr as [->|[-> (items & Hi & HF)]]; [by left|right]. by exists items.
Qed.

(** X17.  [gcc_tree_list_of_pairs_from_tree_list_chain] on a chain of list
    nodes that ends in [NULL], under the same assumptions and with a
    [Py_BuildValue] that returns: it returns [NULL] or a list that holds,
    for each node of the chain and in the order of the chain, the pair
    built of a wrapper made for the node's [TREE_PURPOSE] and a wrapper
    made for its [TREE_VALUE], in this order. *)
Theorem tree_list_chain_pairs_wrapped fuel t l s :
  wrapper_maker_ok items_at make wraps →
  pair_maker_ok items_at Py_BuildValue_OO pairs →
  PyList_New_ok items_at PyList_New →
  PyList_Append_ok items_at PyList_Append →
  Py_DECREF_ok Py_DECREF →
  chain trees t l NULL → (length l < fuel)%nat →
  ∃ r s',
    gcc_tree_list_of_pairs_from_tree_list_chain trees make PyList_New
      PyList_Append Py_BuildValue_OO Py_DECREF fuel t s = Done r s' ∧
    (r = NULL ∨
     ∃ items, items_at s' r = Some items ∧
              Forall2 (pair_wrapped trees wraps pairs) l items).
Proof.
  intros Hm Hb Hn Ha Hd Hch Hfuel.
  unfold gcc_tree_list_of_pairs_from_tree_list_chain.
  destruct (Hn 0 s ltac:(done)) as (result & s0 & E0 & Hres). step E0.
  destruct (decide (result = NULL)) as [->|Hnz].
  { destruct (builder_error_returns Py_DECREF NULL s0 Hd) as [s' E].
    exists NULL, s'. split; [done|by left]. }
  destruct Hres as [?|Hres]; [done|].
  rewrite gcc_tree_list_of_pairs_from_tree_list_chain_loop_eq.
  destruct (append_chain_spec items_at trees PyList_Append Py_DECREF
              (pair_item trees make Py_BuildValue_OO Py_DECREF)
              (pair_wrapped trees wraps pairs) result l
              Ha Hd fuel t s0 [])
    as (r & s' & E & Hr); [|done..|].
  { intros n s1 Hin. by eapply pair_item_spec. }
  exists r, s'. split; [done|].
  destruct Hr as [->|[-> (items & Hi & HF)]]; [by left|right]. by exists items.
Qed.

(** ** The argument types of a function type *)

(** The first loop counts the nodes before the end of the chain, whether
    the chain ends in [NULL] or in [error_mark_node]. *)
Lemma argument_types_count_spec l : ∀ fuel size t last (s : Host),
  chain trees t l last → last = NULL ∨ last = error_mark_node →
  error_mark_node ∉ l → (length l < fuel)%nat →
  size + Z.of_nat (length l) ≤ INT_MAX →
  argument_types_count trees error_mark_node fuel size t s
  = Done (size + Z.of_nat (length l)) s.
Proof.
  induction l as [|n l IH]; intros fuel size t last s Hch Hlast Hemn Hfuel Hsz.
  - simpl in Hch. subst t. destruct fuel as [|fuel]; [simpl in Hfuel; lia|].
    simpl. rewrite decide_False by (intros [? ?]; by destruct Hlast).
    by rewrite Z.add_0_r.
  - apply chain_cons_inv in Hch as (-> & Hn & nd & End & Hch).
    apply not_elem_of_cons in Hemn as [Hne Hemn].
    destruct fuel as [|fuel]; [simpl in Hfuel; lia|].
    simpl length in *. simpl. rewrite decide_True by done.
    step (TREE_CHAIN_ok trees n nd s End).
    step (int_incr_ok size s ltac:(lia)).
    rewrite (IH fuel (size + 1) (node_chain nd) last s); [|done..|lia|lia].
    f_equal. lia.
Qed.

(** X18.  [gcc_FunctionType_get_argument_types] on a function type whose
    chain of argument types is empty, that is whose [TYPE_ARG_TYPES] is
    [NULL] or [error_mark_node]: the call stops at [assert(size>0)],
    before any call of the host runtime. *)
Theorem argument_types_of_empty_chain_asserts fuel self nd (s : Host) :
  trees !! tree_t self = Some nd →
  node_arg_types nd = NULL ∨ node_arg_types nd = error_mark_node →
  (0 < fuel)%nat →
  gcc_FunctionType_get_argument_types trees error_mark_node make
    PyTuple_New PyTuple_SetItem Py_DECREF fuel self s
  = AssertFail "size>0" s.
Proof.
  intros End Hhead Hfuel. unfold gcc_FunctionType_get_argument_types.
  step (TYPE_ARG_TYPES_ok trees (tree_t self) nd s End).
  rewrite (run_bind _ _ _ _ _
             (argument_types_count_spec [] fuel 0 (node_arg_types nd)
                (node_arg_types nd) s eq_refl Hhead
                ltac:(apply not_elem_of_nil) Hfuel ltac:(done))).
  by rewrite (run_bind_assert_fail _ _ _ _ _
                (c_assert_fail (0 + Z.of_nat (length (@nil Z)) > 0) "size>0"
                   s ltac:(simpl; lia))).
Qed.

(** The second loop on a chain that ends in [NULL]: it stops at the last
    node, which it does not visit. *)
Lemma argument_types_fill_spec result size l :
  wrapper_maker_ok items_at make wraps →
  PyTuple_SetItem_ok items_at PyTuple_SetItem →
  Py_DECREF_ok Py_DECREF →
  ∀ fuel i t s filled,
    chain trees t l NULL → l ≠ [] → error_mark_node ∉ l →
    (length l < fuel)%nat →
    i + Z.of_nat (length l) = size + 1 → size < INT_MAX →
    Z.of_nat (length filled) = i →
    items_at s result
    = Some (filled ++ replicate (length l - 1) NULL) →
    ∃ r s',
      argument_types_fill trees error_mark_node make PyTuple_SetItem
        Py_DECREF fuel result size i t s = Done r s' ∧
      (r = NULL ∨
       r = result ∧
       ∃ items, items_at s' result = Some (filled ++ items) ∧
                Forall2 (value_wrapped trees wraps) (removelast l) items).
Proof.
  intros Hm Hset Hd.
  induction l as [|n l IH];
    intros fuel i t s filled Hch Hne Hemn Hfuel Hsz Hmax Hlen Hres; [done|].
  apply chain_cons_inv in Hch as (-> & Hn & nd & End & Hch).
  apply not_elem_of_cons in Hemn as [Hnemn Hemn].
  destruct fuel as [|fuel]; [simpl in Hfuel; lia|].
  simpl argument_types_fill. rewrite decide_False by done.
  step (TREE_CHAIN_ok trees n nd s End).
  destruct l as [|m l].
  - simpl in Hch. rewrite decide_True by done.
    exists result, s. split; [done|]. right. split; [done|]. exists [].
    split; [done|]. simpl. constructor.
  - pose proof Hch as Hch'.
    apply chain_cons_inv in Hch' as (Hnext & Hm0 & _).
    rewrite decide_False by congruence. rewrite decide_False by done.
    simpl length in *.
    step (c_assert_ok (i < size) "i<size" s ltac:(lia)).
    step (TREE_VALUE_ok trees n nd s End).
    destruct (Hm (node_value nd) s) as (item & s1 & E1 & Hit & Hk1).
    step E1. destruct (decide (item = NULL)) as [->|Hnz].
    { destruct (builder_error_returns Py_DECREF result s1 Hd) as [s' E].
      exists NULL, s'. split; [done|by left]. }
    destruct Hit as [?|Hw]; [done|].
    destruct (Hset result i item s1 _ (Hk1 _ _ Hres)) as (rc & s2 & E2 & Hi).
    { rewrite length_app, length_replicate. lia. }
    step E2. step (TREE_CHAIN_ok trees n nd s2 End).
    step (int_incr_ok i s2 ltac:(lia)).
    destruct (IH fuel (i + 1) (node_chain nd) s2 (filled ++ [item]))
      as (r & s' & E & Hr); [done|done|done|lia|simpl length; lia|done| | |].
    { rewrite length_app. simpl. lia. }
    { rewrite Hi. f_equal.
      replace (Z.to_nat i) with (length filled + 0)%nat by lia.
      rewrite insert_app_r. simpl. rewrite <- app_assoc. simpl.
      by rewrite Nat.sub_0_r. }
    exists r, s'. split; [done|].
    destruct Hr as [->|[-> (items & Hit & HF)]]; [by left|right].
    split; [done|]. exists (item :: items).
    rewrite <- app_assoc in Hit. split; [done|].
    change (removelast (n :: m :: l)) with (n :: removelast (m :: l)).
    constructor; [by exists nd|done].
Qed.

(** X19.  [gcc_FunctionType_get_argument_types] on a function type whose
    chain of argument types has at least one node and ends in [NULL], when
    the host runtime returns from every call and stores as it says: the
    call returns, and what it returns is [NULL] or a tuple that holds, for
    each node of the chain but the last and in the order of the chain, a
    wrapper made for the node's [TREE_VALUE]; the last node is left out. *)
Theorem argument_types_drop_last_node fuel self nd l (s : Host) :
  wrapper_maker_ok items_at make wraps →
  PyTuple_New_ok items_at PyTuple_New →
  PyTuple_SetItem_ok items_at PyTuple_SetItem →
  Py_DECREF_ok Py_DECREF →
  trees !! tree_t self = Some nd →
  chain trees (node_arg_types nd) l NULL → l ≠ [] →
  error_mark_node ∉ l → (length l < fuel)%nat →
  Z.of_nat (length l) ≤ INT_MAX →
  ∃ r s',
    gcc_FunctionType_get_argument_types trees error_mark_node make
      PyTuple_New PyTuple_SetItem Py_DECREF fuel self s = Done r s' ∧
    (r = NULL ∨
     ∃ items, items_at s' r = Some items ∧
              Forall2 (value_wrapped trees wraps) (removelast l) items).
Proof.
  intros Hm Hnew Hset Hd End Hch Hne Hemn Hfuel Hmax.
  unfold gcc_FunctionType_get_argument_types.
  step (TYPE_ARG_TYPES_ok trees (tree_t self) nd s End).
  rewrite (run_bind _ _ _ _ _
             (argument_types_count_spec l fuel 0 (node_arg_types nd) NULL s
                Hch ltac:(by left) Hemn Hfuel ltac:(lia))).
  assert (0 < Z.of_nat (length l)) as Hpos by (destruct l; [done|simpl; lia]).
  step (c_assert_ok (0 + Z.of_nat (length l) > 0) "size>0" s ltac:(lia)).
  cbv zeta.
  destruct (Hnew (0 + Z.of_nat (length l) - 1) s ltac:(lia))
    as (result & s0 & E0 & Hres).
  step E0. destruct (decide (result = NULL)) as [->|Hnz].
  { exists NULL, s0. split; [done|by left]. }
  destruct Hres as [?|Hres]; [done|].
  destruct (argument_types_fill_spec result (0 + Z.of_nat (length l) - 1) l
              Hm Hset Hd fuel 0 (node_arg_types nd) s0 [])
    as (r & s' & E & Hr); [done|done|done|done|lia|unfold INT_MAX in *; lia|done| |].
  { rewrite Hres. simpl. do 2 f_equal. lia. }
  exists r, s'. split; [done|].
  destruct Hr as [->|[-> (items & Hi & HF)]]; [by left|right]. by exists items.
Qed.

(** The second loop on a chain that ends in [error_mark_node]: the count
    of the first loop is one short of the nodes that the second visits. *)
Lemma argument_types_fill_error_mark result size l :
  wrapper_maker_ok items_at make wraps →
  PyTuple_SetItem_ok items_at PyTuple_SetItem →
  Py_DECREF_ok Py_DECREF →
  error_mark_node ≠ NULL →
  ∀ fuel i t s slots,
    chain trees t l error_mark_node → l ≠ [] → error_mark_node ∉ l →
    (length l < fuel)%nat →
    i + Z.of_nat (length l) = size + 1 → size < INT_MAX → 0 ≤ i →
    items_at s result = Some slots → Z.of_nat (length slots) = size →
    (∃ s', argument_types_fill trees error_mark_node make PyTuple_SetItem
             Py_DECREF fuel result size i t s = Done NULL s') ∨
    (∃ s', argument_types_fill trees error_mark_node make PyTuple_SetItem
             Py_DECREF fuel result size i t s = AssertFail "i<size" s').
Proof.
  intros Hm Hset Hd Hemnz.
  induction l as [|n l IH];
    intros fuel i t s slots Hch Hne Hemn Hfuel Hsz Hmax Hi Hres Hlen; [done|].
  apply chain_cons_inv in Hch as (-> & Hn & nd & End & Hch).
  apply not_elem_of_cons in Hemn as [Hnemn Hemn].
  destruct fuel as [|fuel]; [simpl in Hfuel; lia|].
  simpl argument_types_fill. rewrite decide_False by done.
  step (TREE_CHAIN_ok trees n nd s End).
  assert (node_chain nd ≠ NULL) as Hc.
  { destruct l as [|m l]; [simpl in Hch; congruence|].
    apply chain_cons_inv in Hch as (-> & ? & _). done. }
  rewrite decide_False by done. rewrite decide_False by done.
  simpl length in *.
  destruct l as [|m l].
  - right. exists s.
    by rewrite (run_bind_assert_fail _ _ _ _ _
                  (c_assert_fail (i < size) "i<size" s
                     ltac:(simpl in Hsz; lia))).
  - simpl length in *.
    step (c_assert_ok (i < size) "i<size" s ltac:(lia)).
    step (TREE_VALUE_ok trees n nd s End).
    destruct (Hm (node_value nd) s) as (item & s1 & E1 & Hit & Hk1).
    step E1. destruct (decide (item = NULL)) as [->|Hnz].
    { destruct (builder_error_returns Py_DECREF result s1 Hd) as [s' E].
      left. by exists s'. }
    destruct (Hset result i item s1 _ (Hk1 _ _ Hres)) as (rc & s2 & E2 & Hi2);
      [lia|].
    step E2. step (TREE_CHAIN_ok trees n nd s2 End).
    step (int_incr_ok i s2 ltac:(lia)).
    apply (IH fuel (i + 1) (node_chain nd) s2 (<[Z.to_nat i:=item]> slots));
      [done|done|done|lia|simpl length; lia|done|lia|done|].
    by rewrite length_insert.
Qed.

(** X20.  [gcc_FunctionType_get_argument_types] never returns a tuple for
    a function type whose chain of argument types ends in
    [error_mark_node] instead of [NULL]: the first loop stops counting at
    [error_mark_node], the second goes on to the node before it, so that,
    with a host runtime that returns from every call, the call either
    returns [NULL] after a failure of the runtime or stops at
    [assert(i<size)]. *)
Theorem argument_types_error_mark_chain fuel self nd l (s : Host) :
  wrapper_maker_ok items_at make wraps →
  PyTuple_New_ok items_at PyTuple_New →
  PyTuple_SetItem_ok items_at PyTuple_SetItem →
  Py_DECREF_ok Py_DECREF →
  error_mark_node ≠ NULL →
  trees !! tree_t self = Some nd →
  chain trees (node_arg_types nd) l error_mark_node → l ≠ [] →
  error_mark_node ∉ l → (length l < fuel)%nat →
  Z.of_nat (length l) ≤ INT_MAX →
  (∃ s', gcc_FunctionType_get_argument_types trees error_mark_node make
           PyTuple_New PyTuple_SetItem Py_DECREF fuel self s
         = Done NULL s') ∨
  (∃ s', gcc_FunctionType_get_argument_types trees error_mark_node make
           PyTuple_New PyTuple_SetItem Py_DECREF fuel self s
         = AssertFail "i<size" s').
Proof.
  intros Hm Hnew Hset Hd Hemnz End Hch Hne Hemn Hfuel Hmax.
  unfold gcc_FunctionType_get_argument_types.
  step (TYPE_ARG_TYPES_ok trees (tree_t self) nd s End).
  rewrite (run_bind _ _ _ _ _
             (argument_types_count_spec l fuel 0 (node_arg_types nd)
                error_mark_node s Hch ltac:(by right) Hemn Hfuel ltac:(lia))).
  assert (0 < Z.of_nat (length l)) as Hpos by (destruct l; [done|simpl; lia]).
  step (c_assert_ok (0 + Z.of_nat (length l) > 0) "size>0" s ltac:(lia)).
  cbv zeta.
  destruct (Hnew (0 + Z.of_nat (length l) - 1) s ltac:(lia))
    as (result & s0 & E0 & Hres).
  step E0. destruct (decide (result = NULL)) as [->|Hnz].
  { left. by exists s0. }
  destruct Hres as [?|Hres]; [done|].
  eapply (argument_types_fill_error_mark result
            (0 + Z.of_nat (length l) - 1) l Hm Hset Hd Hemnz fuel 0
            (node_arg_types nd) s0);
    [done|done|done|done|lia|unfold INT_MAX in *; lia|done|exact Hres|].
  rewrite length_replicate. lia.
Qed.

(** ** Lists built from vectors *)

Lemma cast_long_small p : 0 ≤ p < 2 ^ 63 → cast_long p = p.
Proof.
  intros Hp. unfold cast_long. rewrite Z.mod_small by lia. lia.
Qed.

Lemma insert_next_slot {A} (filled : list A) (x y : A) rest i :
  Z.of_nat (length filled) = i →
  <[Z.to_nat i := x]> (filled ++ y :: rest) = (filled ++ [x]) ++ rest.
Proof.
  intros Hi. replace (Z.to_nat i) with (length filled + 0)%nat by lia.
  rewrite insert_app_r. simpl. by rewrite <- app_assoc.
Qed.

Lemma VEC_tree_as_PyList_loop_spec result :
  wrapper_maker_ok items_at make wraps →
  PyList_SetItem_ok items_at PyList_SetItem →
  Py_DECREF_ok Py_DECREF →
  ∀ rest i s filled,
    i + Z.of_nat (length rest) ≤ INT_MAX →
    Z.of_nat (length filled) = i →
    items_at s result = Some (filled ++ replicate (length rest) NULL) →
    ∃ r s',
      VEC_tree_as_PyList_loop make PyList_SetItem Py_DECREF result i rest s
      = Done r s' ∧
      (r = NULL ∨
       r = result ∧
       ∃ items, items_at s' result = Some (filled ++ items) ∧
                Forall2 wraps rest items).
Proof.
  intros Hm Hset Hd.
  induction rest as [|t rest IH]; intros i s filled Hmax Hlen Hres.
  - exists result, s. split; [done|]. right. split; [done|]. exists [].
    split; [exact Hres|constructor].
  - simpl length in *. simpl VEC_tree_as_PyList_loop.
    destruct (Hm t s) as (item & s1 & E1 & Hit & Hk1). step E1.
    destruct (decide (item = NULL)) as [->|Hnz].
    { destruct (builder_error_returns Py_DECREF result s1 Hd) as [s' E].
      exists NULL, s'. split; [done|by left]. }
    destruct Hit as [?|Hw]; [done|].
    destruct (Hset result i item s1 _ (Hk1 _ _ Hres)) as (s2 & E2 & Hi).
    { rewrite length_app. simpl. lia. }
    step E2. step (int_incr_ok i s2 ltac:(lia)).
    destruct (IH (i + 1) s2 (filled ++ [item])) as (r & s' & E & Hr).
    { lia. }
    { rewrite length_app. simpl. lia. }
    { rewrite Hi. simpl. by rewrite (insert_next_slot filled item NULL _ i). }
    exists r, s'. split; [done|].
    destruct Hr as [->|[-> (items & Hitems & HF)]]; [by left|right].
    split; [done|]. exists (item :: items).
    rewrite <- app_assoc in Hitems. split; [done|]. by constructor.
Qed.

(** X21.  [VEC_tree_as_PyList] on a vector of trees, when the host runtime
    returns from every call and stores as it says: the function returns,
    and what it returns is [NULL] or a list that holds one wrapper for
    each element of the vector, in the order of the vector, each made for
    its element. *)
Theorem vec_tree_list_wraps_elements vec_nodes (s : Host) :
  wrapper_maker_ok items_at make wraps →
  PyList_New_ok items_at PyList_New →
  PyList_SetItem_ok items_at PyList_SetItem →
  Py_DECREF_ok Py_DECREF →
  Z.of_nat (length vec_nodes) ≤ INT_MAX →
  ∃ r s',
    VEC_tree_as_PyList make PyList_New PyList_SetItem Py_DECREF vec_nodes s
    = Done r s' ∧
    (r = NULL ∨
     ∃ items, items_at s' r = Some items ∧ Forall2 wraps vec_nodes items).
Proof.
  intros Hm Hn Hset Hd Hmax. unfold VEC_tree_as_PyList.
  destruct (Hn (Z.of_nat (length vec_nodes)) s ltac:(lia))
    as (result & s0 & E0 & Hres).
  step E0. destruct (decide (result = NULL)) as [->|Hnz].
  { destruct (builder_error_returns Py_DECREF NULL s0 Hd) as [s' E].
    exists NULL, s'. split; [done|by left]. }
  destruct Hres as [?|Hres]; [done|]. rewrite Nat2Z.id in Hres.
  destruct (VEC_tree_as_PyList_loop_spec result Hm Hset Hd vec_nodes 0 s0 [])
    as (r & s' & E & Hr); [lia|done|done|].
  exists r, s'. split; [done|].
  destruct Hr as [->|[-> (items & Hi & HF)]]; [by left|right]. by exists items.
Qed.

Lemma gcc_Constructor_get_elements_loop_spec result :
  wrapper_maker_ok items_at make wraps →
  pair_maker_ok items_at PyTuple_Pack_2 pairs →
  PyList_SetItem_ok items_at PyList_SetItem →
  Py_DECREF_ok Py_DECREF →
  ∀ rest cnt s filled,
    cnt + Z.of_nat (length rest) < 2 ^ 63 →
    Z.of_nat (length filled) = cnt →
    items_at s result = Some (filled ++ replicate (length rest) NULL) →
    ∃ r s',
      gcc_Constructor_get_elements_loop make PyList_SetItem PyTuple_Pack_2
        Py_DECREF result cnt rest s = Done r s' ∧
      (r = NULL ∨
       r = result ∧
       ∃ items, items_at s' result = Some (filled ++ items) ∧
                Forall2 (elt_wrapped wraps pairs) rest items).
Proof.
  intros Hm Hp Hset Hd.
  induction rest as [|elt rest IH]; intros cnt s filled Hmax Hlen Hres.
  - exists result, s. split; [done|]. right. split; [done|]. exists [].
    split; [exact Hres|constructor].
  - simpl length in *. simpl gcc_Constructor_get_elements_loop.
    destruct (Hm (elt_index elt) s) as (obj_index & s1 & E1 & Hix & Hk1).
    step E1. destruct (decide (obj_index = NULL)) as [->|Hixz].
    { destruct (builder_error_returns Py_DECREF result s1 Hd) as [s' E].
      exists NULL, s'. split; [done|by left]. }
    destruct Hix as [?|Hix]; [done|].
    destruct (Hm (elt_value elt) s1) as (obj_value & s2 & E2 & Hv & Hk2).
    step E2. destruct (decide (obj_value = NULL)) as [->|Hvz].
    { destruct (Hd obj_index s2) as [s3 E3]. step E3.
      destruct (builder_error_returns Py_DECREF result s3 Hd) as [s' E].
      exists NULL, s'. split; [done|by left]. }
    destruct Hv as [?|Hv]; [done|].
    destruct (Hp obj_index obj_value s2) as (obj_pair & s3 & E3 & Hpr & Hk3).
    step E3. destruct (decide (obj_pair = NULL)) as [->|Hprz].
    { destruct (Hd obj_value s3) as [s4 E4]. step E4.
      destruct (Hd obj_index s4) as [s5 E5]. step E5.
      destruct (builder_error_returns Py_DECREF result s5 Hd) as [s' E].
      exists NULL, s'. split; [done|by left]. }
    destruct Hpr as [?|Hpr]; [done|].
    rewrite (cast_long_small cnt) by lia.
    destruct (Hset result cnt obj_pair s3 _ (Hk3 _ _ (Hk2 _ _ (Hk1 _ _ Hres))))
      as (s4 & E4 & Hi).
    { rewrite length_app. simpl. lia. }
    step E4. rewrite decide_False by done.
    rewrite (Z.mod_small (cnt + 1)) by lia.
    destruct (IH (cnt + 1) s4 (filled ++ [obj_pair])) as (r & s' & E & Hr).
    { lia. }
    { rewrite length_app. simpl. lia. }
    { rewrite Hi. simpl.
      by rewrite (insert_next_slot filled obj_pair NULL _ cnt). }
    exists r, s'. split; [done|].
    destruct Hr as [->|[-> (items & Hitems & HF)]]; [by left|right].
    split; [done|]. exists (obj_pair :: items).
    rewrite <- app_assoc in Hitems. split; [done|].
    constructor; [by exists obj_index, obj_value|done].
Qed.

(** X22.  [gcc_Constructor_get_elements] on the elements of a constructor,
    under the same assumptions and with a [PyTuple_Pack] that returns: it
    returns [NULL] or a list that holds, for each element and in the order
    of the elements, the pair packed of a wrapper made for the element's
    index and a wrapper made for its value, in this order. *)
Theorem constructor_elements_paired elts (s : Host) :
  wrapper_maker_ok items_at make wraps →
  pair_maker_ok items_at PyTuple_Pack_2 pairs →
  PyList_New_ok items_at PyList_New →
  PyList_SetItem_ok items_at PyList_SetItem →
  Py_DECREF_ok Py_DECREF →
  Z.of_nat (length elts) < 2 ^ 63 →
  ∃ r s',
    gcc_Constructor_get_elements make PyList_New PyList_SetItem
      PyTuple_Pack_2 Py_DECREF elts s = Done r s' ∧
    (r = NULL ∨
     ∃ items, items_at s' r = Some items ∧
              Forall2 (elt_wrapped wraps pairs) elts items).
Proof.
  intros Hm Hp Hn Hset Hd Hmax. unfold gcc_Constructor_get_elements.
  destruct (Hn (Z.of_nat (length elts)) s ltac:(lia))
    as (result & s0 & E0 & Hres).
  step E0. destruct (decide (result = NULL)) as [->|Hnz].
  { destruct (builder_error_returns Py_DECREF NULL s0 Hd) as [s' E].
    exists NULL, s'. split; [done|by left]. }
  destruct Hres as [?|Hres]; [done|]. rewrite Nat2Z.id in Hres.
  destruct (gcc_Constructor_get_elements_loop_spec result Hm Hp Hset Hd
              elts 0 s0 [])
    as (r & s' & E & Hr); [lia|done|done|].
  exists r, s'. split; [done|].
  destruct Hr as [->|[-> (items & Hi & HF)]]; [by left|right]. by exists items.
Qed.
End ChainProofs.

(** The example runtime meets what is assumed of the host runtime. *)
Lemma ex_make_wrapper_tree_ok :
  wrapper_maker_ok ex_items_at ex_make_wrapper_tree ex_wraps.
Proof.
  intros t s. exists (t + 1000), s. split; [done|].
  split; [by right|by intros r l E].
Qed.

Lemma ex_PyList_New_ok : PyList_New_ok ex_items_at ex_PyList_New.
Proof.
  intros n s Hn.
  exists (ex_new_address s),
         (<[ex_new_address s := replicate (Z.to_nat n) NULL]> s).
  split; [done|]. right. unfold ex_items_at. apply lookup_insert_eq.
Qed.

Lemma ex_PyTuple_New_ok : PyTuple_New_ok ex_items_at ex_PyTuple_New.
Proof.
  intros n s Hn.
  exists (ex_new_address s),
         (<[ex_new_address s := replicate (Z.to_nat n) NULL]> s).
  split; [done|]. right. unfold ex_items_at. apply lookup_insert_eq.
Qed.

Lemma ex_PyList_Append_ok : PyList_Append_ok ex_items_at ex_PyList_Append.
Proof.
  intros r item s l E. unfold ex_items_at in E. unfold ex_PyList_Append.
  rewrite E. exists 0, (<[r := l ++ [item]]> s). split; [done|].
  right. split; [done|]. unfold ex_items_at. apply lookup_insert_eq.
Qed.

Lemma ex_PyTuple_SetItem_ok :
  PyTuple_SetItem_ok ex_items_at ex_PyTuple_SetItem.
Proof.
  intros r i item s l E Hi. unfold ex_items_at in E.
  unfold ex_PyTuple_SetItem. rewrite E.
  exists 0, (<[r := <[Z.to_nat i := item]> l]> s). split; [done|].
  unfold ex_items_at. apply lookup_insert_eq.
Qed.

Lemma ex_Py_BuildValue_ok :
  pair_maker_ok ex_items_at ex_Py_BuildValue ex_pairs.
Proof.
  intros a b s. exists (a * 65536 + b), s. split; [done|].
  split; [by right|by intros r l E].
Qed.

Lemma ex_Py_DECREF_ok : Py_DECREF_ok ex_Py_DECREF.
Proof. intros p s. by exists s. Qed.

Lemma ex_chain_300 : chain ex_trees 300 [300; 310; 320] NULL.
Proof. vm_compute. by repeat split. Qed.

Lemma ex_chain_330 : chain ex_trees 330 [330; 340] 999.
Proof. vm_compute. by repeat split. Qed.

Lemma tree_list_from_chain_wraps_chain_witness :
  ∃ r s',
    gcc_tree_list_from_chain ex_trees ex_make_wrapper_tree ex_PyList_New
      ex_PyList_Append ex_Py_DECREF 4 300 ∅ = Done r s' ∧
    (r = NULL ∨
     ∃ items, ex_items_at s' r = Some items ∧
              Forall2 ex_wraps [300; 310; 320] items).
Proof.
  apply (tree_list_from_chain_wraps_chain ex_items_at ex_trees
           ex_make_wrapper_tree ex_PyList_New ex_PyList_Append ex_Py_DECREF
           ex_wraps 4 300 [300; 310; 320] ∅
           ex_make_wrapper_tree_ok ex_PyList_New_ok ex_PyList_Append_ok
           ex_Py_DECREF_ok ex_chain_300).
  simpl. lia.
Defined.

Lemma tree_list_chain_values_wrapped_witness :
  ∃ r s',
    gcc_python_tree_make_list_from_tree_list_chain ex_trees
      ex_make_wrapper_tree ex_PyList_New ex_PyList_Append ex_Py_DECREF
      4 300 ∅ = Done r s' ∧
    (r = NULL ∨
     ∃ items, ex_items_at s' r = Some items ∧
              Forall2 (value_wrapped ex_trees ex_wraps) [300; 310; 320]
                items).
Proof.
  apply (tree_list_chain_values_wrapped ex_items_at ex_trees
           ex_make_wrapper_tree ex_PyList_New ex_PyList_Append ex_Py_DECREF
           ex_wraps 4 300 [300; 310; 320] ∅
           ex_make_wrapper_tree_ok ex_PyList_New_ok ex_PyList_Append_ok
           ex_Py_DECREF_ok ex_chain_300).
  simpl. lia.
Defined.

Lemma tree_list_chain_pairs_wrapped_witness :
  ∃ r s',
    gcc_tree_list_of_pairs_from_tree_list_chain ex_trees
      ex_make_wrapper_tree ex_PyList_New ex_PyList_Append ex_Py_BuildValue
      ex_Py_DECREF 4 300 ∅ = Done r s' ∧
    (r = NULL ∨
     ∃ items, ex_items_at s' r = Some items ∧
              Forall2 (pair_wrapped ex_trees ex_wraps ex_pairs)
                [300; 310; 320] items).
Proof.
  apply (tree_list_chain_pairs_wrapped ex_items_at ex_trees
           ex_make_wrapper_tree ex_PyList_New ex_PyList_Append
           ex_Py_BuildValue ex_Py_DECREF ex_wraps ex_pairs
           4 300 [300; 310; 320] ∅
           ex_make_wrapper_tree_ok ex_Py_BuildValue_ok ex_PyList_New_ok
           ex_PyList_Append_ok ex_Py_DECREF_ok ex_chain_300).
  simpl. lia.
Defined.

Lemma argument_types_of_empty_chain_asserts_witness :
  gcc_FunctionType_get_argument_types ex_trees 999 ex_make_wrapper_tree
    ex_PyTuple_New ex_PyTuple_SetItem ex_Py_DECREF 1 (mkTree 1 50 402)
    (∅ : ex_host)
  = AssertFail "size>0" ∅.
Proof.
  apply (argument_types_of_empty_chain_asserts ex_trees 999
           ex_make_wrapper_tree ex_PyTuple_New ex_PyTuple_SetItem
           ex_Py_DECREF 1 (mkTree 1 50 402)
           (mkNode NULL NULL NULL 999) ∅).
  - reflexivity.
  - right. reflexivity.
  - lia.
Defined.

Lemma argument_types_error_mark_chain_witness :
  (∃ s', gcc_FunctionType_get_argument_types ex_trees 999
           ex_make_wrapper_tree ex_PyTuple_New ex_PyTuple_SetItem
           ex_Py_DECREF 3 (mkTree 1 50 401) ∅
         = Done NULL s') ∨
  (∃ s', gcc_FunctionType_get_argument_types ex_trees 999
           ex_make_wrapper_tree ex_PyTuple_New ex_PyTuple_SetItem
           ex_Py_DECREF 3 (mkTree 1 50 401) ∅
         = AssertFail "i<size" s').
Proof.
  apply (argument_types_error_mark_chain ex_items_at ex_trees 999
           ex_make_wrapper_tree ex_PyTuple_New ex_PyTuple_SetItem
           ex_Py_DECREF ex_wraps 3 (mkTree 1 50 401)
           (mkNode NULL NULL NULL 330) [330; 340] ∅
           ex_make_wrapper_tree_ok ex_PyTuple_New_ok ex_PyTuple_SetItem_ok
           ex_Py_DECREF_ok).
  - discriminate.
  - reflexivity.
  - exact ex_chain_330.
  - discriminate.
  - apply (bool_decide_unpack _). vm_compute. exact I.
  - simpl. lia.
  - vm_compute. discriminate.
Defined.

Lemma argument_types_drop_last_node_witness :
  ∃ r s',
    gcc_FunctionType_get_argument_types ex_trees 999 ex_make_wrapper_tree
      ex_PyTuple_New ex_PyTuple_SetItem ex_Py_DECREF 4 (mkTree 1 50 400) ∅
    = Done r s' ∧
    (r = NULL ∨
     ∃ items, ex_items_at s' r = Some items ∧
              Forall2 (value_wrapped ex_trees ex_wraps)
                (removelast [300; 310; 320]) items).
Proof.
  apply (argument_types_drop_last_node ex_items_at ex_trees 999
           ex_make_wrapper_tree ex_PyTuple_New ex_PyTuple_SetItem
           ex_Py_DECREF ex_wraps 4 (mkTree 1 50 400)
           (mkNode NULL NULL NULL 300) [300; 310; 320] ∅
           ex_make_wrapper_tree_ok ex_PyTuple_New_ok ex_PyTuple_SetItem_ok
           ex_Py_DECREF_ok).
  - reflexivity.
  - exact ex_chain_300.
  - discriminate.
  - apply (bool_decide_unpack _). vm_compute. exact I.
  - simpl. lia.
  - vm_compute. discriminate.
Defined.

Lemma ex_PyList_SetItem_ok : PyList_SetItem_ok ex_items_at ex_PyList_SetItem.
Proof.
  intros r i item s l E Hi. unfold ex_items_at in E.
  unfold ex_PyList_SetItem. rewrite E, decide_True by done.
  exists (<[r := <[Z.to_nat i := item]> l]> s). split; [done|].
  unfold ex_items_at. apply lookup_insert_eq.
Qed.

Lemma vec_tree_list_wraps_elements_witness :
  ∃ r s',
    VEC_tree_as_PyList ex_make_wrapper_tree ex_PyList_New ex_PyList_SetItem
      ex_Py_DECREF [30; 32; 34] ∅ = Done r s' ∧
    (r = NULL ∨
     ∃ items, ex_items_at s' r = Some items ∧
              Forall2 ex_wraps [30; 32; 34] items).
Proof.
  apply (vec_tree_list_wraps_elements ex_items_at ex_make_wrapper_tree
           ex_PyList_New ex_PyList_SetItem ex_Py_DECREF ex_wraps
           [30; 32; 34] ∅
           ex_make_wrapper_tree_ok ex_PyList_New_ok ex_PyList_SetItem_ok
           ex_Py_DECREF_ok).
  vm_compute. discriminate.
Defined.

Lemma constructor_elements_paired_witness :
  ∃ r s',
    gcc_Constructor_get_elements ex_make_wrapper_tree ex_PyList_New
      ex_PyList_SetItem ex_Py_BuildValue ex_Py_DECREF
      [mkElt 40 41; mkElt 42 43] ∅ = Done r s' ∧
    (r = NULL ∨
     ∃ items, ex_items_at s' r = Some items ∧
              Forall2 (elt_wrapped ex_wraps ex_pairs)
                [mkElt 40 41; mkElt 42 43] items).
Proof.
  apply (constructor_elements_paired ex_items_at ex_make_wrapper_tree
           ex_PyList_New ex_PyList_SetItem ex_Py_BuildValue ex_Py_DECREF
           ex_wraps ex_pairs [mkElt 40 41; mkElt 42 43] ∅
           ex_make_wrapper_tree_ok ex_Py_BuildValue_ok ex_PyList_New_ok
           ex_PyList_SetItem_ok ex_Py_DECREF_ok).
  vm_compute. reflexivity.
Defined.

(** The example runs, evaluated. *)
Lemma ex_tree_list_from_chain_run :
  gcc_tree_list_from_chain ex_trees ex_make_wrapper_tree ex_PyList_New
    ex_PyList_Append ex_Py_DECREF 4 300 ∅
  = Done 1 {[ 1 := [1300; 1310; 1320] ]}.
Proof. vm_compute. reflexivity. Qed.

Lemma ex_tree_list_of_pairs_run :
  gcc_tree_list_of_pairs_from_tree_list_chain ex_trees ex_make_wrapper_tree
    ex_PyList_New ex_PyList_Append ex_Py_BuildValue ex_Py_DECREF 4 300 ∅
  = Done 1 {[ 1 := [1031 * 65536 + 1030; 1033 * 65536 + 1032;
                    1035 * 65536 + 1034] ]}.
Proof. vm_compute. reflexivity. Qed.

Lemma ex_argument_types_run :
  gcc_FunctionType_get_argument_types ex_trees 999 ex_make_wrapper_tree
    ex_PyTuple_New ex_PyTuple_SetItem ex_Py_DECREF 4 (mkTree 1 50 400) ∅
  = Done 1 {[ 1 := [1030; 1032] ]}.
Proof. vm_compute. reflexivity. Qed.

Lemma ex_argument_types_error_mark_run :
  gcc_FunctionType_get_argument_types ex_trees 999 ex_make_wrapper_tree
    ex_PyTuple_New ex_PyTuple_SetItem ex_Py_DECREF 3 (mkTree 1 50 401) ∅
  = AssertFail "i<size" {[ 1 := [1036] ]}.
Proof. vm_compute. reflexivity. Qed.

Lemma ex_VEC_tree_as_PyList_run :
  VEC_tree_as_PyList ex_make_wrapper_tree ex_PyList_New ex_PyList_SetItem
    ex_Py_DECREF [30; 32; 34] ∅
  = Done 1 {[ 1 := [1030; 1032; 1034] ]}.
Proof. vm_compute. reflexivity. Qed.
